(** * del_aws_resources.py: a teardown script over the AWS control plane

    The script is a linear sequence of API calls.  Every boto3 client call is
    modelled as a request answered by the environment; the environment may
    answer differently every time, so it is a function of the history of
    the run.  A procedure is a function from the environment and the history
    to the events it emits and the way it ends. *)

From Stdlib Require Import List String Ascii ZArith Lia Bool Arith Eqdep_dec Sorted.
Import ListNotations.
Open Scope string_scope.
Open Scope list_scope.

(** ** Strings *)

(** Python's [needle in hay] on [str]. *)
Fixpoint contains (needle hay : string) : bool :=
  if String.prefix needle hay then true
  else match hay with
       | EmptyString => false
       | String _ rest => contains needle rest
       end.

(** ** Exceptions *)

Inductive exn : Type :=
| ResourceNotFoundException (msg : string)
| ClientError (msg : string)
| KeyError (key : string)
| IndexError
| ValueError (msg : string)
| PaginationError (msg : string).

(** [str(e)], as an f-string prints it. *)
Definition str (e : exn) : string :=
  match e with
  | ResourceNotFoundException msg => msg
  | ClientError msg => msg
  | KeyError key => "'" ++ key ++ "'"
  | IndexError => "list index out of range"
  | ValueError msg => msg
  | PaginationError msg => "Error during pagination: " ++ msg
  end.

Inductive result (A : Type) : Type :=
| Ok (a : A)
| Err (e : exn).
Arguments Ok {A} a.
Arguments Err {A} e.

(** ** Response shapes: the keys the script reads *)

Definition token := string.

(** One response of a listing operation: the listed records and the
    continuation token (NextToken, nextToken, HasMoreStreams ...). *)
Record page (A : Type) : Type := mkPage {
  items : list A;
  next_token : option token
}.
Arguments mkPage {A} items next_token.
Arguments items {A} p.
Arguments next_token {A} p.

Record StackSummary : Type := mkStackSummary {
  StackName : string;
  StackStatus : string
}.

Record Stack : Type := mkStack {
  EnableTerminationProtection : bool
}.

Record AutoScalingGroup : Type := mkAutoScalingGroup {
  AutoScalingGroupName : string
}.

Record FunctionConfiguration : Type := mkFunction {
  FunctionName : string
}.

Record Domain : Type := mkDomain {
  DomainName : string
}.

Record VpcPeeringConnection : Type := mkVpcPeeringConnection {
  VpcPeeringConnectionId : string
}.

(** A route is a dict whose keys may be absent: [None] is a missing key. *)
Record Route : Type := mkRoute {
  route_VpcPeeringConnectionId : option string;
  DestinationCidrBlock : option string
}.

Record RouteTable : Type := mkRouteTable {
  RouteTableId : string;
  Routes : list Route
}.

Record Instance : Type := mkInstance {
  InstanceId : string
}.

Record Reservation : Type := mkReservation {
  Instances : list Instance
}.

(** ** Requests *)

(** Listing operations whose response carries a continuation token. *)
Inductive listing : Type :=
| cfn_list_stacks (StackStatusFilter : list string)
| autoscaling_describe_auto_scaling_groups
| lambda_list_functions
| eks_list_clusters
| eks_list_nodegroups (clusterName : string)
| ec2_describe_vpc_peering_connections
| ec2_describe_route_tables (route_vpc_peering_connection_id : string)
| kinesis_list_streams
| firehose_list_delivery_streams
| ec2_describe_instances
| ecs_list_clusters
| ecs_list_services (cluster : string)
| ecs_list_tasks (cluster : string).

Definition item (l : listing) : Type :=
  match l with
  | cfn_list_stacks _ => StackSummary
  | autoscaling_describe_auto_scaling_groups => AutoScalingGroup
  | lambda_list_functions => FunctionConfiguration
  | ec2_describe_vpc_peering_connections => VpcPeeringConnection
  | ec2_describe_route_tables _ => RouteTable
  | ec2_describe_instances => Reservation
  | _ => string
  end.

Inductive request : Type :=
| List (l : listing) (NextToken : option token)
| cfn_describe_stacks (StackName : string)
| cfn_delete_stack (StackName : string)
| cfn_wait_stack_delete_complete (StackName : string)
| autoscaling_delete_auto_scaling_group (AutoScalingGroupName : string) (ForceDelete : bool)
| lambda_delete_function (FunctionName : string)
| lambda_get_function (FunctionName : string)
| opensearch_list_domain_names
| opensearch_delete_domain (DomainName : string)
| eks_delete_nodegroup (clusterName nodegroupName : string)
| eks_wait_nodegroup_deleted (clusterName nodegroupName : string)
| eks_delete_cluster (name : string)
| eks_wait_cluster_deleted (name : string)
| ec2_delete_route (RouteTableId DestinationCidrBlock : string)
| ec2_delete_vpc_peering_connection (VpcPeeringConnectionId : string)
| kinesis_delete_stream (StreamName : string) (EnforceConsumerDeletion : bool)
| firehose_delete_delivery_stream (DeliveryStreamName : string)
| ec2_terminate_instances (InstanceIds : list string)
| ec2_wait_instance_terminated (InstanceIds : list string)
| ecs_update_service (cluster service : string) (desiredCount : Z)
| ecs_delete_service (cluster service : string) (force : bool)
| ecs_wait_services_inactive (cluster : string) (services : list string)
| ecs_stop_task (cluster task : string)
| ecs_wait_tasks_stopped (cluster : string) (tasks : list string)
| ecs_delete_cluster (cluster : string)
| ecs_wait_cluster_deleted (clusters : list string).

(** What the script reads from the answer to a request; answers it drops
    are [unit]. *)
Definition response (r : request) : Type :=
  match r with
  | List l _ => page (item l)
  | cfn_describe_stacks _ => list Stack
  | opensearch_list_domain_names => list Domain
  | _ => unit
  end.

(** ** Events, environment and the monad of procedures *)

Inductive event : Type :=
| Called (r : request) (a : result (response r))
| Logged (line : string)
| Slept (secs : Z).

Definition trace := list event.

(** The control plane: it answers a request knowing all that happened. *)
Definition client := trace -> forall r : request, result (response r).

Inductive outcome (A : Type) : Type :=
| Done (a : A)
| Raised (e : exn)
| OutOfFuel.
Arguments Done {A} a.
Arguments Raised {A} e.
Arguments OutOfFuel {A}.

(** A procedure maps the environment and the history so far to the events
    it emits and its outcome. *)
Definition M (A : Type) : Type := client -> trace -> trace * outcome A.

Definition ret {A} (a : A) : M A := fun _ _ => ([], Done a).

Definition bind {A B} (m : M A) (f : A -> M B) : M B :=
  fun env h =>
    let '(t1, o) := m env h in
    match o with
    | Done a => let '(t2, o2) := f a env (h ++ t1) in (t1 ++ t2, o2)
    | Raised e => (t1, Raised e)
    | OutOfFuel => (t1, OutOfFuel)
    end.

Declare Scope aws_scope.
Delimit Scope aws_scope with aws.
Notation "x <- m ;; k" := (bind m (fun x => k))
  (at level 61, m at next level, right associativity) : aws_scope.
Notation "m ;; k" := (bind m (fun _ => k))
  (at level 61, right associativity) : aws_scope.
Open Scope aws_scope.

Definition call (r : request) : M (response r) :=
  fun env h =>
    let a := env h r in
    ([Called r a], match a with Ok v => Done v | Err e => Raised e end).

Definition print (line : string) : M unit := fun _ _ => ([Logged line], Done tt).

Definition sleep (secs : Z) : M unit := fun _ _ => ([Slept secs], Done tt).

Definition raise {A} (e : exn) : M A := fun _ _ => ([], Raised e).

Definition out_of_fuel {A} : M A := fun _ _ => ([], OutOfFuel).

(** [try: m except Exception as e]: the fault becomes a value. *)
Definition try_except {A} (m : M A) : M (result A) :=
  fun env h =>
    let '(t, o) := m env h in
    (t, match o with
        | Done a => Done (Ok a)
        | Raised e => Done (Err e)
        | OutOfFuel => OutOfFuel
        end).

(** [for x in xs: body]. *)
Fixpoint for_each {A} (xs : list A) (body : A -> M unit) : M unit :=
  match xs with
  | [] => ret tt
  | x :: rest => body x ;; for_each rest body
  end.

(** The name under which a paginator sends the continuation token back
    (the input token of the operation).  It only shows in the message of
    PaginationError, and only for the listings the script paginates:
    list_stacks, describe_auto_scaling_groups, list_functions,
    describe_instances and the three ECS listings. *)
Definition token_key (l : listing) : string :=
  match l with
  | lambda_list_functions => "Marker"
  | ecs_list_clusters | ecs_list_services _ | ecs_list_tasks _
  | eks_list_clusters | eks_list_nodegroups _ => "nextToken"
  | _ => "NextToken"
  end.

(** The message, for a token that Python shows between single quotes as
    it is. *)
Definition same_token_message (l : listing) (t : token) : string :=
  "The same next token was received twice: {'" ++ token_key l ++ "': '"
    ++ t ++ "'}".

(** What the page iterator does once the body has run on a page: an absent
    or empty token ends the iteration, the token that was just sent is an
    error, any other token is sent with the next request. *)
Inductive continuation : Type :=
| Stop
| Repeated (t : token)
| Next (t : token).

Definition after_page {A} (sent : option token) (pg : page A) : continuation :=
  match next_token pg with
  | None => Stop
  | Some t =>
      if String.eqb t "" then Stop
      else match sent with
           | Some s => if String.eqb s t then Repeated t else Next t
           | None => Next t
           end
  end.

(** [for page in paginator.paginate(...)]: a page is requested, the body
    runs on it, and the next page is requested with the token of the last
    one until a page carries none; a page that answers with the token it
    was requested with raises PaginationError after its body has run. *)
Fixpoint paginate (fuel : nat) (l : listing) (tok : option token)
    (body : page (item l) -> M unit) : M unit :=
  match fuel with
  | O => out_of_fuel
  | S fuel' =>
      pg <- call (List l tok) ;;
      body pg ;;
      match after_page tok pg with
      | Stop => ret tt
      | Repeated t => raise (PaginationError (same_token_message l t))
      | Next t => paginate fuel' l (Some t) body
      end
  end.

(** [xs[0]]. *)
Definition subscript0 {A} (xs : list A) : M A :=
  match xs with
  | x :: _ => ret x
  | [] => raise IndexError
  end.

(** [d[key]] on a key that may be absent. *)
Definition subscript {A} (v : option A) (key : string) : M A :=
  match v with
  | Some x => ret x
  | None => raise (KeyError key)
  end.

(** ** The procedures *)

Section Procedures.

Variable fuel : nat.

(** *** delete_all_stacks *)

Definition first_pass_status_filter : list string :=
  ["CREATE_COMPLETE"; "UPDATE_COMPLETE"; "ROLLBACK_COMPLETE"; "DELETE_FAILED"].

Definition general_pass_status_filter : list string :=
  ["CREATE_COMPLETE"; "UPDATE_COMPLETE"; "ROLLBACK_COMPLETE"].

Definition skipping_stack_line (stack_name region : string) : string :=
  "Skipping stack: " ++ stack_name ++ " in region " ++ region
    ++ " due to termination protection".

Definition deleting_stack_line (stack_name region : string) : string :=
  "Deleting stack: " ++ stack_name ++ " in region " ++ region.

Definition deleted_stack_line (stack_name region : string) : string :=
  "Deleted stack: " ++ stack_name ++ " in region " ++ region.

(** The block both passes run on a stack they selected (lines 32-44 and
    54-66 of the script are the same text). *)
Definition delete_unless_protected (region : string) (wait : bool)
    (stack_name : string) : M unit :=
  stack_details <- call (cfn_describe_stacks stack_name) ;;
  stack0 <- subscript0 stack_details ;;
  if EnableTerminationProtection stack0 then
    print (skipping_stack_line stack_name region)
  else
    print (deleting_stack_line stack_name region) ;;
    call (cfn_delete_stack stack_name) ;;
    if wait then
      call (cfn_wait_stack_delete_complete stack_name) ;;
      print (deleted_stack_line stack_name region)
    else ret tt.

Definition first_pass_selects (stack_name : string) : bool :=
  contains "AppPipe" stack_name || contains "AppIngestion" stack_name.

Definition general_pass_selects (stack_name : string) : bool :=
  negb (contains "AppPipe" stack_name).

Definition first_pass_stack (region : string) (wait : bool)
    (stack : StackSummary) : M unit :=
  let stack_name := StackName stack in
  if first_pass_selects stack_name
  then delete_unless_protected region wait stack_name
  else ret tt.

Definition general_pass_stack (region : string) (wait : bool)
    (stack : StackSummary) : M unit :=
  let stack_name := StackName stack in
  if general_pass_selects stack_name
  then delete_unless_protected region wait stack_name
  else ret tt.

Definition first_pass (region : string) (wait : bool) : M unit :=
  paginate fuel (cfn_list_stacks first_pass_status_filter) None
    (fun page => for_each (items page) (first_pass_stack region wait)).

Definition general_pass (region : string) (wait : bool) : M unit :=
  paginate fuel (cfn_list_stacks general_pass_status_filter) None
    (fun page => for_each (items page) (general_pass_stack region wait)).

Definition delete_all_stacks (region : string) (wait : bool) : M unit :=
  first_pass region wait ;;
  general_pass region wait.

(** *** delete_all_auto_scaling_groups *)

Definition delete_auto_scaling_group (region : string)
    (asg : AutoScalingGroup) : M unit :=
  let asg_name := AutoScalingGroupName asg in
  print ("Deleting Auto Scaling group: " ++ asg_name ++ " in region " ++ region) ;;
  call (autoscaling_delete_auto_scaling_group asg_name true) ;;
  print ("Deleted Auto Scaling group: " ++ asg_name ++ " in region " ++ region).

Definition delete_all_auto_scaling_groups (region : string) : M unit :=
  paginate fuel autoscaling_describe_auto_scaling_groups None
    (fun page => for_each (items page) (delete_auto_scaling_group region)).

(** *** delete_all_lambda_functions *)

Definition deleting_function_line (function_name region : string) : string :=
  "Deleting Lambda function: " ++ function_name ++ " in region " ++ region.

Definition deleted_function_line (function_name region : string) : string :=
  "Deleted Lambda function: " ++ function_name ++ " in region " ++ region.

Definition error_checking_line (e : exn) : string :=
  "Error checking function status: " ++ str e.

(** The [while True] loop of lines 129-138; [n] bounds its rounds. *)
Fixpoint poll_function_gone (n : nat) (region function_name : string) : M unit :=
  match n with
  | O => out_of_fuel
  | S n' =>
      r <- try_except (call (lambda_get_function function_name)) ;;
      match r with
      | Err (ResourceNotFoundException _) =>
          print (deleted_function_line function_name region)
      | Err e =>
          print (error_checking_line e)
      | Ok _ =>
          sleep 5 ;;
          poll_function_gone n' region function_name
      end
  end.

Definition delete_lambda_function (region : string)
    (function : FunctionConfiguration) : M unit :=
  let function_name := FunctionName function in
  print (deleting_function_line function_name region) ;;
  call (lambda_delete_function function_name) ;;
  poll_function_gone fuel region function_name.

Definition delete_all_lambda_functions (region : string) : M unit :=
  paginate fuel lambda_list_functions None
    (fun page => for_each (items page) (delete_lambda_function region)).

(** *** delete_all_opensearch_clusters *)

Definition delete_opensearch_cluster (region : string) (cluster : Domain) : M unit :=
  let domain_name := DomainName cluster in
  print ("Deleting OpenSearch cluster: " ++ domain_name ++ " in region " ++ region) ;;
  call (opensearch_delete_domain domain_name) ;;
  print ("Deleted OpenSearch cluster: " ++ domain_name ++ " in region " ++ region).

Definition delete_all_opensearch_clusters (region : string) : M unit :=
  clusters <- call opensearch_list_domain_names ;;
  for_each clusters (delete_opensearch_cluster region).

(** *** delete_all_eks_clusters *)

Definition deleting_node_group_line (node_group cluster_name : string) : string :=
  "Deleting node group: " ++ node_group ++ " in cluster: " ++ cluster_name.

Definition deleting_eks_cluster_line (cluster_name region : string) : string :=
  "Deleting EKS cluster: " ++ cluster_name ++ " in region " ++ region.

Definition delete_node_group (cluster_name node_group : string) : M unit :=
  print (deleting_node_group_line node_group cluster_name) ;;
  call (eks_delete_nodegroup cluster_name node_group) ;;
  call (eks_wait_nodegroup_deleted cluster_name node_group).

Definition delete_eks_cluster (region : string) (wait : bool)
    (cluster_name : string) : M unit :=
  node_groups <- call (List (eks_list_nodegroups cluster_name) None) ;;
  for_each (items node_groups) (delete_node_group cluster_name) ;;
  print (deleting_eks_cluster_line cluster_name region) ;;
  call (eks_delete_cluster cluster_name) ;;
  if wait then call (eks_wait_cluster_deleted cluster_name) else ret tt.

(** [client.list_clusters()['clusters']]: one request, the token of the
    answer is not read. *)
Definition delete_all_eks_clusters (region : string) (wait : bool) : M unit :=
  clusters <- call (List eks_list_clusters None) ;;
  for_each (items clusters) (delete_eks_cluster region wait).

(** *** delete_all_peering_connections *)

Definition route_matches (peering_connection_id : string) (route : Route) : bool :=
  match route_VpcPeeringConnectionId route with
  | Some v => String.eqb v peering_connection_id
  | None => false
  end.

Definition delete_matching_route (peering_connection_id : string)
    (route_table : RouteTable) (route : Route) : M unit :=
  if route_matches peering_connection_id route then
    cidr <- subscript (DestinationCidrBlock route) "DestinationCidrBlock" ;;
    call (ec2_delete_route (RouteTableId route_table) cidr) ;;
    print ("Deleted route: " ++ cidr ++ " in route table: " ++ RouteTableId route_table)
  else ret tt.

Definition delete_peering_connection (region : string)
    (peering_connection : VpcPeeringConnection) : M unit :=
  let peering_connection_id := VpcPeeringConnectionId peering_connection in
  print ("Deleting VPC peering connection: " ++ peering_connection_id
           ++ " in region " ++ region) ;;
  routes <- call (List (ec2_describe_route_tables peering_connection_id) None) ;;
  for_each (items routes) (fun route_table =>
    for_each (Routes route_table)
      (delete_matching_route peering_connection_id route_table)) ;;
  call (ec2_delete_vpc_peering_connection peering_connection_id) ;;
  print ("Deleted VPC peering connection: " ++ peering_connection_id
           ++ " in region " ++ region).

Definition delete_all_peering_connections (region : string) : M unit :=
  response <- call (List ec2_describe_vpc_peering_connections None) ;;
  for_each (items response) (delete_peering_connection region).

(** *** delete_all_kinesis_streams *)

Definition delete_data_stream (region stream_name : string) : M unit :=
  print ("Deleting Kinesis data stream: " ++ stream_name ++ " in region " ++ region) ;;
  call (kinesis_delete_stream stream_name true).

Definition delete_firehose_stream (region stream_name : string) : M unit :=
  print ("Deleting Kinesis Firehose delivery stream: " ++ stream_name
           ++ " in region " ++ region) ;;
  call (firehose_delete_delivery_stream stream_name).

Definition delete_all_kinesis_streams (region : string) : M unit :=
  data_streams <- call (List kinesis_list_streams None) ;;
  for_each (items data_streams) (delete_data_stream region) ;;
  firehose_streams <- call (List firehose_list_delivery_streams None) ;;
  for_each (items firehose_streams) (delete_firehose_stream region).

(** *** terminate_all_ec2_instances *)

Definition terminate_instance (region : string) (wait : bool)
    (instance : Instance) : M unit :=
  let instance_id := InstanceId instance in
  print ("Terminating EC2 instance: " ++ instance_id ++ " in region " ++ region) ;;
  call (ec2_terminate_instances [instance_id]) ;;
  if wait then
    call (ec2_wait_instance_terminated [instance_id]) ;;
    print ("Terminated EC2 instance: " ++ instance_id ++ " in region " ++ region)
  else ret tt.

Definition terminate_all_ec2_instances (region : string) (wait : bool) : M unit :=
  paginate fuel ec2_describe_instances None
    (fun page =>
       for_each (items page) (fun reservation =>
         for_each (Instances reservation) (terminate_instance region wait))).

(** *** delete_all_ecs_clusters *)

Definition deleting_service_line (service_arn cluster_arn region : string) : string :=
  "Deleting service: " ++ service_arn ++ " in cluster: " ++ cluster_arn
    ++ " in region " ++ region.

Definition deleted_service_line (service_arn cluster_arn region : string) : string :=
  "Deleted service: " ++ service_arn ++ " in cluster: " ++ cluster_arn
    ++ " in region " ++ region.

Definition stopping_task_line (task_arn cluster_arn region : string) : string :=
  "Stopping task: " ++ task_arn ++ " in cluster: " ++ cluster_arn
    ++ " in region " ++ region.

Definition stopped_task_line (task_arn cluster_arn region : string) : string :=
  "Stopped task: " ++ task_arn ++ " in cluster: " ++ cluster_arn
    ++ " in region " ++ region.

Definition deleting_ecs_cluster_line (cluster_arn region : string) : string :=
  "Deleting ECS cluster: " ++ cluster_arn ++ " in region " ++ region.

Definition deleted_ecs_cluster_line (cluster_arn region : string) : string :=
  "Deleted ECS cluster: " ++ cluster_arn ++ " in region " ++ region.

Definition delete_ecs_service (region : string) (wait : bool)
    (cluster_arn service_arn : string) : M unit :=
  print (deleting_service_line service_arn cluster_arn region) ;;
  call (ecs_update_service cluster_arn service_arn 0) ;;
  call (ecs_delete_service cluster_arn service_arn true) ;;
  if wait then
    call (ecs_wait_services_inactive cluster_arn [service_arn]) ;;
    print (deleted_service_line service_arn cluster_arn region)
  else ret tt.

Definition stop_ecs_task (region : string) (wait : bool)
    (cluster_arn task_arn : string) : M unit :=
  print (stopping_task_line task_arn cluster_arn region) ;;
  call (ecs_stop_task cluster_arn task_arn) ;;
  if wait then
    call (ecs_wait_tasks_stopped cluster_arn [task_arn]) ;;
    print (stopped_task_line task_arn cluster_arn region)
  else ret tt.

(** The waiters of the ECS client.  [client.get_waiter(name)] on any other
    name raises ValueError before anything is awaited; on a name the client
    has it returns the waiter without a request, which is why the other
    procedures go straight to the waiter's request. *)
Definition ecs_waiter_names : list string :=
  ["services_inactive"; "services_stable"; "tasks_running"; "tasks_stopped"].

Definition get_waiter (names : list string) (waiter_name : string) : M unit :=
  if existsb (String.eqb waiter_name) names then ret tt
  else raise (ValueError ("Waiter does not exist: " ++ waiter_name)).

Definition delete_ecs_cluster (region : string) (wait : bool)
    (cluster_arn : string) : M unit :=
  paginate fuel (ecs_list_services cluster_arn) None
    (fun service_page =>
       for_each (items service_page) (delete_ecs_service region wait cluster_arn)) ;;
  paginate fuel (ecs_list_tasks cluster_arn) None
    (fun task_page =>
       for_each (items task_page) (stop_ecs_task region wait cluster_arn)) ;;
  print (deleting_ecs_cluster_line cluster_arn region) ;;
  call (ecs_delete_cluster cluster_arn) ;;
  if wait then
    get_waiter ecs_waiter_names "cluster_deleted" ;;
    call (ecs_wait_cluster_deleted [cluster_arn]) ;;
    print (deleted_ecs_cluster_line cluster_arn region)
  else ret tt.

Definition delete_all_ecs_clusters (region : string) (wait : bool) : M unit :=
  paginate fuel ecs_list_clusters None
    (fun page => for_each (items page) (delete_ecs_cluster region wait)).

(** *** The driver, lines 360-375 *)

Definition main : M unit :=
  let region := "cn-north-1" in
  delete_all_auto_scaling_groups region ;;
  delete_all_ecs_clusters region true ;;
  terminate_all_ec2_instances region false ;;
  delete_all_lambda_functions region ;;
  delete_all_peering_connections region ;;
  delete_all_opensearch_clusters region ;;
  delete_all_kinesis_streams region ;;
  delete_all_eks_clusters region false ;;
  delete_all_stacks region false.

End Procedures.

(** ** Reading a run *)

Definition emitted {A} (m : M A) (env : client) (h : trace) : trace :=
  fst (m env h).

Definition ending {A} (m : M A) (env : client) (h : trace) : outcome A :=
  snd (m env h).

(** A listing request answered with a page. *)
Definition listed (l : listing) (tok : option token) (pg : page (item l)) : event :=
  Called (List l tok) (Ok pg).

Definition no_page {A} : page A := mkPage [] None.

(** The requests of a trace, in order. *)
Fixpoint requests (t : trace) : list request :=
  match t with
  | [] => []
  | Called r _ :: rest => r :: requests rest
  | _ :: rest => requests rest
  end.

(** ** A region with nothing in it *)

Definition env_empty : client :=
  fun _ r =>
    match r as r0 return result (response r0) with
    | List _ _ => Ok no_page
    | cfn_describe_stacks _ => Ok []
    | opensearch_list_domain_names => Ok []
    | _ => Ok tt
    end.

(** ** Properties of all the events a procedure emits *)

(** [holds env P m]: whatever the history, the events [m] emits against
    [env] satisfy [P]. *)
Definition holds (env : client) (P : trace -> Prop) {A} (m : M A) : Prop :=
  forall h, P (emitted m env h).

(** ** The driver's order *)

Inductive procedure : Type :=
| AutoScalingGroups
| EcsClusters
| Ec2Instances
| LambdaFunctions
| PeeringConnections
| OpenSearchClusters
| KinesisStreams
| EksClusters
| Stacks.

(** The procedure of the script that issues a request. *)
Definition owner (r : request) : procedure :=
  match r with
  | List (cfn_list_stacks _) _ => Stacks
  | List autoscaling_describe_auto_scaling_groups _ => AutoScalingGroups
  | List lambda_list_functions _ => LambdaFunctions
  | List eks_list_clusters _ => EksClusters
  | List (eks_list_nodegroups _) _ => EksClusters
  | List ec2_describe_vpc_peering_connections _ => PeeringConnections
  | List (ec2_describe_route_tables _) _ => PeeringConnections
  | List kinesis_list_streams _ => KinesisStreams
  | List firehose_list_delivery_streams _ => KinesisStreams
  | List ec2_describe_instances _ => Ec2Instances
  | List ecs_list_clusters _ => EcsClusters
  | List (ecs_list_services _) _ => EcsClusters
  | List (ecs_list_tasks _) _ => EcsClusters
  | cfn_describe_stacks _ => Stacks
  | cfn_delete_stack _ => Stacks
  | cfn_wait_stack_delete_complete _ => Stacks
  | autoscaling_delete_auto_scaling_group _ _ => AutoScalingGroups
  | lambda_delete_function _ => LambdaFunctions
  | lambda_get_function _ => LambdaFunctions
  | opensearch_list_domain_names => OpenSearchClusters
  | opensearch_delete_domain _ => OpenSearchClusters
  | eks_delete_nodegroup _ _ => EksClusters
  | eks_wait_nodegroup_deleted _ _ => EksClusters
  | eks_delete_cluster _ => EksClusters
  | eks_wait_cluster_deleted _ => EksClusters
  | ec2_delete_route _ _ => PeeringConnections
  | ec2_delete_vpc_peering_connection _ => PeeringConnections
  | kinesis_delete_stream _ _ => KinesisStreams
  | firehose_delete_delivery_stream _ => KinesisStreams
  | ec2_terminate_instances _ => Ec2Instances
  | ec2_wait_instance_terminated _ => Ec2Instances
  | ecs_update_service _ _ _ => EcsClusters
  | ecs_delete_service _ _ _ => EcsClusters
  | ecs_wait_services_inactive _ _ => EcsClusters
  | ecs_stop_task _ _ => EcsClusters
  | ecs_wait_tasks_stopped _ _ => EcsClusters
  | ecs_delete_cluster _ => EcsClusters
  | ecs_wait_cluster_deleted _ => EcsClusters
  end.

(** The place the specification gives each procedure in the run. *)
Definition position (p : procedure) : nat :=
  match p with
  | AutoScalingGroups => 1
  | EcsClusters => 2
  | Ec2Instances => 3
  | LambdaFunctions => 4
  | PeeringConnections => 5
  | OpenSearchClusters => 6
  | KinesisStreams => 7
  | EksClusters => 8
  | Stacks => 9
  end.

Definition not_after (r1 r2 : request) : Prop :=
  position (owner r1) <= position (owner r2).

(** The waiters the driver switches off with [wait=False]. *)
Definition disabled_waiter (r : request) : bool :=
  match r with
  | ec2_wait_instance_terminated _ => true
  | cfn_wait_stack_delete_complete _ => true
  | _ => false
  end.

(** Every request of the trace satisfies [Q]. *)
Definition all_requests (Q : request -> Prop) (t : trace) : Prop :=
  Forall Q (requests t).

(** What a procedure run with flag [wait] may request: its own operations,
    and a waiter of stack deletion or instance termination only when
    [wait] is set. *)
Definition issued_by (p : procedure) (wait : bool) (r : request) : Prop :=
  owner r = p /\ (disabled_waiter r = true -> wait = true).

Definition procedure_eqb (p q : procedure) : bool :=
  Nat.eqb (position p) (position q).

(** One entry for each run of consecutive equal entries. *)
Fixpoint compress (ps : list procedure) : list procedure :=
  match ps with
  | [] => []
  | p :: rest =>
      match rest with
      | [] => [p]
      | q :: _ => if procedure_eqb p q then compress rest else p :: compress rest
      end
  end.

(** The procedures a trace passes through, in order: the owner of each
    request, consecutive repetitions dropped. *)
Definition procedures_run (t : trace) : list procedure :=
  compress (map owner (requests t)).

Definition driver_order : list procedure :=
  [AutoScalingGroups; EcsClusters; Ec2Instances; LambdaFunctions;
   PeeringConnections; OpenSearchClusters; KinesisStreams; EksClusters; Stacks].

(** Requests in non-decreasing position, none before position [k]. *)
Definition ordered_from (k : nat) (t : trace) : Prop :=
  StronglySorted not_after (requests t) /\
  Forall (fun r => k <= position (owner r)) (requests t).

(** A list that does not begin with [p]. *)
Definition begins_elsewhere (p : procedure) (ps : list procedure) : Prop :=
  match ps with
  | [] => True
  | q :: _ => procedure_eqb p q = false
  end.

(** A procedure that cannot return without having requested something. *)
Definition begins (m : M unit) : Prop :=
  forall env h, ending m env h = Done tt ->
                exists r rs, requests (emitted m env h) = r :: rs.

(** ** Polling a Lambda function *)

(** One round of the loop that found the function still there. *)
Definition still_there (function_name : string) : trace :=
  [Called (lambda_get_function function_name) (Ok tt); Slept 5].

Fixpoint rounds (k : nat) (function_name : string) : trace :=
  match k with
  | O => []
  | S k' => still_there function_name ++ rounds k' function_name
  end.

(** The line printed by the handler that ends the loop. *)
Definition last_poll_line (region function_name : string) (e : exn) : string :=
  match e with
  | ResourceNotFoundException _ => deleted_function_line function_name region
  | _ => error_checking_line e
  end.

(** What the script emits for one function that is found [k] times and
    whose next poll raises [e]. *)
Definition function_block (region function_name : string) (k : nat) (e : exn) : trace :=
  [Logged (deleting_function_line function_name region);
   Called (lambda_delete_function function_name) (Ok tt)]
  ++ rounds k function_name
  ++ [Called (lambda_get_function function_name) (Err e);
      Logged (last_poll_line region function_name e)].

Fixpoint slept (t : trace) : nat :=
  match t with
  | [] => 0
  | Slept _ :: rest => S (slept rest)
  | _ :: rest => slept rest
  end.

(** A region with the functions [names], where get_function succeeds until
    the script has slept [k] times and raises [e] from then on. *)
Definition env_lambda (names : list string) (k : nat) (e : exn) : client :=
  fun h r =>
    match r as r0 return result (response r0) with
    | List l _ =>
        match l as l0 return result (page (item l0)) with
        | lambda_list_functions => Ok (mkPage (map mkFunction names) None)
        | _ => Ok no_page
        end
    | cfn_describe_stacks _ => Ok []
    | opensearch_list_domain_names => Ok []
    | lambda_get_function _ => if Nat.ltb (slept h) k then Ok tt else Err e
    | _ => Ok tt
    end.

Definition gone : exn := ResourceNotFoundException "Function not found".

(** ** Routes of a peering connection *)

Definition no_route_matches (peering_connection_id : string) (routes : list Route) : Prop :=
  Forall (fun route => route_matches peering_connection_id route = false) routes.

Definition deleting_peering_line (peering_connection_id region : string) : string :=
  "Deleting VPC peering connection: " ++ peering_connection_id ++ " in region " ++ region.

(** A region with one peering connection [pcx-1] and one route table whose
    only route goes through it and has an IPv6 destination, so that the
    record has no DestinationCidrBlock key. *)
Definition ipv6_route : Route := mkRoute (Some "pcx-1") None.

Definition env_ipv6_route : client :=
  fun h r =>
    match r as r0 return result (response r0) with
    | List l _ =>
        match l as l0 return result (page (item l0)) with
        | ec2_describe_vpc_peering_connections =>
            Ok (mkPage [mkVpcPeeringConnection "pcx-1"] None)
        | ec2_describe_route_tables _ =>
            Ok (mkPage [mkRouteTable "rtb-1" [ipv6_route]] None)
        | _ => Ok no_page
        end
    | cfn_describe_stacks _ => Ok []
    | opensearch_list_domain_names => Ok []
    | _ => Ok tt
    end.

(** ** Statements about the place of a request in a trace *)

Definition request_of (e : event) : option request :=
  match e with
  | Called r _ => Some r
  | _ => None
  end.

(** [preceded good t]: wherever a request [r] occurs in [t], the events
    before it satisfy [good _ r]. *)
Definition preceded (good : trace -> request -> Prop) (t : trace) : Prop :=
  forall before e after r,
    t = before ++ e :: after -> request_of e = Some r -> good before r.

(** A request on which [good] puts no condition. *)
Definition unconstrained (good : trace -> request -> Prop) (r : request) : Prop :=
  forall before, good before r.

(** [good] looks at the end of the events before the request only. *)
Definition looks_back (good : trace -> request -> Prop) : Prop :=
  forall earlier before r, good before r -> good (earlier ++ before) r.

(** ** Node groups before their cluster *)

(** The events of a node group whose deletion was requested and then
    confirmed by the nodegroup_deleted waiter. *)
Definition node_group_cleared (cluster_name node_group : string) : trace :=
  [Logged (deleting_node_group_line node_group cluster_name);
   Called (eks_delete_nodegroup cluster_name node_group) (Ok tt);
   Called (eks_wait_nodegroup_deleted cluster_name node_group) (Ok tt)].

(** The events before a delete_cluster request end with the listing of the
    node groups of the cluster, the deletion and the completed wait of each
    of them, in order, and the line announcing the deletion of the cluster. *)
Definition node_groups_cleared (region cluster_name : string) (before : trace) : Prop :=
  exists earlier node_groups,
    before = earlier
               ++ listed (eks_list_nodegroups cluster_name) None node_groups
               :: flat_map (node_group_cleared cluster_name) (items node_groups)
               ++ [Logged (deleting_eks_cluster_line cluster_name region)].

Definition eks_cluster_last (region : string) (before : trace) (r : request) : Prop :=
  forall cluster_name,
    r = eks_delete_cluster cluster_name -> node_groups_cleared region cluster_name before.

(** [body x], when it returns, has emitted [block x]. *)
Definition uniform {A} (body : A -> M unit) (block : A -> trace) : Prop :=
  forall x env h, ending (body x) env h = Done tt -> emitted (body x) env h = block x.

(** One EKS cluster on each of two pages of list_clusters, each cluster
    with two node groups. *)
Definition env_eks : client :=
  fun h r =>
    match r as r0 return result (response r0) with
    | List l tok =>
        match l as l0 return result (page (item l0)) with
        | eks_list_clusters =>
            match tok with
            | None => Ok (mkPage ["c1"] (Some "page-2"))
            | Some _ => Ok (mkPage ["c2"] None)
            end
        | eks_list_nodegroups _ => Ok (mkPage ["ng-a"; "ng-b"] None)
        | _ => Ok no_page
        end
    | cfn_describe_stacks _ => Ok []
    | opensearch_list_domain_names => Ok []
    | _ => Ok tt
    end.

(** ** Services and tasks before their ECS cluster *)

Definition service_cleared (region : string) (wait : bool)
    (cluster_arn service_arn : string) : trace :=
  [Logged (deleting_service_line service_arn cluster_arn region);
   Called (ecs_update_service cluster_arn service_arn 0) (Ok tt);
   Called (ecs_delete_service cluster_arn service_arn true) (Ok tt)]
  ++ (if wait
      then [Called (ecs_wait_services_inactive cluster_arn [service_arn]) (Ok tt);
            Logged (deleted_service_line service_arn cluster_arn region)]
      else []).

Definition task_cleared (region : string) (wait : bool)
    (cluster_arn task_arn : string) : trace :=
  [Logged (stopping_task_line task_arn cluster_arn region);
   Called (ecs_stop_task cluster_arn task_arn) (Ok tt)]
  ++ (if wait
      then [Called (ecs_wait_tasks_stopped cluster_arn [task_arn]) (Ok tt);
            Logged (stopped_task_line task_arn cluster_arn region)]
      else []).

(** The trace of a paginated loop that went through all the pages: every
    page is requested with the token of the one before, and every record
    [x] of a page is followed by the events [block x]. *)
Inductive all_pages (l : listing) (block : item l -> trace) :
    option token -> trace -> Prop :=
| last_page tok pg :
    after_page tok pg = Stop ->
    all_pages l block tok (listed l tok pg :: flat_map block (items pg))
| next_page tok pg tok' t :
    after_page tok pg = Next tok' ->
    all_pages l block (Some tok') t ->
    all_pages l block tok (listed l tok pg :: flat_map block (items pg) ++ t).

(** The events before a delete_cluster request of ECS end with a full
    listing of the services of the cluster, each followed by its
    [service_cleared] events, a full listing of its tasks, each followed by
    its [task_cleared] events, and the line announcing the deletion. *)
Definition ecs_cluster_emptied (region : string) (wait : bool)
    (cluster_arn : string) (before : trace) : Prop :=
  exists earlier services tasks,
    before = earlier ++ services ++ tasks
               ++ [Logged (deleting_ecs_cluster_line cluster_arn region)] /\
    all_pages (ecs_list_services cluster_arn)
      (service_cleared region wait cluster_arn) None services /\
    all_pages (ecs_list_tasks cluster_arn)
      (task_cleared region wait cluster_arn) None tasks.

Definition ecs_cluster_last (region : string) (wait : bool)
    (before : trace) (r : request) : Prop :=
  forall cluster_arn,
    r = ecs_delete_cluster cluster_arn -> ecs_cluster_emptied region wait cluster_arn before.

(** The property as the specification words it: at every delete_cluster
    request, every service listed for the cluster has been seen inactive and
    every task listed for it has been seen stopped. *)
Definition ecs_nothing_left (t : trace) : Prop :=
  forall before cluster_arn a after,
    t = before ++ Called (ecs_delete_cluster cluster_arn) a :: after ->
    (forall tok pg service_arn,
        In (listed (ecs_list_services cluster_arn) tok pg) before ->
        In service_arn (items pg) ->
        In (Called (ecs_wait_services_inactive cluster_arn [service_arn]) (Ok tt)) before) /\
    (forall tok pg task_arn,
        In (listed (ecs_list_tasks cluster_arn) tok pg) before ->
        In task_arn (items pg) ->
        In (Called (ecs_wait_tasks_stopped cluster_arn [task_arn]) (Ok tt)) before).

(** One ECS cluster with one service and one task. *)
Definition env_ecs : client :=
  fun h r =>
    match r as r0 return result (response r0) with
    | List l tok =>
        match l as l0 return result (page (item l0)) with
        | ecs_list_clusters => Ok (mkPage ["cluster-1"] None)
        | ecs_list_services _ => Ok (mkPage ["service-1"] None)
        | ecs_list_tasks _ => Ok (mkPage ["task-1"] None)
        | _ => Ok no_page
        end
    | cfn_describe_stacks _ => Ok []
    | opensearch_list_domain_names => Ok []
    | _ => Ok tt
    end.

(** What [env_ecs] has seen when delete_cluster is requested, with and
    without waiting. *)
Definition ecs_before_delete (wait : bool) : trace :=
  listed ecs_list_clusters None (mkPage ["cluster-1"] None)
  :: listed (ecs_list_services "cluster-1") None (mkPage ["service-1"] None)
  :: service_cleared "cn-north-1" wait "cluster-1" "service-1"
  ++ listed (ecs_list_tasks "cluster-1") None (mkPage ["task-1"] None)
  :: task_cleared "cn-north-1" wait "cluster-1" "task-1"
  ++ [Logged (deleting_ecs_cluster_line "cluster-1" "cn-north-1")].

(** ** Termination protection *)

(** describe_stacks never reports the stack without termination
    protection. *)
Definition protected_throughout (env : client) (stack_name : string) : Prop :=
  forall h stack others,
    env h (cfn_describe_stacks stack_name) = Ok (stack :: others) ->
    EnableTerminationProtection stack = true.

(** A request that is not the deletion of the stack. *)
Definition spares (stack_name : string) (r : request) : Prop :=
  r <> cfn_delete_stack stack_name.

(** [followed good t]: wherever an event [e] occurs in [t], the events
    after it satisfy [good e _]. *)
Definition followed (good : event -> trace -> Prop) (t : trace) : Prop :=
  forall before e after, t = before ++ e :: after -> good e after.

(** [good] looks at the beginning of the events after [e] only. *)
Definition looks_ahead (good : event -> trace -> Prop) : Prop :=
  forall e after later, good e after -> good e (after ++ later).

(** After describe_stacks has reported the stack protected, the script
    prints that it skips the stack. *)
Definition skip_follows (region : string) (e : event) (after : trace) : Prop :=
  forall stack_name stack others,
    e = Called (cfn_describe_stacks stack_name) (Ok (stack :: others)) ->
    EnableTerminationProtection stack = true ->
    exists later, after = Logged (skipping_stack_line stack_name region) :: later.

(** A region with three stacks, as in the scenario of the specification;
    [other-infra] has termination protection. *)
Definition three_stacks : list StackSummary :=
  [mkStackSummary "AppPipe-prod" "CREATE_COMPLETE";
   mkStackSummary "other-infra" "CREATE_COMPLETE";
   mkStackSummary "other-app" "CREATE_COMPLETE"].

Definition env_three_stacks : client :=
  fun h r =>
    match r as r0 return result (response r0) with
    | List l tok =>
        match l as l0 return result (page (item l0)) with
        | cfn_list_stacks _ => Ok (mkPage three_stacks None)
        | _ => Ok no_page
        end
    | cfn_describe_stacks stack_name =>
        Ok [mkStack (String.eqb stack_name "other-infra")]
    | opensearch_list_domain_names => Ok []
    | _ => Ok tt
    end.

(** ** Status filters of the two passes *)

(** list_stacks answers with stacks whose status is in the filter. *)
Definition honours_status_filter (env : client) : Prop :=
  forall h f tok (pg : page StackSummary),
    env h (List (cfn_list_stacks f) tok) = Ok pg ->
    Forall (fun stack => In (StackStatus stack) f) (items pg).

(** The listing requests of a trace all carry the status filter [f]. *)
Definition lists_with (f : list string) (t : trace) : Prop :=
  all_requests (fun r => forall f' tok, r = List (cfn_list_stacks f') tok -> f' = f) t.

(** A delete_stack request of a pass that lists with filter [f] and
    selects names with [selects] is for a stack of a page listed before
    with that filter, whose name the pass selects. *)
Definition deleted_by_pass (f : list string) (selects : string -> bool)
    (before : trace) (r : request) : Prop :=
  forall stack_name,
    r = cfn_delete_stack stack_name ->
    exists tok pg stack,
      In (listed (cfn_list_stacks f) tok pg) before /\
      In stack (items pg) /\
      StackName stack = stack_name /\
      In (StackStatus stack) f /\
      selects stack_name = true.

(** The same for the whole procedure; a stack that was listed in status
    DELETE_FAILED can only have been listed and selected by the first pass. *)
Definition deleted_by_some_pass (before : trace) (r : request) : Prop :=
  forall stack_name,
    r = cfn_delete_stack stack_name ->
    exists f tok pg stack,
      In (listed (cfn_list_stacks f) tok pg) before /\
      In stack (items pg) /\
      StackName stack = stack_name /\
      In (StackStatus stack) f /\
      (f = first_pass_status_filter /\ first_pass_selects stack_name = true \/
       f = general_pass_status_filter /\ general_pass_selects stack_name = true) /\
      (StackStatus stack = "DELETE_FAILED" ->
       f = first_pass_status_filter /\ first_pass_selects stack_name = true).

(** A region whose stacks are [inventory]; list_stacks filters them by
    status, none has termination protection. *)
Definition env_inventory (inventory : list StackSummary) : client :=
  fun h r =>
    match r as r0 return result (response r0) with
    | List l tok =>
        match l as l0 return result (page (item l0)) with
        | cfn_list_stacks f =>
            Ok (mkPage
                  (filter (fun stack => existsb (String.eqb (StackStatus stack)) f)
                          inventory)
                  None)
        | _ => Ok no_page
        end
    | cfn_describe_stacks _ => Ok [mkStack false]
    | opensearch_list_domain_names => Ok []
    | _ => Ok tt
    end.

Definition failed_inventory : list StackSummary :=
  [mkStackSummary "AppPipe-old" "DELETE_FAILED";
   mkStackSummary "legacy" "DELETE_FAILED";
   mkStackSummary "other-app" "CREATE_COMPLETE"].

(** ** The name tests of the two passes *)

(** A region with one stack named after the ingestion convention, with
    termination protection. *)
Definition ingestion_stack : StackSummary :=
  mkStackSummary "AppIngestion-prod" "CREATE_COMPLETE".

Definition env_ingestion : client :=
  fun h r =>
    match r as r0 return result (response r0) with
    | List l tok =>
        match l as l0 return result (page (item l0)) with
        | cfn_list_stacks _ => Ok (mkPage [ingestion_stack] None)
        | _ => Ok no_page
        end
    | cfn_describe_stacks _ => Ok [mkStack true]
    | opensearch_list_domain_names => Ok []
    | _ => Ok tt
    end.

(** ** Listings read without a paginator *)

Definition auto_scaling_group_deleted (region : string) (asg : AutoScalingGroup) : trace :=
  [Logged ("Deleting Auto Scaling group: " ++ AutoScalingGroupName asg
             ++ " in region " ++ region);
   Called (autoscaling_delete_auto_scaling_group (AutoScalingGroupName asg) true) (Ok tt);
   Logged ("Deleted Auto Scaling group: " ++ AutoScalingGroupName asg
             ++ " in region " ++ region)].

(** ** How a run ends *)

(** The ending of a run without the value returned. *)
Definition fate {A} (o : outcome A) : outcome unit :=
  match o with
  | Done _ => Done tt
  | Raised e => Raised e
  | OutOfFuel => OutOfFuel
  end.

(** [ends env R m]: whatever the history, the events [m] emits against
    [env] and the way it ends satisfy [R]. *)
Definition ends (env : client) (R : trace -> outcome unit -> Prop) {A} (m : M A) : Prop :=
  forall h, R (emitted m env h) (fate (ending m env h)).

(** The only request made inside a [try]: the poll of the Lambda
    teardown, lines 130-137. *)
Definition caught (r : request) : bool :=
  match r with
  | lambda_get_function _ => true
  | _ => false
  end.

(** A faulted request outside a [try] is the last event and the run ends
    with its exception. *)
Definition fault_is_last (t : trace) (o : outcome unit) : Prop :=
  forall before r e after,
    t = before ++ Called r (Err e) :: after ->
    caught r = false ->
    after = [] /\ o = Raised e.

(** The procedure of the script that [p] names, called on [region]; [wait]
    goes to the procedures that take the flag. *)
Definition run_procedure (fuel : nat) (region : string) (wait : bool)
    (p : procedure) : M unit :=
  match p with
  | AutoScalingGroups => delete_all_auto_scaling_groups fuel region
  | EcsClusters => delete_all_ecs_clusters fuel region wait
  | Ec2Instances => terminate_all_ec2_instances fuel region wait
  | LambdaFunctions => delete_all_lambda_functions fuel region
  | PeeringConnections => delete_all_peering_connections region
  | OpenSearchClusters => delete_all_opensearch_clusters region
  | KinesisStreams => delete_all_kinesis_streams region
  | EksClusters => delete_all_eks_clusters region wait
  | Stacks => delete_all_stacks fuel region wait
  end.

(** Two Auto Scaling groups on two pages; deleting the first is refused. *)
Definition access_denied : exn := ClientError "AccessDenied".

Definition env_asg (refuse : bool) : client :=
  fun h r =>
    match r as r0 return result (response r0) with
    | List l tok =>
        match l as l0 return result (page (item l0)) with
        | autoscaling_describe_auto_scaling_groups =>
            match tok with
            | None => Ok (mkPage [mkAutoScalingGroup "asg-1"] (Some "page-2"))
            | Some _ => Ok (mkPage [mkAutoScalingGroup "asg-2"] None)
            end
        | _ => Ok no_page
        end
    | cfn_describe_stacks _ => Ok []
    | opensearch_list_domain_names => Ok []
    | autoscaling_delete_auto_scaling_group _ _ =>
        if refuse then Err access_denied else Ok tt
    | _ => Ok tt
    end.

(** The driver, or one of its procedures called on its own. *)
Definition entry_point (fuel : nat) (m : M unit) : Prop :=
  m = main fuel \/ exists region wait p, m = run_procedure fuel region wait p.

(** ** What a run that returns has done *)

Definition instance_terminated (region : string) (wait : bool) (instance : Instance) : trace :=
  [Logged ("Terminating EC2 instance: " ++ InstanceId instance ++ " in region " ++ region);
   Called (ec2_terminate_instances [InstanceId instance]) (Ok tt)]
  ++ (if wait
      then [Called (ec2_wait_instance_terminated [InstanceId instance]) (Ok tt);
            Logged ("Terminated EC2 instance: " ++ InstanceId instance
                      ++ " in region " ++ region)]
      else []).

Definition reservation_terminated (region : string) (wait : bool)
    (reservation : Reservation) : trace :=
  flat_map (instance_terminated region wait) (Instances reservation).

Definition domain_deleted (region : string) (cluster : Domain) : trace :=
  [Logged ("Deleting OpenSearch cluster: " ++ DomainName cluster ++ " in region " ++ region);
   Called (opensearch_delete_domain (DomainName cluster)) (Ok tt);
   Logged ("Deleted OpenSearch cluster: " ++ DomainName cluster ++ " in region " ++ region)].

Definition data_stream_deleted (region stream_name : string) : trace :=
  [Logged ("Deleting Kinesis data stream: " ++ stream_name ++ " in region " ++ region);
   Called (kinesis_delete_stream stream_name true) (Ok tt)].

Definition firehose_stream_deleted (region stream_name : string) : trace :=
  [Logged ("Deleting Kinesis Firehose delivery stream: " ++ stream_name
             ++ " in region " ++ region);
   Called (firehose_delete_delivery_stream stream_name) (Ok tt)].

(** A region with three instances in two reservations, two OpenSearch
    domains, two data streams and one delivery stream. *)
Definition env_mixed : client :=
  fun h r =>
    match r as r0 return result (response r0) with
    | List l tok =>
        match l as l0 return result (page (item l0)) with
        | ec2_describe_instances =>
            Ok (mkPage [mkReservation [mkInstance "i-1"; mkInstance "i-2"];
                        mkReservation [mkInstance "i-3"]] None)
        | kinesis_list_streams => Ok (mkPage ["clicks"; "orders"] None)
        | firehose_list_delivery_streams => Ok (mkPage ["to-s3"] None)
        | _ => Ok no_page
        end
    | cfn_describe_stacks _ => Ok []
    | opensearch_list_domain_names => Ok [mkDomain "logs"; mkDomain "search"]
    | _ => Ok tt
    end.

(** ** What the script never requests *)

(** The stack a CloudFormation request is about. *)
Definition stack_target (r : request) : option string :=
  match r with
  | cfn_describe_stacks stack_name => Some stack_name
  | cfn_delete_stack stack_name => Some stack_name
  | cfn_wait_stack_delete_complete stack_name => Some stack_name
  | _ => None
  end.

Definition targets_only (selects : string -> bool) (r : request) : Prop :=
  forall stack_name, stack_target r = Some stack_name -> selects stack_name = true.

(** The listings the script iterates with a paginator. *)
Definition paginated (l : listing) : bool :=
  match l with
  | cfn_list_stacks _ => true
  | autoscaling_describe_auto_scaling_groups => true
  | lambda_list_functions => true
  | ec2_describe_instances => true
  | ecs_list_clusters => true
  | ecs_list_services _ => true
  | ecs_list_tasks _ => true
  | _ => false
  end.

Definition first_page_only (r : request) : Prop :=
  forall l tok, r = List l tok -> paginated l = false -> tok = None.

(** The arguments the script fixes: deletions are forced, services are
    scaled to zero, instances, services, tasks and clusters are passed to
    terminate_instances and to the waiters one at a time. *)
Definition fixed_arguments (r : request) : Prop :=
  match r with
  | autoscaling_delete_auto_scaling_group _ ForceDelete => ForceDelete = true
  | kinesis_delete_stream _ EnforceConsumerDeletion => EnforceConsumerDeletion = true
  | ecs_update_service _ _ desiredCount => desiredCount = 0%Z
  | ecs_delete_service _ _ force => force = true
  | ec2_terminate_instances InstanceIds => List.length InstanceIds = 1
  | ec2_wait_instance_terminated InstanceIds => List.length InstanceIds = 1
  | ecs_wait_services_inactive _ services => List.length services = 1
  | ecs_wait_tasks_stopped _ tasks => List.length tasks = 1
  | ecs_wait_cluster_deleted clusters => List.length clusters = 1
  | _ => True
  end.

(** A region with two Lambda functions that never go away. *)
Definition env_lambda_stuck : client :=
  fun h r =>
    match r as r0 return result (response r0) with
    | List l tok =>
        match l as l0 return result (page (item l0)) with
        | lambda_list_functions => Ok (mkPage [mkFunction "f1"; mkFunction "f2"] None)
        | _ => Ok no_page
        end
    | cfn_describe_stacks _ => Ok []
    | opensearch_list_domain_names => Ok []
    | _ => Ok tt
    end.

(** ** Substrings *)

Definition substring_of (needle hay : string) : Prop :=
  exists before after, hay = (before ++ needle ++ after)%string.

(** ** An empty answer of describe_stacks *)

Definition not_selected (selects : string -> bool) (stacks : list StackSummary) : Prop :=
  Forall (fun stack => selects (StackName stack) = false) stacks.

(** A region whose only stack is listed but unknown to describe_stacks. *)
Definition env_vanished_stack : client :=
  fun h r =>
    match r as r0 return result (response r0) with
    | List l tok =>
        match l as l0 return result (page (item l0)) with
        | cfn_list_stacks _ => Ok (mkPage [mkStackSummary "AppPipe-gone" "CREATE_COMPLETE"] None)
        | _ => Ok no_page
        end
    | cfn_describe_stacks _ => Ok []
    | opensearch_list_domain_names => Ok []
    | _ => Ok tt
    end.

(** ** A function is polled after its deletion *)

(** Before a poll of a function come the accepted request to delete it
    and rounds of polling and sleeping for that function, nothing else. *)
Definition polled_after_delete (before : trace) (r : request) : Prop :=
  forall function_name,
    r = lambda_get_function function_name ->
    exists earlier k,
      before = earlier
                 ++ Called (lambda_delete_function function_name) (Ok tt)
                 :: rounds k function_name.

(** ** Routes before their peering connection *)

(** What the script emits for a route when it goes on: nothing for a
    route of another connection, delete_route with the id of the table and
    the destination of the route for a route of the connection. *)
Definition route_deleted (peering_connection_id : string) (route_table : RouteTable)
    (route : Route) : trace :=
  if route_matches peering_connection_id route then
    match DestinationCidrBlock route with
    | Some cidr =>
        [Called (ec2_delete_route (RouteTableId route_table) cidr) (Ok tt);
         Logged ("Deleted route: " ++ cidr ++ " in route table: "
                   ++ RouteTableId route_table)]
    | None => []
    end
  else [].

Definition table_cleaned (peering_connection_id : string) (route_table : RouteTable) : trace :=
  flat_map (route_deleted peering_connection_id route_table) (Routes route_table).

Definition has_destination (peering_connection_id : string) (route : Route) : Prop :=
  route_matches peering_connection_id route = true -> DestinationCidrBlock route <> None.

(** The events before a delete_vpc_peering_connection request end with
    the line announcing it, the listing of the route tables that have a
    route through the connection and, table by table and route by route,
    the deletion of those routes; every such route had a destination. *)
Definition routes_cleaned (region peering_connection_id : string) (before : trace) : Prop :=
  exists earlier tables,
    before = earlier
               ++ Logged (deleting_peering_line peering_connection_id region)
               :: listed (ec2_describe_route_tables peering_connection_id) None tables
               :: flat_map (table_cleaned peering_connection_id) (items tables) /\
    Forall (fun route_table =>
              Forall (has_destination peering_connection_id) (Routes route_table))
           (items tables).

Definition peering_connection_last (region : string) (before : trace) (r : request) : Prop :=
  forall peering_connection_id,
    r = ec2_delete_vpc_peering_connection peering_connection_id ->
    routes_cleaned region peering_connection_id before.

(** One peering connection; a route table with a route through it, a
    route through another connection and a local route. *)
Definition env_peering : client :=
  fun h r =>
    match r as r0 return result (response r0) with
    | List l _ =>
        match l as l0 return result (page (item l0)) with
        | ec2_describe_vpc_peering_connections =>
            Ok (mkPage [mkVpcPeeringConnection "pcx-1"] None)
        | ec2_describe_route_tables _ =>
            Ok (mkPage [mkRouteTable "rtb-1"
                          [mkRoute (Some "pcx-1") (Some "10.1.0.0/16");
                           mkRoute (Some "pcx-2") (Some "10.2.0.0/16");
                           mkRoute None (Some "10.0.0.0/16")]] None)
        | _ => Ok no_page
        end
    | cfn_describe_stacks _ => Ok []
    | opensearch_list_domain_names => Ok []
    | _ => Ok tt
    end.

(** ** Waiting for deletions *)

(** The waiter the script pairs with a deletion.  The deletion of an ECS
    cluster has none: the waiter line 353 asks for does not exist. *)
Definition waiter_of (r : request) : option request :=
  match r with
  | cfn_delete_stack stack_name => Some (cfn_wait_stack_delete_complete stack_name)
  | ec2_terminate_instances ids => Some (ec2_wait_instance_terminated ids)
  | ecs_delete_service cluster_arn service_arn _ =>
      Some (ecs_wait_services_inactive cluster_arn [service_arn])
  | ecs_stop_task cluster_arn task_arn =>
      Some (ecs_wait_tasks_stopped cluster_arn [task_arn])
  | eks_delete_nodegroup cluster_name node_group =>
      Some (eks_wait_nodegroup_deleted cluster_name node_group)
  | eks_delete_cluster cluster_name => Some (eks_wait_cluster_deleted cluster_name)
  | _ => None
  end.

(** The waiters behind [if wait:]; the wait for a node group is not. *)
Definition optional_waiter (r : request) : bool :=
  match r with
  | cfn_wait_stack_delete_complete _ => true
  | ec2_wait_instance_terminated _ => true
  | ecs_wait_services_inactive _ _ => true
  | ecs_wait_tasks_stopped _ _ => true
  | ecs_wait_cluster_deleted _ => true
  | eks_wait_cluster_deleted _ => true
  | _ => false
  end.

(** A request answered without fault. *)
Definition accepted (e : event) : bool :=
  match e with
  | Called _ (Ok _) => true
  | _ => false
  end.

(** After an accepted deletion comes the request of its waiter. *)
Definition waiter_follows (e : event) (after : trace) : Prop :=
  forall r w,
    accepted e = true -> request_of e = Some r -> waiter_of r = Some w ->
    exists a later, after = Called w a :: later.

(** ** Scaling a service down before deleting it *)

(** The events before a delete_service request end with the line
    announcing it and the accepted update of the service to a desired
    count of 0. *)
Definition scaled_down_first (region : string) (before : trace) (r : request) : Prop :=
  forall cluster_arn service_arn force,
    r = ecs_delete_service cluster_arn service_arn force ->
    exists earlier,
      before = earlier
                 ++ [Logged (deleting_service_line service_arn cluster_arn region);
                     Called (ecs_update_service cluster_arn service_arn 0) (Ok tt)].

(** ** The calls of the driver *)

(** Procedures run one after the other: each starts from the history the
    earlier ones left, and the first that does not return ends the run. *)
Fixpoint in_turn (ms : list (M unit)) (env : client) (h : trace) : trace * outcome unit :=
  match ms with
  | [] => ([], Done tt)
  | m :: rest =>
      match m env h with
      | (t, Done _) => let '(t', o) := in_turn rest env (h ++ t) in (t ++ t', o)
      | (t, o) => (t, o)
      end
  end.

(** The nine calls of lines 363-375 with their arguments; [wait] is given
    to ECS (True), to EC2 and to the stacks (False), and left to its default,
    False, for EKS. *)
Definition driver_calls (fuel : nat) : list (M unit) :=
  [delete_all_auto_scaling_groups fuel "cn-north-1";
   delete_all_ecs_clusters fuel "cn-north-1" true;
   terminate_all_ec2_instances fuel "cn-north-1" false;
   delete_all_lambda_functions fuel "cn-north-1";
   delete_all_peering_connections "cn-north-1";
   delete_all_opensearch_clusters "cn-north-1";
   delete_all_kinesis_streams "cn-north-1";
   delete_all_eks_clusters "cn-north-1" false;
   delete_all_stacks fuel "cn-north-1" false].

(** ** A procedure that finds nothing *)

(** The requests that only read. *)
Definition is_listing (r : request) : bool :=
  match r with
  | List _ _ => true
  | opensearch_list_domain_names => true
  | _ => false
  end.

(** [empty_pages env l h tok t]: asked for the listing [l] from the token
    [tok] at history [h], the environment answers with pages that carry no
    record, as many as the tokens lead to, and [t] are the events of reading
    them all. *)
Inductive empty_pages (env : client) (l : listing) :
    trace -> option token -> trace -> Prop :=
| empty_last h tok pg :
    env h (List l tok) = Ok pg ->
    items pg = [] ->
    after_page tok pg = Stop ->
    empty_pages env l h tok [listed l tok pg]
| empty_next h tok pg tok' t :
    env h (List l tok) = Ok pg ->
    items pg = [] ->
    after_page tok pg = Next tok' ->
    empty_pages env l (h ++ [listed l tok pg]) (Some tok') t ->
    empty_pages env l h tok (listed l tok pg :: t).

(** The same for a listing the script reads with one request, whatever the
    token of the answer. *)
Definition empty_answer (env : client) (l : listing) (h : trace) (t : trace) : Prop :=
  exists pg, env h (List l None) = Ok pg /\ items pg = [] /\ t = [listed l None pg].

(** [nothing_listed env h p t]: at history [h] the listings of procedure
    [p], and only those, come back without a record; [t] are the events of
    reading them. *)
Definition nothing_listed (env : client) (h : trace) (p : procedure) (t : trace) : Prop :=
  match p with
  | AutoScalingGroups =>
      empty_pages env autoscaling_describe_auto_scaling_groups h None t
  | EcsClusters => empty_pages env ecs_list_clusters h None t
  | Ec2Instances => empty_pages env ec2_describe_instances h None t
  | LambdaFunctions => empty_pages env lambda_list_functions h None t
  | PeeringConnections => empty_answer env ec2_describe_vpc_peering_connections h t
  | OpenSearchClusters =>
      env h opensearch_list_domain_names = Ok [] /\
      t = [Called opensearch_list_domain_names (Ok [])]
  | KinesisStreams =>
      exists t1 t2,
        empty_answer env kinesis_list_streams h t1 /\
        empty_answer env firehose_list_delivery_streams (h ++ t1) t2 /\
        t = t1 ++ t2
  | EksClusters => empty_answer env eks_list_clusters h t
  | Stacks =>
      exists t1 t2,
        empty_pages env (cfn_list_stacks first_pass_status_filter) h None t1 /\
        empty_pages env (cfn_list_stacks general_pass_status_filter) (h ++ t1) None t2 /\
        t = t1 ++ t2
  end.

(** The same for procedures run one after the other. *)
Inductive nothing_anywhere (env : client) : trace -> list procedure -> trace -> Prop :=
| no_procedure h : nothing_anywhere env h [] []
| next_procedure h p ps t1 t2 :
    nothing_listed env h p t1 ->
    nothing_anywhere env (h ++ t1) ps t2 ->
    nothing_anywhere env h (p :: ps) (t1 ++ t2).

(** A region where one empty page answers the token [page-2] of the Lambda
    listing, while the region still has a stack. *)
Definition env_no_function : client :=
  fun h r =>
    match r as r0 return result (response r0) with
    | List l tok =>
        match l as l0 return result (page (item l0)) with
        | lambda_list_functions =>
            match tok with
            | None => Ok (mkPage [] (Some "page-2"))
            | Some _ => Ok (mkPage [] None)
            end
        | cfn_list_stacks _ => Ok (mkPage [mkStackSummary "AppPipe-prod" "CREATE_COMPLETE"] None)
        | _ => Ok no_page
        end
    | cfn_describe_stacks _ => Ok [mkStack true]
    | opensearch_list_domain_names => Ok []
    | _ => Ok tt
    end.

(** ** What follows the deletion of a Lambda function *)

(** What the Lambda teardown does once it is through with a function: it
    announces another function, or requests the next page, or emits nothing
    more. *)
Definition moves_on (region : string) (later : trace) : Prop :=
  later = [] \/
  (exists function_name rest,
      later = Logged (deleting_function_line function_name region) :: rest) \/
  (exists tok a rest, later = Called (List lambda_list_functions tok) a :: rest).

(** The events after an accepted delete_function: some rounds of a poll
    that finds the function and a sleep of 5 seconds, then the poll that
    raises and the line of its handler, after which the procedure moves on;
    or the rounds only, in a run cut while it was still polling. *)
Definition polled (region function_name : string) (after : trace) (o : outcome unit) : Prop :=
  exists k,
    (after = rounds k function_name /\ o = OutOfFuel) \/
    (exists e later,
        after = rounds k function_name
                  ++ [Called (lambda_get_function function_name) (Err e);
                      Logged (last_poll_line region function_name e)]
                  ++ later /\
        moves_on region later).

Definition polled_after_each_delete (region : string) (t : trace) (o : outcome unit) : Prop :=
  forall before function_name after,
    t = before ++ Called (lambda_delete_function function_name) (Ok tt) :: after ->
    polled region function_name after o.

(** ** Stacks left in DELETE_FAILED *)

(** The events of a pass on a stack it selects, when the stack is not
    protected and every request is accepted. *)
Definition stack_deleted (region : string) (wait : bool) (stack : StackSummary) : trace :=
  [Called (cfn_describe_stacks (StackName stack)) (Ok [mkStack false]);
   Logged (deleting_stack_line (StackName stack) region);
   Called (cfn_delete_stack (StackName stack)) (Ok tt)]
  ++ (if wait
      then [Called (cfn_wait_stack_delete_complete (StackName stack)) (Ok tt);
            Logged (deleted_stack_line (StackName stack) region)]
      else []).

(** The events of a pass on a stack of such a region. *)
Definition pass_block (region : string) (wait : bool) (selects : string -> bool)
    (stack : StackSummary) : trace :=
  if selects (StackName stack) then stack_deleted region wait stack else [].

(** The stacks of [inventory] whose status is one of [f]. *)
Definition with_status (f : list string) (inventory : list StackSummary) : list StackSummary :=
  filter (fun stack => existsb (String.eqb (StackStatus stack)) f) inventory.

(** What a run of the Lambda teardown, or a part of it that begins at a
    function or at a page, looks like. *)
Definition function_by_function (region : string) (t : trace) (o : outcome unit) : Prop :=
  moves_on region t /\ polled_after_each_delete region t o.

(** ** The waiter of an ECS cluster *)

(** An accepted delete_cluster of ECS is the last event of the run, which
    ends with the ValueError of [get_waiter]. *)
Definition cluster_waiter_missing (t : trace) (o : outcome unit) : Prop :=
  forall before cluster_arn after,
    t = before ++ Called (ecs_delete_cluster cluster_arn) (Ok tt) :: after ->
    after = [] /\ o = Raised (ValueError "Waiter does not exist: cluster_deleted").

(** A request other than the deletion of an ECS cluster. *)
Definition no_cluster_deletion (r : request) : Prop :=
  forall cluster_arn, r <> ecs_delete_cluster cluster_arn.

(** A region with two ECS clusters and nothing in them. *)
Definition env_two_clusters : client :=
  fun h r =>
    match r as r0 return result (response r0) with
    | List l tok =>
        match l as l0 return result (page (item l0)) with
        | ecs_list_clusters => Ok (mkPage ["cluster-1"; "cluster-2"] None)
        | _ => Ok no_page
        end
    | cfn_describe_stacks _ => Ok []
    | opensearch_list_domain_names => Ok []
    | _ => Ok tt
    end.

(** ** Continuation tokens *)




(** * Properties *)

(** ** The name tests on examples *)

Example contains_inside : contains "AppPipe" "prod-AppPipe-7" = true.
Proof. reflexivity. Qed.

Example contains_case_sensitive : contains "AppPipe" "apppipe" = false.
Proof. reflexivity. Qed.

Example first_pass_selects_ingestion : first_pass_selects "AppIngestion-prod" = true.
Proof. reflexivity. Qed.

Example first_pass_ignores_others : first_pass_selects "other-infra" = false.
Proof. reflexivity. Qed.

(** ** Running the monad *)

Lemma run_bind {A B} (m : M A) (f : A -> M B) env h :
  bind m f env h =
  match ending m env h with
  | Done a => (emitted m env h ++ emitted (f a) env (h ++ emitted m env h),
               ending (f a) env (h ++ emitted m env h))
  | Raised e => (emitted m env h, Raised e)
  | OutOfFuel => (emitted m env h, OutOfFuel)
  end.
Proof.
  unfold bind, emitted, ending.
  destruct (m env h) as [t1 o]; simpl.
  destruct o; auto.
  destruct (f a env (h ++ t1)); reflexivity.
Qed.

Lemma emitted_bind {A B} (m : M A) (f : A -> M B) env h :
  emitted (bind m f) env h =
  match ending m env h with
  | Done a => emitted m env h ++ emitted (f a) env (h ++ emitted m env h)
  | _ => emitted m env h
  end.
Proof.
  unfold emitted at 1. rewrite run_bind. destruct (ending m env h); reflexivity.
Qed.

Lemma ending_bind {A B} (m : M A) (f : A -> M B) env h :
  ending (bind m f) env h =
  match ending m env h with
  | Done a => ending (f a) env (h ++ emitted m env h)
  | Raised e => Raised e
  | OutOfFuel => OutOfFuel
  end.
Proof.
  unfold ending at 1. rewrite run_bind. destruct (ending m env h); reflexivity.
Qed.

Lemma run_eta {A} (m : M A) env h : m env h = (emitted m env h, ending m env h).
Proof. unfold emitted, ending. destruct (m env h); reflexivity. Qed.

(** One step of a run. *)

Lemma step_call {B} r (f : response r -> M B) (env : client) h v :
  env h r = Ok v ->
  bind (call r) f env h =
    (Called r (Ok v) :: emitted (f v) env (h ++ [Called r (Ok v)]),
     ending (f v) env (h ++ [Called r (Ok v)])).
Proof.
  intros E. unfold bind, call, emitted, ending. rewrite E.
  destruct (f v env (h ++ [Called r (Ok v)])); reflexivity.
Qed.

Lemma step_call_fault {B} r (f : response r -> M B) (env : client) h e :
  env h r = Err e ->
  bind (call r) f env h = ([Called r (Err e)], Raised e).
Proof. intros E. unfold bind, call. rewrite E. reflexivity. Qed.

Lemma step_print {B} line (f : unit -> M B) env h :
  bind (print line) f env h =
    (Logged line :: emitted (f tt) env (h ++ [Logged line]),
     ending (f tt) env (h ++ [Logged line])).
Proof.
  unfold bind, print, emitted, ending.
  destruct (f tt env (h ++ [Logged line])); reflexivity.
Qed.

Lemma step_silent {A B} (m : M A) (f : A -> M B) env h a :
  m env h = ([], Done a) -> bind m f env h = f a env h.
Proof.
  intros E. unfold bind. rewrite E, app_nil_r.
  destruct (f a env h); reflexivity.
Qed.

Lemma step_done {A B} (m : M A) (f : A -> M B) env h t a :
  m env h = (t, Done a) ->
  bind m f env h = (t ++ emitted (f a) env (h ++ t), ending (f a) env (h ++ t)).
Proof.
  intros E. unfold bind, emitted, ending. rewrite E.
  destruct (f a env (h ++ t)); reflexivity.
Qed.

Lemma step_raised {A B} (m : M A) (f : A -> M B) env h t e :
  m env h = (t, Raised e) -> bind m f env h = (t, Raised e).
Proof. intros E. unfold bind. rewrite E. reflexivity. Qed.

(** ** Events are compared through their requests *)

Lemma listing_eq_dec (a b : listing) : {a = b} + {a <> b}.
Proof.
  decide equality; try apply string_dec; apply (list_eq_dec string_dec).
Qed.

Lemma request_eq_dec (a b : request) : {a = b} + {a <> b}.
Proof.
  decide equality;
    try apply string_dec; try apply bool_dec; try apply Z.eq_dec;
    try apply (list_eq_dec string_dec); try apply listing_eq_dec.
  decide equality; apply string_dec.
Qed.

Lemma Called_inj r (a b : result (response r)) : Called r a = Called r b -> a = b.
Proof.
  intros H. injection H as H.
  apply (Eqdep_dec.inj_pair2_eq_dec _ request_eq_dec) in H. exact H.
Qed.

Lemma Called_describe_inj n m (a : result (list Stack)) (b : result (list Stack)) :
  Called (cfn_describe_stacks n) a = Called (cfn_describe_stacks m) b ->
  n = m /\ a = b.
Proof.
  intros H. assert (Hn : n = m) by (inversion H; reflexivity).
  subst m. split; [reflexivity|]. apply Called_inj in H. exact H.
Qed.

Lemma requests_app t1 t2 : requests (t1 ++ t2) = requests t1 ++ requests t2.
Proof.
  induction t1 as [|e t1 IH]; simpl; auto.
  destruct e; simpl; rewrite IH; reflexivity.
Qed.

(** ** Rules for [holds] *)

Section Holds.

Variable env : client.
Variable P : trace -> Prop.
Hypothesis P_nil : P [].
Hypothesis P_app : forall t1 t2, P t1 -> P t2 -> P (t1 ++ t2).

Lemma holds_ret {A} (a : A) : holds env P (ret a).
Proof. intros h. exact P_nil. Qed.

Lemma holds_raise {A} e : holds env P (@raise A e).
Proof. intros h. exact P_nil. Qed.

Lemma holds_out_of_fuel {A} : holds env P (@out_of_fuel A).
Proof. intros h. exact P_nil. Qed.

Lemma holds_print line : P [Logged line] -> holds env P (print line).
Proof. intros H h. exact H. Qed.

Lemma holds_sleep secs : P [Slept secs] -> holds env P (sleep secs).
Proof. intros H h. exact H. Qed.

Lemma holds_call r : (forall h, P [Called r (env h r)]) -> holds env P (call r).
Proof. intros H h. apply H. Qed.

Lemma holds_bind {A B} (m : M A) (f : A -> M B) :
  holds env P m -> (forall a, holds env P (f a)) -> holds env P (bind m f).
Proof.
  intros Hm Hf h. rewrite emitted_bind.
  destruct (ending m env h); auto. apply P_app; auto. apply Hf.
Qed.

Lemma holds_try_except {A} (m : M A) : holds env P m -> holds env P (try_except m).
Proof.
  intros Hm h. specialize (Hm h). unfold emitted, try_except in *.
  destruct (m env h); exact Hm.
Qed.

Lemma holds_for_each {A} (xs : list A) (body : A -> M unit) :
  (forall x, In x xs -> holds env P (body x)) -> holds env P (for_each xs body).
Proof.
  induction xs as [|x xs IH]; intros Hb; simpl.
  - apply holds_ret.
  - apply holds_bind; [apply Hb; left; reflexivity|].
    intros _. apply IH. intros y Hy. apply Hb. right. exact Hy.
Qed.

Lemma holds_paginate fuel l (body : page (item l) -> M unit) :
  (forall tok h, P [Called (List l tok) (env h (List l tok))]) ->
  (forall pg, holds env P (body pg)) ->
  forall tok, holds env P (paginate fuel l tok body).
Proof.
  intros Hl Hb. induction fuel as [|n IH]; intros tok; simpl.
  - apply holds_out_of_fuel.
  - apply holds_bind; [apply holds_call; apply Hl|].
    intros pg. apply holds_bind; [apply Hb|].
    intros _. destruct (after_page tok pg);
      [apply holds_ret | apply holds_raise | apply IH].
Qed.

Lemma holds_get_waiter names waiter_name : holds env P (get_waiter names waiter_name).
Proof.
  unfold get_waiter. destruct (existsb _ names); [apply holds_ret | apply holds_raise].
Qed.

Lemma holds_subscript0 {A} (xs : list A) : holds env P (subscript0 xs).
Proof. destruct xs; [apply holds_raise | apply holds_ret]. Qed.

Lemma holds_subscript {A} (v : option A) key : holds env P (subscript v key).
Proof. destruct v; [apply holds_ret | apply holds_raise]. Qed.

End Holds.

(** ** What each procedure requests *)

Lemma all_requests_nil Q : all_requests Q [].
Proof. constructor. Qed.

Lemma all_requests_app Q t1 t2 :
  all_requests Q t1 -> all_requests Q t2 -> all_requests Q (t1 ++ t2).
Proof.
  unfold all_requests. intros H1 H2. rewrite requests_app.
  apply Forall_app. split; assumption.
Qed.

Lemma all_requests_call (Q : request -> Prop) r a : Q r -> all_requests Q [Called r a].
Proof. intros H. constructor; [exact H | constructor]. Qed.

Create HintDb procs.
#[local] Hint Unfold delete_all_stacks first_pass general_pass first_pass_stack
  general_pass_stack delete_unless_protected
  delete_all_auto_scaling_groups delete_auto_scaling_group
  delete_all_lambda_functions delete_lambda_function
  delete_all_opensearch_clusters delete_opensearch_cluster
  delete_all_eks_clusters delete_eks_cluster delete_node_group
  delete_all_peering_connections delete_peering_connection delete_matching_route
  delete_all_kinesis_streams delete_data_stream delete_firehose_stream
  terminate_all_ec2_instances terminate_instance
  delete_all_ecs_clusters delete_ecs_cluster delete_ecs_service stop_ecs_task : procs.

Ltac issued :=
  split; [reflexivity | simpl; intros; solve [reflexivity | discriminate]].

Ltac requests_hold_step tac :=
  lazymatch goal with
  | |- holds _ _ (ret _) => apply holds_ret; apply all_requests_nil
  | |- holds _ _ (print _) => apply holds_print; apply all_requests_nil
  | |- holds _ _ (sleep _) => apply holds_sleep; apply all_requests_nil
  | |- holds _ _ (call _) =>
      apply holds_call; intros; apply all_requests_call; tac
  | |- holds _ _ (bind _ _) =>
      apply holds_bind; [apply all_requests_app | | intros]
  | |- holds _ _ (for_each _ _) =>
      apply holds_for_each; [apply all_requests_nil | apply all_requests_app | intros]
  | |- holds _ _ (paginate _ _ _ _) =>
      apply holds_paginate;
      [apply all_requests_nil | apply all_requests_app
      | intros; apply all_requests_call; tac | intros]
  | |- holds _ _ (subscript0 _) => apply holds_subscript0; apply all_requests_nil
  | |- holds _ _ (subscript _ _) => apply holds_subscript; apply all_requests_nil
  | |- holds _ _ (get_waiter _ _) => apply holds_get_waiter; apply all_requests_nil
  | |- holds _ _ (if ?b then _ else _) => destruct b
  end.

Ltac requests_hold_with tac :=
  autounfold with procs; cbv zeta; repeat requests_hold_step tac.

Ltac requests_hold := requests_hold_with issued.

Lemma poll_function_gone_requests env n region function_name :
  holds env (all_requests (issued_by LambdaFunctions false))
    (poll_function_gone n region function_name).
Proof.
  induction n as [|n IH]; simpl.
  - apply holds_out_of_fuel. apply all_requests_nil.
  - apply holds_bind; [apply all_requests_app | |].
    + apply holds_try_except. requests_hold.
    + intros [[]|e].
      * requests_hold. exact IH.
      * destruct e; requests_hold.
Qed.

Lemma auto_scaling_groups_requests env fuel region :
  holds env (all_requests (issued_by AutoScalingGroups false))
    (delete_all_auto_scaling_groups fuel region).
Proof. requests_hold. Qed.

Lemma ecs_clusters_requests env fuel region wait :
  holds env (all_requests (issued_by EcsClusters false))
    (delete_all_ecs_clusters fuel region wait).
Proof. requests_hold. Qed.

Lemma ec2_instances_requests env fuel region wait :
  holds env (all_requests (issued_by Ec2Instances wait))
    (terminate_all_ec2_instances fuel region wait).
Proof. requests_hold. Qed.

Lemma lambda_functions_requests env fuel region :
  holds env (all_requests (issued_by LambdaFunctions false))
    (delete_all_lambda_functions fuel region).
Proof. requests_hold. apply poll_function_gone_requests. Qed.

Lemma peering_connections_requests env region :
  holds env (all_requests (issued_by PeeringConnections false))
    (delete_all_peering_connections region).
Proof. requests_hold. Qed.

Lemma opensearch_clusters_requests env region :
  holds env (all_requests (issued_by OpenSearchClusters false))
    (delete_all_opensearch_clusters region).
Proof. requests_hold. Qed.

Lemma kinesis_streams_requests env region :
  holds env (all_requests (issued_by KinesisStreams false))
    (delete_all_kinesis_streams region).
Proof. requests_hold. Qed.

Lemma eks_clusters_requests env region wait :
  holds env (all_requests (issued_by EksClusters false))
    (delete_all_eks_clusters region wait).
Proof. requests_hold. Qed.

Lemma stacks_requests env fuel region wait :
  holds env (all_requests (issued_by Stacks wait))
    (delete_all_stacks fuel region wait).
Proof. requests_hold. Qed.

(** ** C4: the order of the driver *)

Lemma holds_weaken env (P P' : trace -> Prop) {A} (m : M A) :
  (forall t, P t -> P' t) -> holds env P m -> holds env P' m.
Proof. intros Hi Hm h. apply Hi, Hm. Qed.

Lemma issued_ordered p wait t :
  all_requests (issued_by p wait) t -> ordered_from (position p) t.
Proof.
  unfold all_requests, ordered_from. induction 1 as [|r rs [Hr _] Hrs [IHs IHf]].
  - split; constructor.
  - split; constructor; auto.
    + eapply Forall_impl; [|exact Hrs]. intros r' [Hr' _].
      unfold not_after. rewrite Hr, Hr'. apply le_n.
    + rewrite Hr. apply le_n.
Qed.

Lemma ordered_app p wait k t1 t2 :
  all_requests (issued_by p wait) t1 -> ordered_from k t2 -> position p <= k ->
  ordered_from (position p) (t1 ++ t2).
Proof.
  unfold all_requests, ordered_from. rewrite requests_app.
  intros H1 [Hs Hf] Hk. induction H1 as [|r rs [Hr _] Hrs [IHs IHf]]; simpl.
  - split; auto. eapply Forall_impl; [|exact Hf]. simpl. intros; lia.
  - split; constructor; auto.
    + apply Forall_app. split.
      * eapply Forall_impl; [|exact Hrs]. intros r' [Hr' _].
        unfold not_after. rewrite Hr, Hr'. apply le_n.
      * eapply Forall_impl; [|exact Hf]. simpl. intros r' Hr'.
        unfold not_after. rewrite Hr. lia.
    + rewrite Hr. apply le_n.
Qed.

Lemma ordered_bind env p wait k {A B} (m : M A) (f : A -> M B) :
  holds env (all_requests (issued_by p wait)) m ->
  (forall a, holds env (ordered_from k) (f a)) ->
  position p <= k ->
  holds env (ordered_from (position p)) (bind m f).
Proof.
  intros Hm Hf Hk h. rewrite emitted_bind.
  destruct (ending m env h).
  - eapply ordered_app; [apply Hm | apply Hf | exact Hk].
  - eapply issued_ordered, Hm.
  - eapply issued_ordered, Hm.
Qed.

Lemma main_ordered env fuel : holds env (ordered_from 1) (main fuel).
Proof.
  unfold main; cbv zeta.
  apply (ordered_bind env AutoScalingGroups false 2);
    [apply auto_scaling_groups_requests | intros _ | simpl; lia].
  apply (ordered_bind env EcsClusters false 3);
    [apply ecs_clusters_requests | intros _ | simpl; lia].
  apply (ordered_bind env Ec2Instances false 4);
    [apply ec2_instances_requests | intros _ | simpl; lia].
  apply (ordered_bind env LambdaFunctions false 5);
    [apply lambda_functions_requests | intros _ | simpl; lia].
  apply (ordered_bind env PeeringConnections false 6);
    [apply peering_connections_requests | intros _ | simpl; lia].
  apply (ordered_bind env OpenSearchClusters false 7);
    [apply opensearch_clusters_requests | intros _ | simpl; lia].
  apply (ordered_bind env KinesisStreams false 8);
    [apply kinesis_streams_requests | intros _ | simpl; lia].
  apply (ordered_bind env EksClusters false 9);
    [apply eks_clusters_requests | intros _ | simpl; lia].
  intros h. apply (issued_ordered Stacks false). apply stacks_requests.
Qed.

Lemma issued_no_disabled_waiter p :
  forall t, all_requests (issued_by p false) t ->
            all_requests (fun r => disabled_waiter r = false) t.
Proof.
  unfold all_requests. intros t H. eapply Forall_impl; [|exact H].
  intros r [_ Hw]. destruct (disabled_waiter r); auto.
  discriminate Hw. reflexivity.
Qed.

Ltac then_procedure lem :=
  apply holds_bind;
  [ apply all_requests_app
  | eapply holds_weaken; [apply issued_no_disabled_waiter | apply lem]
  | intros _ ].

Lemma main_no_disabled_waiter env fuel :
  holds env (all_requests (fun r => disabled_waiter r = false)) (main fuel).
Proof.
  unfold main; cbv zeta.
  then_procedure auto_scaling_groups_requests.
  then_procedure ecs_clusters_requests.
  then_procedure ec2_instances_requests.
  then_procedure lambda_functions_requests.
  then_procedure peering_connections_requests.
  then_procedure opensearch_clusters_requests.
  then_procedure kinesis_streams_requests.
  then_procedure eks_clusters_requests.
  eapply holds_weaken; [apply issued_no_disabled_waiter | apply stacks_requests].
Qed.

Lemma ending_bind_done {A B} (m : M A) (f : A -> M B) env h b :
  ending (bind m f) env h = Done b ->
  exists a, ending m env h = Done a /\
            ending (f a) env (h ++ emitted m env h) = Done b /\
            emitted (bind m f) env h =
              emitted m env h ++ emitted (f a) env (h ++ emitted m env h).
Proof.
  rewrite ending_bind, emitted_bind.
  destruct (ending m env h) as [a| |]; try discriminate.
  intros H. exists a. auto.
Qed.

Lemma call_bind_begins {B} r (f : response r -> M B) env h :
  exists rs, requests (emitted (bind (call r) f) env h) = r :: rs.
Proof.
  rewrite emitted_bind. unfold ending, emitted, call; simpl.
  destruct (env h r); simpl; eauto.
Qed.

Lemma paginate_begins fuel l tok (body : page (item l) -> M unit) env h :
  ending (paginate fuel l tok body) env h = Done tt ->
  exists rs, requests (emitted (paginate fuel l tok body) env h) = List l tok :: rs.
Proof.
  destruct fuel as [|n]; simpl.
  - discriminate.
  - intros _. exact (call_bind_begins (List l tok) _ env h).
Qed.

Lemma compress_block p l1 l2 :
  l1 <> [] -> Forall (fun q => q = p) l1 -> begins_elsewhere p l2 ->
  compress (l1 ++ l2) = p :: compress l2.
Proof.
  induction l1 as [|a l1 IH]; intros Hne Hall Hl2; [congruence|].
  inversion Hall as [|? ? Ha Hall']; subst.
  destruct l1 as [|b l1].
  - simpl. destruct l2 as [|q l2]; [reflexivity|].
    simpl in Hl2. rewrite Hl2. reflexivity.
  - inversion Hall' as [|? ? Hb _]; subst.
    change (compress ((p :: p :: l1) ++ l2))
      with (if procedure_eqb p p then compress ((p :: l1) ++ l2)
            else p :: compress ((p :: l1) ++ l2)).
    unfold procedure_eqb at 1. rewrite Nat.eqb_refl.
    apply IH; [discriminate | exact Hall' | exact Hl2].
Qed.

Lemma owners_of_issued p wait t :
  all_requests (issued_by p wait) t ->
  Forall (fun q => q = p) (map owner (requests t)).
Proof.
  unfold all_requests. intros H. apply Forall_map.
  eapply Forall_impl; [|exact H]. intros r [Hr _]. exact Hr.
Qed.

(** The trace of one procedure followed by the rest of the run. *)
Lemma procedures_run_app p wait t1 t2 r rs :
  all_requests (issued_by p wait) t1 ->
  requests t1 = r :: rs ->
  begins_elsewhere p (map owner (requests t2)) ->
  procedures_run (t1 ++ t2) = p :: procedures_run t2.
Proof.
  intros Hall Hne Hb. unfold procedures_run.
  rewrite requests_app, map_app. apply compress_block; auto.
  - rewrite Hne. discriminate.
  - eapply owners_of_issued; eauto.
Qed.

Lemma procedures_run_last p wait t r rs :
  all_requests (issued_by p wait) t ->
  requests t = r :: rs ->
  procedures_run t = [p].
Proof.
  intros Hall Hne. rewrite <- (app_nil_r t).
  erewrite procedures_run_app; eauto. exact I.
Qed.

Lemma begins_elsewhere_app p q wait t1 t2 r rs :
  all_requests (issued_by q wait) t1 ->
  requests t1 = r :: rs ->
  procedure_eqb p q = false ->
  begins_elsewhere p (map owner (requests (t1 ++ t2))).
Proof.
  intros Hall Hne Hpq. rewrite requests_app, Hne. simpl.
  unfold all_requests in Hall. rewrite Hne in Hall.
  inversion Hall as [|? ? [Hr _] _]; subst. exact Hpq.
Qed.

Lemma paginate_procedure_begins fuel l (body : page (item l) -> M unit) :
  begins (paginate fuel l None body).
Proof. intros env h Hd. apply paginate_begins in Hd as [rs E]. eauto. Qed.

Lemma call_procedure_begins r (f : response r -> M unit) : begins (bind (call r) f).
Proof. intros env h _. destruct (call_bind_begins r f env h) as [rs E]. eauto. Qed.

Lemma stacks_begin fuel region wait : begins (delete_all_stacks fuel region wait).
Proof.
  unfold delete_all_stacks. intros env h Hd.
  apply ending_bind_done in Hd as (a & E1 & _ & ->).
  destruct a. apply paginate_begins in E1 as [rs E1].
  rewrite requests_app. unfold first_pass at 1. rewrite E1. simpl. eauto.
Qed.

Lemma position_inj p q : procedure_eqb p q = true -> p = q.
Proof. destruct p, q; simpl; intros H; try reflexivity; discriminate H. Qed.

Lemma compress_head ps q rest : compress ps = q :: rest -> exists ps', ps = q :: ps'.
Proof.
  induction ps as [|p ps IH]; [discriminate|].
  destruct ps as [|p' ps].
  - simpl. intros H. injection H as -> _. eauto.
  - change (compress (p :: p' :: ps))
      with (if procedure_eqb p p' then compress (p' :: ps)
            else p :: compress (p' :: ps)).
    destruct (procedure_eqb p p') eqn:E.
    + intros H. apply IH in H as [ps' H]. injection H as -> _.
      apply position_inj in E. subst. eauto.
    + intros H. injection H as -> _. eauto.
Qed.

Lemma procedures_run_bind p wait q rest (m : M unit) (f : unit -> M unit) env h :
  holds env (all_requests (issued_by p wait)) m ->
  begins m ->
  (forall h', ending (f tt) env h' = Done tt ->
              procedures_run (emitted (f tt) env h') = q :: rest) ->
  procedure_eqb p q = false ->
  ending (bind m f) env h = Done tt ->
  procedures_run (emitted (bind m f) env h) = p :: q :: rest.
Proof.
  intros Hall Hb Hrest Hpq Hd.
  apply ending_bind_done in Hd as ([] & E1 & E2 & ->).
  destruct (Hb env h E1) as (r & rs & Hne).
  specialize (Hrest _ E2).
  erewrite procedures_run_app; [rewrite Hrest; reflexivity | apply Hall | exact Hne |].
  apply compress_head in Hrest as [ps' ->]. exact Hpq.
Qed.

Lemma bind_assoc {A B C} (m : M A) (f : A -> M B) (g : B -> M C) env h :
  bind (bind m f) g env h = bind m (fun a => bind (f a) g) env h.
Proof.
  unfold bind. destruct (m env h) as [t1 [a| |]]; auto.
  destruct (f a env (h ++ t1)) as [t2 [b| |]]; auto.
  rewrite <- app_assoc.
  destruct (g b env (h ++ t1 ++ t2)). rewrite app_assoc. reflexivity.
Qed.

Lemma bind_ext {A B} (m : M A) (f g : A -> M B) env h :
  (forall a h', f a env h' = g a env h') -> bind m f env h = bind m g env h.
Proof.
  intros H. unfold bind. destruct (m env h) as [t1 [a| |]]; auto.
  rewrite H. reflexivity.
Qed.

Lemma ret_bind {A B} (a : A) (f : A -> M B) env h : bind (ret a) f env h = f a env h.
Proof.
  unfold bind, ret. rewrite app_nil_r. destruct (f a env h); reflexivity.
Qed.

Lemma in_turn_cons m ms env h :
  in_turn (m :: ms) env h = bind m (fun _ => in_turn ms) env h.
Proof. simpl. unfold bind. destruct (m env h) as [t [[]| |]]; reflexivity. Qed.

Lemma in_turn_last (m : M unit) env h : in_turn [m] env h = m env h.
Proof.
  simpl. destruct (m env h) as [t [[]| |]]; try reflexivity.
  rewrite app_nil_r. reflexivity.
Qed.

Lemma main_in_turn fuel env h : main fuel env h = in_turn (driver_calls fuel) env h.
Proof.
  unfold main, driver_calls; cbv zeta.
  do 8 (rewrite in_turn_cons; apply bind_ext; clear h; intros _ h).
  symmetry. apply in_turn_last.
Qed.

(** C4. A run of the driver is the run of nine calls one after the other,
    each from the history the earlier ones left and the first that does not
    return ending the run: delete_all_auto_scaling_groups,
    delete_all_ecs_clusters with wait set, terminate_all_ec2_instances with
    wait unset, delete_all_lambda_functions, delete_all_peering_connections,
    delete_all_opensearch_clusters, delete_all_kinesis_streams,
    delete_all_eks_clusters with wait unset and delete_all_stacks with wait
    unset, all on region cn-north-1.  So in every run the requests come in
    that order, those of the Auto Scaling groups first and those of the
    CloudFormation stacks last; no waiter for instance termination or for
    stack deletion is ever requested; and a run that returns has gone
    through the nine procedures, each once, in exactly that order. *)
Theorem driver_runs_procedures_in_order (fuel : nat) (env : client) (h : trace) :
  main fuel env h = in_turn (driver_calls fuel) env h /\
  StronglySorted not_after (requests (emitted (main fuel) env h)) /\
  Forall (fun r => disabled_waiter r = false) (requests (emitted (main fuel) env h)) /\
  (ending (main fuel) env h = Done tt ->
   procedures_run (emitted (main fuel) env h) = driver_order).
Proof.
  split; [apply main_in_turn|].
  split; [apply (main_ordered env fuel h)|].
  split; [apply (main_no_disabled_waiter env fuel h)|].
  revert h. unfold main, driver_order; cbv zeta.
  intros h. eapply procedures_run_bind;
    [apply auto_scaling_groups_requests | apply paginate_procedure_begins
    | | reflexivity].
  intros h1. eapply procedures_run_bind;
    [apply ecs_clusters_requests | apply paginate_procedure_begins
    | | reflexivity].
  intros h2. eapply procedures_run_bind;
    [apply ec2_instances_requests | apply paginate_procedure_begins
    | | reflexivity].
  intros h3. eapply procedures_run_bind;
    [apply lambda_functions_requests | apply paginate_procedure_begins
    | | reflexivity].
  intros h4. eapply procedures_run_bind;
    [apply peering_connections_requests | apply call_procedure_begins
    | | reflexivity].
  intros h5. eapply procedures_run_bind;
    [apply opensearch_clusters_requests | apply call_procedure_begins
    | | reflexivity].
  intros h6. eapply procedures_run_bind;
    [apply kinesis_streams_requests | apply call_procedure_begins
    | | reflexivity].
  intros h7. eapply procedures_run_bind;
    [apply eks_clusters_requests | apply call_procedure_begins
    | | reflexivity].
  intros h8 Hd. destruct (stacks_begin _ _ _ _ _ Hd) as (r & rs & Hne).
  eapply procedures_run_last; [apply stacks_requests | exact Hne].
Qed.

Lemma driver_runs_procedures_in_order_witness :
  ending (main 1) env_empty [] = Done tt /\
  procedures_run (emitted (main 1) env_empty []) = driver_order.
Proof.
  assert (H : ending (main 1) env_empty [] = Done tt) by reflexivity.
  split; [exact H|].
  exact (proj2 (proj2 (proj2 (driver_runs_procedures_in_order 1 env_empty []))) H).
Defined.

(** ** C8: nothing to delete *)

Lemma paginate_empty_pages (env : client) l (body : item l -> M unit) h tok t :
  empty_pages env l h tok t ->
  forall fuel, List.length t <= fuel ->
    paginate fuel l tok (fun pg => for_each (items pg) body) env h = (t, Done tt).
Proof.
  induction 1 as [h tok pg E Hi Hs | h tok pg tok' t E Hi Hn Hrest IH]; intros fuel Hf;
    (destruct fuel as [|fuel]; [simpl in Hf; lia|]); simpl paginate;
    rewrite (step_call (List l tok) _ env h pg E); unfold emitted, ending;
    cbv beta iota delta [item] in *; rewrite Hi; simpl for_each; rewrite ret_bind.
  - rewrite Hs. reflexivity.
  - rewrite Hn. fold (item l) in *. rewrite IH by (simpl in Hf; lia). reflexivity.
Qed.

Lemma empty_pages_only_list env l h tok t :
  empty_pages env l h tok t -> Forall (fun r => is_listing r = true) (requests t).
Proof.
  induction 1; simpl; constructor; auto.
Qed.

Lemma empty_answer_only_lists env l h t :
  empty_answer env l h t -> Forall (fun r => is_listing r = true) (requests t).
Proof. intros (pg & _ & _ & ->). simpl. constructor; auto. Qed.

Lemma nothing_listed_only_lists env h p t :
  nothing_listed env h p t -> Forall (fun r => is_listing r = true) (requests t).
Proof.
  destruct p; simpl; intros H;
    try (eapply empty_pages_only_list; exact H);
    try (eapply empty_answer_only_lists; exact H).
  - destruct H as [_ ->]. simpl. constructor; auto.
  - destruct H as (t1 & t2 & H1 & H2 & ->). rewrite requests_app.
    apply Forall_app. split; eapply empty_answer_only_lists; eauto.
  - destruct H as (t1 & t2 & H1 & H2 & ->). rewrite requests_app.
    apply Forall_app. split; eapply empty_pages_only_list; eauto.
Qed.

Lemma empty_answer_run {B} (env : client) l h t (f : list (item l) -> M B) :
  empty_answer env l h t ->
  bind (call (List l None)) (fun pg => f (items pg)) env h =
    (t ++ emitted (f []) env (h ++ t), ending (f []) env (h ++ t)).
Proof.
  intros (pg & E & Hi & ->).
  rewrite (step_call (List l None) _ env h pg E).
  cbv beta iota delta [item] in *. rewrite Hi. reflexivity.
Qed.

Lemma procedure_finds_nothing env fuel region wait p h t :
  nothing_listed env h p t ->
  List.length t <= fuel ->
  run_procedure fuel region wait p env h = (t, Done tt).
Proof.
  destruct p; simpl; intros H Hf;
    try (apply paginate_empty_pages; assumption).
  - unfold delete_all_peering_connections.
    rewrite (empty_answer_run env ec2_describe_vpc_peering_connections h t
               (fun xs => for_each xs (delete_peering_connection region)) H).
    simpl. rewrite app_nil_r. reflexivity.
  - destruct H as [E ->]. unfold delete_all_opensearch_clusters.
    rewrite (step_call opensearch_list_domain_names _ env h [] E). reflexivity.
  - destruct H as (t1 & t2 & (pg1 & E1 & Hi1 & ->) & (pg2 & E2 & Hi2 & ->) & ->).
    unfold delete_all_kinesis_streams.
    rewrite (step_call (List kinesis_list_streams None) _ env h pg1 E1).
    unfold emitted, ending. cbv beta iota delta [item] in *.
    rewrite Hi1. simpl for_each. rewrite ret_bind.
    rewrite (step_call (List firehose_list_delivery_streams None) _ env _ pg2 E2).
    cbv beta iota delta [item] in *. rewrite Hi2. reflexivity.
  - unfold delete_all_eks_clusters.
    rewrite (empty_answer_run env eks_list_clusters h t
               (fun xs => for_each xs (delete_eks_cluster region wait)) H).
    simpl. rewrite app_nil_r. reflexivity.
  - destruct H as (t1 & t2 & H1 & H2 & ->). rewrite length_app in Hf.
    unfold delete_all_stacks, first_pass, general_pass.
    rewrite (step_done _ _ env h t1 tt
               (paginate_empty_pages env _ _ h None t1 H1 fuel ltac:(lia))).
    unfold emitted, ending.
    rewrite (paginate_empty_pages env _ _ (h ++ t1) None t2 H2 fuel ltac:(lia)).
    reflexivity.
Qed.

Lemma procedures_find_nothing env fuel region (waits : procedure -> bool) ps :
  forall h t,
    nothing_anywhere env h ps t ->
    List.length t <= fuel ->
    in_turn (map (fun p => run_procedure fuel region (waits p) p) ps) env h = (t, Done tt).
Proof.
  intros h t H. induction H as [h | h p ps t1 t2 H1 _ IH]; intros Hf.
  - reflexivity.
  - rewrite length_app in Hf. simpl map. cbn [in_turn].
    rewrite (procedure_finds_nothing env fuel region (waits p) p h t1 H1) by lia.
    rewrite IH by lia. reflexivity.
Qed.

(** C8. A procedure whose listing comes back without a record, on however
    many pages and whatever the rest of the region holds, emits the events
    of reading that listing and nothing else, and returns: it requests no
    deletion, termination or stop.  When this is so for the nine procedures
    one after the other, the driver emits the events of the listings and
    returns. *)
Theorem teardown_of_empty_region_is_noop (env : client) (fuel : nat) :
  (forall region wait p h t,
      nothing_listed env h p t ->
      List.length t <= fuel ->
      run_procedure fuel region wait p env h = (t, Done tt) /\
      Forall (fun r => is_listing r = true)
        (requests (emitted (run_procedure fuel region wait p) env h))) /\
  (forall h t,
      nothing_anywhere env h driver_order t ->
      List.length t <= fuel ->
      main fuel env h = (t, Done tt)).
Proof.
  split.
  - intros region wait p h t H Hf.
    pose proof (procedure_finds_nothing env fuel region wait p h t H Hf) as Hrun.
    split; [exact Hrun|].
    unfold emitted. rewrite Hrun. eapply nothing_listed_only_lists; exact H.
  - intros h t H Hf. rewrite main_in_turn.
    apply (procedures_find_nothing env fuel "cn-north-1"
             (fun p => match p with EcsClusters => true | _ => false end)
             driver_order h t H Hf).
Qed.

Lemma teardown_of_empty_region_is_noop_witness :
  run_procedure 2 "cn-north-1" false LambdaFunctions env_no_function [] =
    ([listed lambda_list_functions None (mkPage [] (Some "page-2"));
      listed lambda_list_functions (Some "page-2") (mkPage [] None)], Done tt) /\
  Forall (fun r => is_listing r = true)
    (requests (emitted (run_procedure 2 "cn-north-1" false LambdaFunctions)
                 env_no_function [])).
Proof.
  apply (proj1 (teardown_of_empty_region_is_noop env_no_function 2)
           "cn-north-1" false LambdaFunctions []).
  - simpl. apply empty_next with (tok' := "page-2"); try reflexivity.
    apply empty_last; reflexivity.
  - simpl. lia.
Defined.

(** ** C6: the polling loop of the Lambda teardown *)

Lemma poll_function_gone_ends (env : client) region function_name k :
  forall h n e,
    (forall i, i < k ->
       env (h ++ rounds i function_name) (lambda_get_function function_name) = Ok tt) ->
    env (h ++ rounds k function_name) (lambda_get_function function_name) = Err e ->
    k < n ->
    poll_function_gone n region function_name env h =
      (rounds k function_name
         ++ [Called (lambda_get_function function_name) (Err e);
             Logged (last_poll_line region function_name e)],
       Done tt).
Proof.
  induction k as [|k IH]; intros h n e Hok Herr Hn;
    (destruct n as [|n]; [lia|]); simpl.
  - simpl in Herr. rewrite app_nil_r in Herr.
    unfold bind, try_except, call. rewrite Herr.
    destruct e; reflexivity.
  - assert (H0 := Hok 0 (Nat.lt_0_succ k)). simpl in H0. rewrite app_nil_r in H0.
    unfold bind at 1. unfold try_except, call. rewrite H0.
    unfold bind at 1. unfold sleep.
    rewrite (IH ((h ++ [Called (lambda_get_function function_name) (Ok tt)])
                   ++ [Slept 5]) n e).
    + reflexivity.
    + intros i Hi. specialize (Hok (S i) (proj1 (Nat.succ_lt_mono i k) Hi)).
      simpl in Hok. rewrite <- !app_assoc. simpl. exact Hok.
    + simpl in Herr. rewrite <- !app_assoc. simpl. exact Herr.
    + lia.
Qed.

(** The loop has no bound of its own: while the function is reported
    present it goes on polling, five seconds apart. *)
Lemma poll_function_gone_never_gives_up (env : client) region function_name :
  (forall h, env h (lambda_get_function function_name) = Ok tt) ->
  forall n h,
    poll_function_gone n region function_name env h = (rounds n function_name, OutOfFuel).
Proof.
  intros Hok. induction n as [|n IH]; intros h; simpl.
  - reflexivity.
  - unfold bind at 1. unfold try_except, call. rewrite Hok.
    unfold bind at 1. unfold sleep. rewrite IH. reflexivity.
Qed.

(** The scenario of the specification: one function, found gone by the
    first poll. *)
Example one_function_scenario :
  delete_all_lambda_functions 1 "cn-north-1" (env_lambda ["f1"] 0 gone) [] =
    ([listed lambda_list_functions None (mkPage [mkFunction "f1"] None);
      Logged (deleting_function_line "f1" "cn-north-1");
      Called (lambda_delete_function "f1") (Ok tt);
      Called (lambda_get_function "f1") (Err gone);
      Logged (deleted_function_line "f1" "cn-north-1")], Done tt).
Proof. reflexivity. Qed.

(** ** C10: a route without DestinationCidrBlock *)

Lemma routes_without_match env h peering_connection_id route_table routes :
  no_route_matches peering_connection_id routes ->
  for_each routes (delete_matching_route peering_connection_id route_table) env h =
    ([], Done tt).
Proof.
  intros H. revert h. induction H as [|route routes Hr _ IH]; intros h; simpl.
  - reflexivity.
  - unfold bind. unfold delete_matching_route at 1. rewrite Hr. simpl.
    rewrite IH. reflexivity.
Qed.

Lemma tables_without_match env h peering_connection_id tables :
  Forall (fun t => no_route_matches peering_connection_id (Routes t)) tables ->
  for_each tables (fun route_table =>
      for_each (Routes route_table)
        (delete_matching_route peering_connection_id route_table)) env h =
    ([], Done tt).
Proof.
  intros H. revert h. induction H as [|t tables Ht _ IH]; intros h; simpl.
  - reflexivity.
  - unfold bind. rewrite routes_without_match by exact Ht. simpl.
    rewrite IH. reflexivity.
Qed.

Lemma for_each_app {A} (xs ys : list A) (body : A -> M unit) env h :
  for_each (xs ++ ys) body env h = bind (for_each xs body) (fun _ => for_each ys body) env h.
Proof.
  revert h. induction xs as [|x xs IH]; intros h; simpl.
  - rewrite ret_bind. reflexivity.
  - rewrite bind_assoc. apply bind_ext. intros _ h'. apply IH.
Qed.

Lemma route_lookup_faults env h peering_connection_id route_table route :
  route_VpcPeeringConnectionId route = Some peering_connection_id ->
  DestinationCidrBlock route = None ->
  delete_matching_route peering_connection_id route_table route env h =
    ([], Raised (KeyError "DestinationCidrBlock")).
Proof.
  intros Hid Hcidr. unfold delete_matching_route, route_matches.
  rewrite Hid, String.eqb_refl, Hcidr. reflexivity.
Qed.

Lemma routes_fault env h peering_connection_id route_table before route after :
  no_route_matches peering_connection_id before ->
  route_VpcPeeringConnectionId route = Some peering_connection_id ->
  DestinationCidrBlock route = None ->
  for_each (before ++ route :: after)
    (delete_matching_route peering_connection_id route_table) env h =
    ([], Raised (KeyError "DestinationCidrBlock")).
Proof.
  intros Hb Hid Hcidr. rewrite for_each_app.
  erewrite step_silent by (apply routes_without_match; exact Hb).
  simpl for_each. apply step_raised. apply route_lookup_faults; assumption.
Qed.

Lemma tables_fault env h peering_connection_id before table after
    routes_before route routes_after :
  Forall (fun t => no_route_matches peering_connection_id (Routes t)) before ->
  Routes table = routes_before ++ route :: routes_after ->
  no_route_matches peering_connection_id routes_before ->
  route_VpcPeeringConnectionId route = Some peering_connection_id ->
  DestinationCidrBlock route = None ->
  for_each (before ++ table :: after) (fun route_table =>
      for_each (Routes route_table)
        (delete_matching_route peering_connection_id route_table)) env h =
    ([], Raised (KeyError "DestinationCidrBlock")).
Proof.
  intros Hb Hroutes Hrb Hid Hcidr. rewrite for_each_app.
  erewrite step_silent by (apply tables_without_match; exact Hb).
  simpl for_each. apply step_raised. rewrite Hroutes.
  apply routes_fault; assumption.
Qed.

(** C10. The route cleanup reads DestinationCidrBlock of every route whose
    VpcPeeringConnectionId is the connection being deleted.  When the first
    such route of the answer has no DestinationCidrBlock key, the lookup
    raises KeyError, which nothing catches: the procedure ends with that
    fault, having requested neither delete_route for the route nor
    delete_vpc_peering_connection for the connection.  At any point of a
    run the step on a matching route without the key raises KeyError before
    any request, while the step on a route of another connection, or of
    none, does nothing. *)
Theorem route_without_cidr_faults
  (env : client) (h : trace) (region : string)
  (connections : page VpcPeeringConnection)
  (connection : VpcPeeringConnection) (later_connections : list VpcPeeringConnection)
  (tables : page RouteTable)
  (tables_before tables_after : list RouteTable) (table : RouteTable)
  (routes_before routes_after : list Route) (route : Route) :
  let peering_connection_id := VpcPeeringConnectionId connection in
  let listing_connections :=
    [listed ec2_describe_vpc_peering_connections None connections;
     Logged (deleting_peering_line peering_connection_id region)] in
  env h (List ec2_describe_vpc_peering_connections None) = Ok connections ->
  items connections = connection :: later_connections ->
  env (h ++ listing_connections)
      (List (ec2_describe_route_tables peering_connection_id) None) = Ok tables ->
  items tables = tables_before ++ table :: tables_after ->
  Forall (fun t => no_route_matches peering_connection_id (Routes t)) tables_before ->
  Routes table = routes_before ++ route :: routes_after ->
  no_route_matches peering_connection_id routes_before ->
  route_VpcPeeringConnectionId route = Some peering_connection_id ->
  DestinationCidrBlock route = None ->
  delete_all_peering_connections region env h =
    (listing_connections
       ++ [listed (ec2_describe_route_tables peering_connection_id) None tables],
     Raised (KeyError "DestinationCidrBlock")) /\
  (forall h' route_table matching,
      route_VpcPeeringConnectionId matching = Some peering_connection_id ->
      DestinationCidrBlock matching = None ->
      delete_matching_route peering_connection_id route_table matching env h' =
        ([], Raised (KeyError "DestinationCidrBlock"))) /\
  (forall h' route_table other,
      route_matches peering_connection_id other = false ->
      delete_matching_route peering_connection_id route_table other env h' =
        ([], Done tt)).
Proof.
  intros pcx listing_connections Hc Hitems Ht Htables Hbefore Hroutes Hrbefore Hid Hcidr.
  split; [|split].
  2: { intros h' route_table matching Hm Hn. apply route_lookup_faults; assumption. }
  2: { intros h' route_table other Hm. unfold delete_matching_route. rewrite Hm.
       reflexivity. }
  unfold delete_all_peering_connections.
  rewrite (step_call (List ec2_describe_vpc_peering_connections None) _ env h
             connections Hc). cbv beta iota delta [item]. rewrite Hitems.
  simpl for_each. unfold emitted, ending.
  erewrite step_raised; [reflexivity|].
  unfold delete_peering_connection. fold pcx.
  rewrite step_print. unfold emitted, ending.
  unfold listing_connections, deleting_peering_line in Ht.
  rewrite <- app_assoc. simpl app.
  rewrite (step_call (List (ec2_describe_route_tables pcx) None) _ env _ tables Ht). cbv beta iota delta [item]. unfold emitted, ending.
  erewrite step_raised; [reflexivity|].
  rewrite Htables. eapply tables_fault; eassumption.
Qed.

Lemma route_without_cidr_faults_witness :
  delete_all_peering_connections "cn-north-1" env_ipv6_route [] =
    ([listed ec2_describe_vpc_peering_connections None
        (mkPage [mkVpcPeeringConnection "pcx-1"] None);
      Logged (deleting_peering_line "pcx-1" "cn-north-1");
      listed (ec2_describe_route_tables "pcx-1") None
        (mkPage [mkRouteTable "rtb-1" [ipv6_route]] None)],
     Raised (KeyError "DestinationCidrBlock")).
Proof.
  apply (proj1 (route_without_cidr_faults env_ipv6_route [] "cn-north-1"
           (mkPage [mkVpcPeeringConnection "pcx-1"] None)
           (mkVpcPeeringConnection "pcx-1") []
           (mkPage [mkRouteTable "rtb-1" [ipv6_route]] None)
           [] [] (mkRouteTable "rtb-1" [ipv6_route]) [] [] ipv6_route
           eq_refl eq_refl eq_refl eq_refl (Forall_nil _) eq_refl (Forall_nil _)
           eq_refl eq_refl)).
Defined.

(** ** Splitting a trace at a request *)

Lemma split_app {A} (t1 t2 before after : list A) e :
  t1 ++ t2 = before ++ e :: after ->
  (exists after1, t1 = before ++ e :: after1 /\ after = after1 ++ t2) \/
  (exists before2, t2 = before2 ++ e :: after /\ before = t1 ++ before2).
Proof.
  revert before. induction t1 as [|x t1 IH]; intros before H; simpl in H.
  - right. exists before. auto.
  - destruct before as [|y before]; simpl in H; injection H as -> H.
    + left. exists t1. subst. auto.
    + apply IH in H as [(a1 & -> & ->) | (b2 & -> & ->)].
      * left. exists a1. split; reflexivity.
      * right. exists b2. split; reflexivity.
Qed.

Section Preceded.

Variable good : trace -> request -> Prop.

Lemma preceded_nil : preceded good [].
Proof. intros [|] ? ? ? H; discriminate H. Qed.

Lemma preceded_free t :
  all_requests (fun r => forall before, good before r) t -> preceded good t.
Proof.
  unfold all_requests. intros Hall before e after r -> He. rewrite requests_app in Hall.
  apply Forall_app in Hall as [_ Hall].
  destruct e; try discriminate He. injection He as ->.
  simpl in Hall. inversion Hall; subst. auto.
Qed.

Lemma preceded_app t1 t2 :
  looks_back good -> preceded good t1 -> preceded good t2 -> preceded good (t1 ++ t2).
Proof.
  intros Hlb H1 H2 before e after r Ht He.
  apply split_app in Ht as [(a1 & -> & ->) | (b2 & -> & ->)].
  - eapply H1; eauto.
  - apply Hlb. eapply H2; eauto.
Qed.

Lemma preceded_snoc t e :
  preceded good t -> (forall r, request_of e = Some r -> good t r) ->
  preceded good (t ++ [e]).
Proof.
  intros H1 H2 before e' after r Ht He.
  apply split_app in Ht as [(a1 & -> & ->) | (b2 & Hs & ->)].
  - eapply H1; eauto.
  - destruct b2 as [|? [|? ?]]; try discriminate Hs.
    injection Hs as <- <-. rewrite app_nil_r. auto.
Qed.

Lemma preceded_closed :
  looks_back good ->
  forall t1 t2, preceded good t1 -> preceded good t2 -> preceded good (t1 ++ t2).
Proof. intros Hlb t1 t2. apply preceded_app. exact Hlb. Qed.

End Preceded.

Lemma for_each_uniform {A} (body : A -> M unit) (block : A -> trace) :
  uniform body block ->
  forall xs env h,
    ending (for_each xs body) env h = Done tt ->
    emitted (for_each xs body) env h = flat_map block xs.
Proof.
  intros Hu. induction xs as [|x xs IH]; intros env h Hd; simpl in *.
  - reflexivity.
  - apply ending_bind_done in Hd as ([] & E1 & E2 & ->).
    rewrite (IH _ _ E2), (Hu _ _ _ E1). reflexivity.
Qed.

(** ** C2: node groups are cleared before their cluster is deleted *)

Ltac run_straight env :=
  unfold emitted, ending, bind, print, call, ret in *; cbn in *;
  repeat (match goal with
          | H : context [env ?h ?r] |- _ => destruct (env h r) as [[]|?]; cbn in *
          | |- context [env ?h ?r] => destruct (env h r) as [[]|?]; cbn in *
          end);
  try discriminate; try reflexivity.

Lemma node_group_uniform cluster_name :
  uniform (delete_node_group cluster_name) (node_group_cleared cluster_name).
Proof.
  intros node_group env h Hd. unfold delete_node_group, node_group_cleared in *.
  run_straight env.
Qed.

Lemma eks_cluster_last_looks_back region : looks_back (eks_cluster_last region).
Proof.
  intros earlier before r H c Hr. destruct (H c Hr) as (earlier0 & ngs & ->).
  exists (earlier ++ earlier0), ngs. rewrite <- app_assoc. reflexivity.
Qed.

Ltac other_request :=
  idtac; let H := fresh "H" in intros ? ? H; discriminate H.

Lemma node_groups_free env region cluster_name node_groups :
  holds env (all_requests (fun r => forall before, eks_cluster_last region before r))
    (for_each node_groups (delete_node_group cluster_name)).
Proof. requests_hold_with other_request. Qed.

Lemma delete_eks_cluster_last env region wait cluster_name :
  holds env (preceded (eks_cluster_last region))
    (delete_eks_cluster region wait cluster_name).
Proof.
  intros h. unfold delete_eks_cluster.
  destruct (env h (List (eks_list_nodegroups cluster_name) None)) as [ngs|e] eqn:El.
  - unfold emitted.
    rewrite (step_call (List (eks_list_nodegroups cluster_name) None) _ env h ngs El).
    cbn [fst]. cbv beta iota delta [item].
    set (h1 := h ++ _).
    rewrite emitted_bind.
    match goal with
    | |- context [match ?x with _ => _ end] => destruct x as [[]| |] eqn:Ef
    end.
    + rewrite (for_each_uniform _ _ (node_group_uniform cluster_name) _ _ _ Ef).
      set (cleared := flat_map _ _).
      assert (Hfree : all_requests
                (fun r => forall before, eks_cluster_last region before r)
                (Called (List (eks_list_nodegroups cluster_name) None) (Ok ngs)
                   :: cleared)).
      { apply (all_requests_app _ [_]); [apply all_requests_call; other_request|].
        unfold cleared.
        rewrite <- (for_each_uniform _ _ (node_group_uniform cluster_name) _ _ _ Ef).
        apply node_groups_free. }
      unfold emitted. rewrite step_print. cbn [fst]. cbv beta. unfold emitted.
      set (h2 := (h1 ++ cleared) ++ _).
      assert (Hsplit : forall a tail,
        all_requests (fun r => forall before, eks_cluster_last region before r) tail ->
        preceded (eks_cluster_last region)
          (Called (List (eks_list_nodegroups cluster_name) None) (Ok ngs)
             :: cleared
             ++ Logged (deleting_eks_cluster_line cluster_name region)
             :: Called (eks_delete_cluster cluster_name) a :: tail)).
      { intros a tail Htail.
        replace (Called (List (eks_list_nodegroups cluster_name) None) (Ok ngs)
                   :: cleared
                   ++ Logged (deleting_eks_cluster_line cluster_name region)
                   :: Called (eks_delete_cluster cluster_name) a :: tail)
          with (((Called (List (eks_list_nodegroups cluster_name) None) (Ok ngs)
                    :: cleared
                    ++ [Logged (deleting_eks_cluster_line cluster_name region)])
                   ++ [Called (eks_delete_cluster cluster_name) a]) ++ tail)
          by (simpl; rewrite <- !app_assoc; reflexivity).
        apply preceded_app;
          [apply eks_cluster_last_looks_back | | apply preceded_free; exact Htail].
        apply preceded_snoc.
        - apply preceded_free.
          apply (all_requests_app _ (_ :: cleared) [_]);
            [exact Hfree | apply all_requests_nil].
        - intros r Hr c Hc. simpl in Hr. injection Hr as <-. injection Hc as <-.
          exists [], ngs. reflexivity. }
      destruct (env h2 (eks_delete_cluster cluster_name)) as [[]|e] eqn:Ed.
      * rewrite (step_call (eks_delete_cluster cluster_name) _ env h2 tt Ed).
        cbn [fst]. apply Hsplit.
        destruct wait.
        -- unfold emitted, call; cbn. apply all_requests_call. other_request.
        -- apply all_requests_nil.
      * rewrite (step_call_fault (eks_delete_cluster cluster_name) _ env h2 e Ed).
        cbn [fst]. apply Hsplit. apply all_requests_nil.
    + apply preceded_free. apply (all_requests_app _ [_]);
        [apply all_requests_call; other_request | apply node_groups_free].
    + apply preceded_free. apply (all_requests_app _ [_]);
        [apply all_requests_call; other_request | apply node_groups_free].
  - unfold emitted.
    rewrite (step_call_fault (List (eks_list_nodegroups cluster_name) None) _ env h e El).
    apply preceded_free. apply all_requests_call. other_request.
Qed.

(** C2. Whenever delete_cluster is requested for an EKS cluster, whatever
    the wait flag, the events just before the request are: the listing of
    the node groups of that cluster and, for every node group listed, in
    order, its delete_nodegroup request answered without fault followed by
    its nodegroup_deleted wait, also returned without fault; then the line
    announcing the deletion of the cluster. *)
Theorem eks_node_groups_cleared_before_cluster
  (env : client) (h : trace) (region : string) (wait : bool)
  (before after : trace) (cluster_name : string)
  (a : result (response (eks_delete_cluster cluster_name))) :
  emitted (delete_all_eks_clusters region wait) env h =
    before ++ Called (eks_delete_cluster cluster_name) a :: after ->
  node_groups_cleared region cluster_name before.
Proof.
  intros Hsplit.
  assert (H : holds env (preceded (eks_cluster_last region))
                (delete_all_eks_clusters region wait)).
  { unfold delete_all_eks_clusters.
    apply holds_bind.
    - apply preceded_closed, eks_cluster_last_looks_back.
    - apply holds_call. intros h0. apply preceded_free.
      apply all_requests_call. other_request.
    - intros clusters. apply holds_for_each.
      + apply preceded_nil.
      + apply preceded_closed, eks_cluster_last_looks_back.
      + intros c _. apply delete_eks_cluster_last. }
  exact (H h before _ after _ Hsplit eq_refl cluster_name eq_refl).
Qed.

Lemma eks_node_groups_cleared_before_cluster_witness :
  node_groups_cleared "cn-north-1" "c1"
    [listed eks_list_clusters None (mkPage ["c1"] (Some "page-2"));
     listed (eks_list_nodegroups "c1") None (mkPage ["ng-a"; "ng-b"] None);
     Logged (deleting_node_group_line "ng-a" "c1");
     Called (eks_delete_nodegroup "c1" "ng-a") (Ok tt);
     Called (eks_wait_nodegroup_deleted "c1" "ng-a") (Ok tt);
     Logged (deleting_node_group_line "ng-b" "c1");
     Called (eks_delete_nodegroup "c1" "ng-b") (Ok tt);
     Called (eks_wait_nodegroup_deleted "c1" "ng-b") (Ok tt);
     Logged (deleting_eks_cluster_line "c1" "cn-north-1")].
Proof.
  apply (eks_node_groups_cleared_before_cluster env_eks [] "cn-north-1" false
           _ [] "c1" (Ok tt)).
  reflexivity.
Defined.

(** ** C3: services and tasks before their ECS cluster *)

Lemma paginate_all_pages l (body : item l -> M unit) (block : item l -> trace) :
  uniform body block ->
  forall fuel tok env h,
    ending (paginate fuel l tok (fun pg => for_each (items pg) body)) env h = Done tt ->
    all_pages l block tok
      (emitted (paginate fuel l tok (fun pg => for_each (items pg) body)) env h).
Proof.
  intros Hu. induction fuel as [|n IH]; intros tok env h Hd; simpl in *.
  - discriminate Hd.
  - apply ending_bind_done in Hd as (pg & E1 & Hd & ->).
    apply ending_bind_done in Hd as ([] & E2 & Hd & ->).
    rewrite (for_each_uniform _ _ Hu _ _ _ E2) in *.
    assert (Hc : @emitted (page (item l)) (call (List l tok)) env h = [listed l tok pg]).
    { unfold emitted, ending, call in *. cbn in *.
      destruct (env h (List l tok)); [|discriminate E1].
      injection E1 as ->. reflexivity. }
    rewrite Hc in *. cbn [app].
    destruct (after_page tok pg) as [|t|t] eqn:Et.
    + unfold emitted, ret. cbn. rewrite app_nil_r. apply last_page. exact Et.
    + discriminate Hd.
    + apply next_page with t; [exact Et|]. apply IH. exact Hd.
Qed.

Lemma service_uniform region wait cluster_arn :
  uniform (delete_ecs_service region wait cluster_arn)
          (service_cleared region wait cluster_arn).
Proof.
  intros service_arn env h Hd. unfold delete_ecs_service, service_cleared in *.
  destruct wait; run_straight env.
Qed.

Lemma task_uniform region wait cluster_arn :
  uniform (stop_ecs_task region wait cluster_arn)
          (task_cleared region wait cluster_arn).
Proof.
  intros task_arn env h Hd. unfold stop_ecs_task, task_cleared in *.
  destruct wait; run_straight env.
Qed.

Lemma ecs_cluster_last_looks_back region wait : looks_back (ecs_cluster_last region wait).
Proof.
  intros earlier before r H c Hr.
  destruct (H c Hr) as (earlier0 & services & tasks & -> & Hs & Ht).
  exists (earlier ++ earlier0), services, tasks.
  rewrite <- app_assoc. auto.
Qed.

Section EcsCluster.

Variables (env : client) (fuel : nat) (region : string) (wait : bool).
Variable cluster_arn : string.

Lemma ecs_services_free :
  holds env (all_requests (unconstrained (ecs_cluster_last region wait)))
    (paginate fuel (ecs_list_services cluster_arn) None
       (fun service_page =>
          for_each (items service_page) (delete_ecs_service region wait cluster_arn))).
Proof. requests_hold_with other_request. Qed.

Lemma ecs_tasks_free :
  holds env (all_requests (unconstrained (ecs_cluster_last region wait)))
    (paginate fuel (ecs_list_tasks cluster_arn) None
       (fun task_page =>
          for_each (items task_page) (stop_ecs_task region wait cluster_arn))).
Proof. requests_hold_with other_request. Qed.

Lemma ecs_after_delete_free :
  holds env (all_requests (unconstrained (ecs_cluster_last region wait)))
    (if wait
     then get_waiter ecs_waiter_names "cluster_deleted" ;;
          call (ecs_wait_cluster_deleted [cluster_arn]) ;;
          print (deleted_ecs_cluster_line cluster_arn region)
     else ret tt).
Proof. requests_hold_with other_request. Qed.

Lemma ecs_delete_after_clearing services tasks a tail :
  all_pages (ecs_list_services cluster_arn)
    (service_cleared region wait cluster_arn) None services ->
  all_pages (ecs_list_tasks cluster_arn)
    (task_cleared region wait cluster_arn) None tasks ->
  all_requests (unconstrained (ecs_cluster_last region wait)) services ->
  all_requests (unconstrained (ecs_cluster_last region wait)) tasks ->
  all_requests (unconstrained (ecs_cluster_last region wait)) tail ->
  preceded (ecs_cluster_last region wait)
    (services ++ tasks
       ++ Logged (deleting_ecs_cluster_line cluster_arn region)
       :: Called (ecs_delete_cluster cluster_arn) a :: tail).
Proof.
  intros Hs Ht Fs Ft Ftail.
  replace (services ++ tasks
             ++ Logged (deleting_ecs_cluster_line cluster_arn region)
             :: Called (ecs_delete_cluster cluster_arn) a :: tail)
    with (((services ++ tasks
              ++ [Logged (deleting_ecs_cluster_line cluster_arn region)])
             ++ [Called (ecs_delete_cluster cluster_arn) a]) ++ tail)
    by (rewrite <- !app_assoc; reflexivity).
  apply preceded_app;
    [apply ecs_cluster_last_looks_back | | apply preceded_free; exact Ftail].
  apply preceded_snoc.
  - apply preceded_free. repeat apply all_requests_app; auto. apply all_requests_nil.
  - intros r Hr c Hc. simpl in Hr. injection Hr as <-. injection Hc as <-.
    exists [], services, tasks. auto.
Qed.

Lemma delete_ecs_cluster_last :
  holds env (preceded (ecs_cluster_last region wait))
    (delete_ecs_cluster fuel region wait cluster_arn).
Proof.
  intros h. unfold delete_ecs_cluster.
  rewrite emitted_bind.
  pose proof (ecs_services_free h) as Fs.
  match goal with
  | |- context [match ?x with _ => _ end] => destruct x as [[]| |] eqn:Es
  end; [|apply preceded_free; exact Fs ..].
  apply (paginate_all_pages (ecs_list_services cluster_arn) _ _
           (service_uniform region wait cluster_arn)) in Es.
  remember (emitted (paginate fuel (ecs_list_services cluster_arn) None _) env h)
    as services eqn:Eservices.
  rewrite emitted_bind.
  pose proof (ecs_tasks_free (h ++ services)) as Ft.
  match goal with
  | |- context [match ?x with _ => _ end] => destruct x as [[]| |] eqn:Et
  end; [|apply preceded_free; apply all_requests_app; [exact Fs | exact Ft] ..].
  apply (paginate_all_pages (ecs_list_tasks cluster_arn) _ _
           (task_uniform region wait cluster_arn)) in Et.
  remember (emitted (paginate fuel (ecs_list_tasks cluster_arn) None _) env
              (h ++ services)) as tasks eqn:Etasks.
  unfold emitted at 1. rewrite step_print. cbn [fst]. cbv beta. unfold emitted at 1.
  match goal with
  | |- context [bind (call ?r) ?f env ?h2] =>
      destruct (env h2 r) as [[]|e] eqn:Ed;
      [rewrite (step_call r f env h2 tt Ed) | rewrite (step_call_fault r f env h2 e Ed)]
  end; cbn [fst].
  - apply ecs_delete_after_clearing; auto. apply ecs_after_delete_free.
  - apply ecs_delete_after_clearing; auto. apply all_requests_nil.
Qed.

End EcsCluster.

(** C3, as the code has it.  Whenever delete_cluster is requested for an
    ECS cluster, the events just before the request are: the full listing
    of the services of the cluster, every page of it, where every service
    listed is followed by update_service to a desired count of 0 and
    delete_service with force, both answered without fault; then the full
    listing of its tasks, where every task listed is followed by stop_task
    answered without fault.  When wait is true every service is moreover
    followed by its services_inactive wait and every task by its
    tasks_stopped wait, both completed; when wait is false no such wait is
    requested, so that nothing confirms that the cluster is empty. *)
Theorem ecs_services_and_tasks_cleared_before_cluster
  (env : client) (h : trace) (fuel : nat) (region : string) (wait : bool)
  (before after : trace) (cluster_arn : string)
  (a : result (response (ecs_delete_cluster cluster_arn))) :
  emitted (delete_all_ecs_clusters fuel region wait) env h =
    before ++ Called (ecs_delete_cluster cluster_arn) a :: after ->
  ecs_cluster_emptied region wait cluster_arn before.
Proof.
  intros Hsplit.
  assert (H : holds env (preceded (ecs_cluster_last region wait))
                (delete_all_ecs_clusters fuel region wait)).
  { unfold delete_all_ecs_clusters.
    apply holds_paginate.
    - apply preceded_nil.
    - apply preceded_closed, ecs_cluster_last_looks_back.
    - intros tok h0. apply preceded_free. apply all_requests_call. other_request.
    - intros pg. apply holds_for_each.
      + apply preceded_nil.
      + apply preceded_closed, ecs_cluster_last_looks_back.
      + intros c _. apply delete_ecs_cluster_last. }
  exact (H h before _ after _ Hsplit eq_refl cluster_arn eq_refl).
Qed.

Lemma ecs_services_and_tasks_cleared_before_cluster_witness :
  ecs_cluster_emptied "cn-north-1" true "cluster-1" (ecs_before_delete true).
Proof.
  apply (ecs_services_and_tasks_cleared_before_cluster env_ecs [] 1 "cn-north-1" true
           (ecs_before_delete true) [] "cluster-1" (Ok tt)).
  reflexivity.
Defined.

Lemma In_called_request r a t : In (Called r a) t -> In r (requests t).
Proof.
  induction t as [|e t IH]; simpl; [tauto|].
  intros [->|H]; [left; reflexivity|].
  destruct e; simpl; auto.
Qed.

(** C3, as the specification words it, fails when wait is false: the
    cluster of [env_ecs] is deleted although no waiter has reported its
    service inactive. *)
Lemma ecs_delete_without_wait_leaves_service :
  ~ ecs_nothing_left (emitted (delete_all_ecs_clusters 1 "cn-north-1" false) env_ecs []).
Proof.
  intros H.
  assert (E : emitted (delete_all_ecs_clusters 1 "cn-north-1" false) env_ecs [] =
              ecs_before_delete false
                ++ Called (ecs_delete_cluster "cluster-1") (Ok tt) :: [])
    by reflexivity.
  destruct (H _ _ _ _ E) as [Hs _].
  specialize (Hs None (mkPage ["service-1"] None) "service-1").
  apply In_called_request in Hs.
  - simpl in Hs.
    repeat (destruct Hs as [Hs|Hs]; [discriminate Hs|]). exact Hs.
  - right. left. reflexivity.
  - left. reflexivity.
Qed.

(** ** C1: stacks with termination protection *)

Section Followed.

Variable good : event -> trace -> Prop.

Lemma followed_nil : followed good [].
Proof. intros [|] ? ? H; discriminate H. Qed.

Lemma followed_app t1 t2 :
  looks_ahead good -> followed good t1 -> followed good t2 -> followed good (t1 ++ t2).
Proof.
  intros Hla H1 H2 before e after Ht.
  apply split_app in Ht as [(a1 & -> & ->) | (b2 & -> & ->)].
  - apply Hla. eapply H1; eauto.
  - eapply H2; eauto.
Qed.

Lemma followed_closed :
  looks_ahead good ->
  forall t1 t2, followed good t1 -> followed good t2 -> followed good (t1 ++ t2).
Proof. intros Hla t1 t2. apply followed_app. exact Hla. Qed.

Lemma followed_cons e t : good e t -> followed good t -> followed good (e :: t).
Proof.
  intros He Ht before e' after Hs.
  destruct before as [|x before]; simpl in Hs; injection Hs as -> ->.
  - exact He.
  - eapply Ht; eauto.
Qed.

End Followed.

Lemma skip_follows_looks_ahead region : looks_ahead (skip_follows region).
Proof.
  intros e after later H n s others He Hp.
  destruct (H n s others He Hp) as [l ->]. simpl. eauto.
Qed.

Lemma skip_follows_other region e after :
  (forall stack_name, request_of e <> Some (cfn_describe_stacks stack_name)) ->
  skip_follows region e after.
Proof.
  intros Hne n s others He. subst e. exfalso. apply (Hne n). reflexivity.
Qed.

Ltac not_describe :=
  idtac; apply skip_follows_other; intros ?; simpl; discriminate.

Lemma skip_follows_in_block env region wait stack_name :
  holds env (followed (skip_follows region))
    (delete_unless_protected region wait stack_name).
Proof.
  intros h. unfold delete_unless_protected.
  destruct (env h (cfn_describe_stacks stack_name)) as [[|s others]|e] eqn:Ed;
    unfold emitted.
  - rewrite (step_call (cfn_describe_stacks stack_name) _ env h [] Ed). cbn.
    apply followed_cons; [|apply followed_nil].
    intros n s others He. apply Called_describe_inj in He as [_ He]. discriminate He.
  - rewrite (step_call (cfn_describe_stacks stack_name) _ env h (s :: others) Ed).
    cbn [fst]. cbv beta. unfold subscript0. rewrite emitted_bind. cbn.
    destruct (EnableTerminationProtection s) eqn:Ep.
    + apply followed_cons; [|apply followed_cons; [not_describe | apply followed_nil]].
      intros n s' others' He _. apply Called_describe_inj in He as [<- _].
      cbn. eauto.
    + apply followed_cons.
      * intros n s' others' He Hp. apply Called_describe_inj in He as [_ He].
        injection He as <- _. congruence.
      * unfold emitted, bind, print, call, ret.
        destruct wait; cbn;
          repeat (match goal with
                  | |- context [env ?h' ?r] => destruct (env h' r) as [[]|?]; cbn
                  end);
          repeat (apply followed_cons; [not_describe|]); apply followed_nil.
  - rewrite (step_call_fault (cfn_describe_stacks stack_name) _ env h e Ed). cbn.
    apply followed_cons; [|apply followed_nil].
    intros n s others He. apply Called_describe_inj in He as [_ He]. discriminate He.
Qed.

Lemma delete_unless_protected_skips (env : client) h region wait stack_name stack others :
  env h (cfn_describe_stacks stack_name) = Ok (stack :: others) ->
  EnableTerminationProtection stack = true ->
  delete_unless_protected region wait stack_name env h =
    ([Called (cfn_describe_stacks stack_name) (Ok (stack :: others));
      Logged (skipping_stack_line stack_name region)], Done tt).
Proof.
  intros Hd Hp. unfold delete_unless_protected.
  rewrite (step_call (cfn_describe_stacks stack_name) _ env h (stack :: others) Hd).
  cbv beta. unfold subscript0. unfold emitted, ending.
  rewrite ret_bind. rewrite Hp. reflexivity.
Qed.

Lemma skip_follows_in_procedure env fuel region wait :
  holds env (followed (skip_follows region)) (delete_all_stacks fuel region wait).
Proof.
  assert (Hl : forall f tok h,
             followed (skip_follows region)
               [Called (List (cfn_list_stacks f) tok) (env h (List (cfn_list_stacks f) tok))]).
  { intros f tok h. apply followed_cons; [not_describe | apply followed_nil]. }
  unfold delete_all_stacks, first_pass, general_pass.
  apply holds_bind; [apply followed_closed, skip_follows_looks_ahead | | intros _];
    (apply holds_paginate;
     [ apply followed_nil
     | apply followed_closed, skip_follows_looks_ahead
     | intros tok h; apply Hl
     | intros pg; apply holds_for_each;
       [ apply followed_nil
       | apply followed_closed, skip_follows_looks_ahead
       | intros stack _ ] ]).
  - unfold first_pass_stack. destruct (first_pass_selects _).
    + apply skip_follows_in_block.
    + apply holds_ret, followed_nil.
  - unfold general_pass_stack. destruct (general_pass_selects _).
    + apply skip_follows_in_block.
    + apply holds_ret, followed_nil.
Qed.

Section Protected.

Variable env : client.
Variable protected_name : string.
Hypothesis Hprotected : protected_throughout env protected_name.

Ltac spared_request :=
  idtac;
  let Heq := fresh "Heq" in
  intro Heq; first [discriminate Heq | injection Heq as Heq; contradiction].

Lemma delete_unless_protected_spares region wait stack_name :
  holds env (all_requests (spares protected_name)) (delete_unless_protected region wait stack_name).
Proof.
  intros h. unfold delete_unless_protected.
  destruct (env h (cfn_describe_stacks stack_name)) as [[|s others]|e] eqn:Ed;
    unfold emitted.
  - rewrite (step_call (cfn_describe_stacks stack_name) _ env h [] Ed). cbn.
    apply all_requests_call. spared_request.
  - rewrite (step_call (cfn_describe_stacks stack_name) _ env h (s :: others) Ed).
    cbn [fst]. cbv beta. unfold subscript0. rewrite emitted_bind. cbn [ending ret snd].
    apply (all_requests_app _ [_]); [apply all_requests_call; spared_request|].
    apply (all_requests_app _ []); [apply all_requests_nil|].
    destruct (EnableTerminationProtection s) eqn:Ep.
    + apply all_requests_nil.
    + assert (Hne : stack_name <> protected_name).
      { intros ->. apply Hprotected in Ed. congruence. }
      assert (H : holds env (all_requests (spares protected_name))
                (print (deleting_stack_line stack_name region) ;;
                 call (cfn_delete_stack stack_name) ;;
                 if wait
                 then call (cfn_wait_stack_delete_complete stack_name) ;;
                      print (deleted_stack_line stack_name region)
                 else ret tt))
        by requests_hold_with spared_request.
      apply H.
  - rewrite (step_call_fault (cfn_describe_stacks stack_name) _ env h e Ed). cbn.
    apply all_requests_call. spared_request.
Qed.

Lemma first_pass_spares fuel region wait :
  holds env (all_requests (spares protected_name)) (first_pass fuel region wait).
Proof.
  unfold first_pass. apply holds_paginate;
    [ apply all_requests_nil | apply all_requests_app
    | intros; apply all_requests_call; spared_request | intros pg ].
  apply holds_for_each; [apply all_requests_nil | apply all_requests_app | intros stack _].
  unfold first_pass_stack. destruct (first_pass_selects _).
  - apply delete_unless_protected_spares.
  - apply holds_ret, all_requests_nil.
Qed.

Lemma general_pass_spares fuel region wait :
  holds env (all_requests (spares protected_name)) (general_pass fuel region wait).
Proof.
  unfold general_pass. apply holds_paginate;
    [ apply all_requests_nil | apply all_requests_app
    | intros; apply all_requests_call; spared_request | intros pg ].
  apply holds_for_each; [apply all_requests_nil | apply all_requests_app | intros stack _].
  unfold general_pass_stack. destruct (general_pass_selects _).
  - apply delete_unless_protected_spares.
  - apply holds_ret, all_requests_nil.
Qed.

Lemma spared_not_called t a :
  all_requests (spares protected_name) t -> ~ In (Called (cfn_delete_stack protected_name) a) t.
Proof.
  intros Hall Hin. apply In_called_request in Hin.
  unfold all_requests in Hall. rewrite Forall_forall in Hall.
  exact (Hall _ Hin eq_refl).
Qed.

End Protected.

(** C1. A stack for which describe_stacks reports termination protection
    enabled is never the target of a delete_stack request: not in the
    name-filtered pass, not in the general pass, so not in the whole
    procedure.  Whenever describe_stacks has reported a stack protected,
    the very next event is the line that says the stack is skipped; and the
    step of either pass on such a stack, when the name test of the pass
    selects it, consists of the describe_stacks request and that line. *)
Theorem stacks_with_termination_protection_are_skipped
  (env : client) (stack_name : string)
  (Hprotected : protected_throughout env stack_name)
  (fuel : nat) (region : string) (wait : bool) (h : trace) :
  (forall a, ~ In (Called (cfn_delete_stack stack_name) a)
                  (emitted (first_pass fuel region wait) env h)) /\
  (forall a, ~ In (Called (cfn_delete_stack stack_name) a)
                  (emitted (general_pass fuel region wait) env h)) /\
  (forall a, ~ In (Called (cfn_delete_stack stack_name) a)
                  (emitted (delete_all_stacks fuel region wait) env h)) /\
  (forall before stack others after,
      emitted (delete_all_stacks fuel region wait) env h =
        before ++ Called (cfn_describe_stacks stack_name) (Ok (stack :: others)) :: after ->
      EnableTerminationProtection stack = true ->
      exists later, after = Logged (skipping_stack_line stack_name region) :: later) /\
  (forall h' summary stack others,
      StackName summary = stack_name ->
      env h' (cfn_describe_stacks stack_name) = Ok (stack :: others) ->
      (first_pass_selects stack_name = true ->
       first_pass_stack region wait summary env h' =
         ([Called (cfn_describe_stacks stack_name) (Ok (stack :: others));
           Logged (skipping_stack_line stack_name region)], Done tt)) /\
      (general_pass_selects stack_name = true ->
       general_pass_stack region wait summary env h' =
         ([Called (cfn_describe_stacks stack_name) (Ok (stack :: others));
           Logged (skipping_stack_line stack_name region)], Done tt))).
Proof.
  split; [|split; [|split; [|split]]].
  - intros a. eapply spared_not_called, first_pass_spares, Hprotected.
  - intros a. eapply spared_not_called, general_pass_spares, Hprotected.
  - intros a. eapply spared_not_called.
    unfold delete_all_stacks. apply holds_bind.
    + apply all_requests_app.
    + apply first_pass_spares, Hprotected.
    + intros _. apply general_pass_spares, Hprotected.
  - intros before stack others after Hsplit Hp.
    exact (skip_follows_in_procedure env fuel region wait h _ _ _ Hsplit _ _ _ eq_refl Hp).
  - intros h' summary stack others Hname Hd.
    pose proof (Hprotected _ _ _ Hd) as Hp.
    unfold first_pass_stack, general_pass_stack. rewrite Hname.
    split; intros ->; apply delete_unless_protected_skips; assumption.
Qed.

Lemma env_three_stacks_protects_other_infra :
  protected_throughout env_three_stacks "other-infra".
Proof. intros h stack others H. injection H as <- _. reflexivity. Qed.

Lemma stacks_with_termination_protection_are_skipped_witness :
  protected_throughout env_three_stacks "other-infra" /\
  ~ In (Called (cfn_delete_stack "other-infra") (Ok tt))
       (emitted (delete_all_stacks 1 "cn-north-1" false) env_three_stacks []).
Proof.
  split; [exact env_three_stacks_protects_other_infra|].
  exact (proj1 (proj2 (proj2
           (stacks_with_termination_protection_are_skipped env_three_stacks
              "other-infra" env_three_stacks_protects_other_infra
              1 "cn-north-1" false []))) (Ok tt)).
Defined.

(** The scenario of the specification: AppPipe-prod is deleted in the first
    pass, other-infra is skipped and other-app deleted in the second. *)
Example three_stacks_scenario :
  emitted (delete_all_stacks 1 "cn-north-1" false) env_three_stacks [] =
    [listed (cfn_list_stacks first_pass_status_filter) None (mkPage three_stacks None);
     Called (cfn_describe_stacks "AppPipe-prod") (Ok [mkStack false]);
     Logged (deleting_stack_line "AppPipe-prod" "cn-north-1");
     Called (cfn_delete_stack "AppPipe-prod") (Ok tt);
     listed (cfn_list_stacks general_pass_status_filter) None (mkPage three_stacks None);
     Called (cfn_describe_stacks "other-infra") (Ok [mkStack true]);
     Logged (skipping_stack_line "other-infra" "cn-north-1");
     Called (cfn_describe_stacks "other-app") (Ok [mkStack false]);
     Logged (deleting_stack_line "other-app" "cn-north-1");
     Called (cfn_delete_stack "other-app") (Ok tt)].
Proof. reflexivity. Qed.

(** ** Where the requests of a paginated loop come from *)

Lemma all_requests_at (Q : request -> Prop) before e after r :
  all_requests Q (before ++ e :: after) -> request_of e = Some r -> Q r.
Proof.
  unfold all_requests. rewrite requests_app. intros Hall He.
  apply Forall_app in Hall as [_ Hall].
  destruct e; try discriminate He. injection He as ->.
  simpl in Hall. inversion Hall; subst. assumption.
Qed.

Lemma preceded_cons good e t :
  (forall r, request_of e = Some r -> good [] r) ->
  all_requests (fun r => forall before, good (e :: before) r) t ->
  preceded good (e :: t).
Proof.
  intros He Ht before e' after r Hs Hr.
  destruct before as [|x before]; simpl in Hs; injection Hs as -> ->.
  - apply He. exact Hr.
  - exact (all_requests_at _ _ _ _ _ Ht Hr before).
Qed.

Lemma preceded_weaken (good good' : trace -> request -> Prop) t :
  (forall before r, good before r -> good' before r) ->
  preceded good t -> preceded good' t.
Proof. intros Hw H before e after r Hs Hr. apply Hw. eapply H; eauto. Qed.

Section Provenance.

Variable env : client.
Variable l : listing.
Variable body : item l -> M unit.
Variable Q : item l -> request -> Prop.
Variable good : trace -> request -> Prop.
Hypothesis good_back : looks_back good.
Hypothesis body_Q : forall x, holds env (all_requests (Q x)) (body x).
Hypothesis listing_free : forall tok, good [] (List l tok).
Hypothesis good_listed :
  forall h tok pg x r before,
    env h (List l tok) = Ok pg -> In x (items pg) -> Q x r ->
    good (listed l tok pg :: before) r.

Lemma paginate_provenance fuel :
  forall tok,
    holds env (preceded good)
      (paginate fuel l tok (fun pg => for_each (items pg) body)).
Proof.
  induction fuel as [|n IH]; intros tok h.
  - apply preceded_nil.
  - simpl paginate. unfold emitted.
    destruct (env h (List l tok)) as [pg|e] eqn:E.
    + rewrite (step_call (List l tok) _ env h pg E). cbn [fst]. cbv beta.
      rewrite emitted_bind.
      assert (Hitems :
        holds env (all_requests (fun r => forall before, good (listed l tok pg :: before) r))
          (for_each (items pg) body)).
      { apply holds_for_each; [apply all_requests_nil | apply all_requests_app|].
        intros x Hx. eapply holds_weaken; [|apply (body_Q x)].
        intros t Ht. unfold all_requests in *. eapply Forall_impl; [|exact Ht].
        intros r Hr before. eapply good_listed; eauto. }
      assert (Hfirst : forall r,
                 request_of (Called (List l tok) (Ok pg)) = Some r -> good [] r).
      { intros r Hr. injection Hr as <-. apply listing_free. }
      match goal with
      | |- context [match ?x with _ => _ end] => destruct x as [[]| |]
      end; try (apply preceded_cons; [exact Hfirst | apply Hitems]).
      rewrite app_comm_cons. apply preceded_app; [exact good_back | |].
      * apply preceded_cons; [exact Hfirst | apply Hitems].
      * destruct (after_page tok pg); [apply preceded_nil .. | apply IH].
    + rewrite (step_call_fault (List l tok) _ env h e E). cbn [fst].
      apply preceded_cons; [|apply all_requests_nil].
      intros r Hr. injection Hr as <-. apply listing_free.
Qed.

End Provenance.

(** ** C9: the status filters of the two passes *)

Lemma first_pass_lists env fuel region wait :
  holds env (lists_with first_pass_status_filter) (first_pass fuel region wait).
Proof.
  unfold lists_with.
  requests_hold_with
    ltac:(idtac; let Hr := fresh "Hr" in
          intros ? ? Hr; first [discriminate Hr | injection Hr as <- _; reflexivity]).
Qed.

Lemma general_pass_lists env fuel region wait :
  holds env (lists_with general_pass_status_filter) (general_pass fuel region wait).
Proof.
  unfold lists_with.
  requests_hold_with
    ltac:(idtac; let Hr := fresh "Hr" in
          intros ? ? Hr; first [discriminate Hr | injection Hr as <- _; reflexivity]).
Qed.

Lemma first_pass_stack_deletes env region wait stack :
  holds env
    (all_requests (fun r => forall n, r = cfn_delete_stack n ->
                                      n = StackName stack /\ first_pass_selects n = true))
    (first_pass_stack region wait stack).
Proof.
  unfold first_pass_stack. cbv zeta.
  destruct (first_pass_selects (StackName stack)) eqn:E.
  - requests_hold_with
      ltac:(idtac; let Hr := fresh "Hr" in
            intros ? Hr;
            first [discriminate Hr | injection Hr as <-; split; [reflexivity | assumption]]).
  - apply holds_ret, all_requests_nil.
Qed.

Lemma general_pass_stack_deletes env region wait stack :
  holds env
    (all_requests (fun r => forall n, r = cfn_delete_stack n ->
                                      n = StackName stack /\ general_pass_selects n = true))
    (general_pass_stack region wait stack).
Proof.
  unfold general_pass_stack. cbv zeta.
  destruct (general_pass_selects (StackName stack)) eqn:E.
  - requests_hold_with
      ltac:(idtac; let Hr := fresh "Hr" in
            intros ? Hr;
            first [discriminate Hr | injection Hr as <-; split; [reflexivity | assumption]]).
  - apply holds_ret, all_requests_nil.
Qed.

Lemma deleted_by_pass_looks_back f selects : looks_back (deleted_by_pass f selects).
Proof.
  intros earlier before r H n Hr.
  destruct (H n Hr) as (tok & pg & stack & Hin & Hrest).
  exists tok, pg, stack. split; [|exact Hrest].
  apply in_or_app. right. exact Hin.
Qed.

Section Passes.

Variable env : client.
Hypothesis Hfilter : honours_status_filter env.

Lemma pass_provenance fuel f selects (body : StackSummary -> M unit) :
  (forall stack,
      holds env
        (all_requests (fun r => forall n, r = cfn_delete_stack n ->
                                          n = StackName stack /\ selects n = true))
        (body stack)) ->
  holds env (preceded (deleted_by_pass f selects))
    (paginate fuel (cfn_list_stacks f) None (fun pg => for_each (items pg) body)).
Proof.
  intros Hbody.
  apply (paginate_provenance env (cfn_list_stacks f) body
           (fun stack r => forall n, r = cfn_delete_stack n ->
                                     n = StackName stack /\ selects n = true)).
  - apply deleted_by_pass_looks_back.
  - exact Hbody.
  - intros tok n Hr. discriminate Hr.
  - intros h tok pg stack r before E Hin HQ n Hr.
    destruct (HQ n Hr) as [-> Hsel].
    exists tok, pg, stack. repeat split; auto.
    + left. reflexivity.
    + apply Hfilter in E. rewrite Forall_forall in E. apply E. exact Hin.
Qed.

Lemma first_pass_provenance fuel region wait :
  holds env (preceded deleted_by_some_pass) (first_pass fuel region wait).
Proof.
  intros h. eapply preceded_weaken;
    [|apply (pass_provenance fuel first_pass_status_filter first_pass_selects
               (first_pass_stack region wait) (first_pass_stack_deletes env region wait))].
  intros before r H n Hr. destruct (H n Hr) as (tok & pg & stack & H1 & H2 & H3 & H4 & H5).
  exists first_pass_status_filter, tok, pg, stack.
  split; [exact H1|]. split; [exact H2|]. split; [exact H3|]. split; [exact H4|].
  split; [left; split; [reflexivity | exact H5]|].
  intros _. split; [reflexivity | exact H5].
Qed.

Lemma general_pass_provenance fuel region wait :
  holds env (preceded deleted_by_some_pass) (general_pass fuel region wait).
Proof.
  intros h. eapply preceded_weaken;
    [|apply (pass_provenance fuel general_pass_status_filter general_pass_selects
               (general_pass_stack region wait)
               (general_pass_stack_deletes env region wait))].
  intros before r H n Hr. destruct (H n Hr) as (tok & pg & stack & H1 & H2 & H3 & H4 & H5).
  exists general_pass_status_filter, tok, pg, stack.
  split; [exact H1|]. split; [exact H2|]. split; [exact H3|]. split; [exact H4|].
  split; [right; split; [reflexivity | exact H5]|].
  intros Hfailed. rewrite Hfailed in H4. simpl in H4.
  repeat (destruct H4 as [H4|H4]; [discriminate H4|]). contradiction.
Qed.

Lemma deleted_by_some_pass_looks_back : looks_back deleted_by_some_pass.
Proof.
  intros earlier before r H n Hr.
  destruct (H n Hr) as (f & tok & pg & stack & Hin & Hrest).
  exists f, tok, pg, stack. split; [|exact Hrest].
  apply in_or_app. right. exact Hin.
Qed.

Lemma delete_all_stacks_provenance fuel region wait :
  holds env (preceded deleted_by_some_pass) (delete_all_stacks fuel region wait).
Proof.
  unfold delete_all_stacks. apply holds_bind.
  - apply preceded_closed, deleted_by_some_pass_looks_back.
  - apply first_pass_provenance.
  - intros _. apply general_pass_provenance.
Qed.

End Passes.

(** The passes on a region given by its inventory. *)

Lemma pass_begins_listing (env : client) fuel f (body : page StackSummary -> M unit) h :
  exists a rest,
    emitted (paginate (S fuel) (cfn_list_stacks f) None body) env h =
      Called (List (cfn_list_stacks f) None) a :: rest.
Proof.
  simpl paginate. unfold emitted.
  destruct (env h (List (cfn_list_stacks f) None)) as [pg|e] eqn:E.
  - rewrite (step_call (List (cfn_list_stacks f) None) _ env h pg E). simpl. eauto.
  - rewrite (step_call_fault (List (cfn_list_stacks f) None) _ env h e E). simpl. eauto.
Qed.

Section Inventory.

Variable inventory : list StackSummary.
Variables (region : string) (wait : bool).
Variable selects : string -> bool.

Lemma selected_stack_on_inventory stack h :
  (if selects (StackName stack)
   then delete_unless_protected region wait (StackName stack)
   else ret tt) (env_inventory inventory) h = (pass_block region wait selects stack, Done tt).
Proof.
  unfold pass_block. destruct (selects (StackName stack)); [|reflexivity].
  unfold delete_unless_protected, stack_deleted. destruct wait; reflexivity.
Qed.

Lemma stacks_on_inventory (body : StackSummary -> M unit) :
  (forall stack h, body stack (env_inventory inventory) h = (pass_block region wait selects stack, Done tt)) ->
  forall stacks h,
    for_each stacks body (env_inventory inventory) h = (flat_map (pass_block region wait selects) stacks, Done tt).
Proof.
  intros Hbody. induction stacks as [|stack stacks IH]; intros h; simpl.
  - reflexivity.
  - rewrite (step_done _ _ _ h _ tt (Hbody stack h)).
    unfold emitted, ending. rewrite IH. reflexivity.
Qed.

Lemma pass_on_inventory fuel f (body : StackSummary -> M unit) h :
  (forall stack h, body stack (env_inventory inventory) h = (pass_block region wait selects stack, Done tt)) ->
  paginate (S fuel) (cfn_list_stacks f) None (fun pg => for_each (items pg) body)
    (env_inventory inventory) h =
    (listed (cfn_list_stacks f) None (mkPage (with_status f inventory) None)
       :: flat_map (pass_block region wait selects) (with_status f inventory), Done tt).
Proof.
  intros Hbody. simpl paginate.
  rewrite (step_call (List (cfn_list_stacks f) None) _ (env_inventory inventory) h
             (mkPage (with_status f inventory) None) eq_refl).
  cbn [items]. unfold emitted, ending.
  rewrite (step_done _ _ _ _ _ tt (stacks_on_inventory body Hbody _ _)).
  cbn. rewrite app_nil_r. reflexivity.
Qed.

Lemma deleted_in_block stack_name stacks :
  In (cfn_delete_stack stack_name) (requests (flat_map (pass_block region wait selects) stacks)) <->
  exists stack, In stack stacks /\ StackName stack = stack_name /\
                selects stack_name = true.
Proof.
  induction stacks as [|stack stacks IH]; simpl.
  - split; [tauto | intros (? & [] & _)].
  - rewrite requests_app, in_app_iff, IH. split.
    + intros [H | (s & Hin & Hs)]; [|eauto].
      unfold pass_block in H. destruct (selects (StackName stack)) eqn:Es; [|destruct H].
      unfold stack_deleted in H. rewrite requests_app in H. apply in_app_iff in H.
      destruct H as [H | H].
      * simpl in H. destruct H as [H | [H | []]]; [discriminate H|].
        injection H as <-. eauto.
      * destruct wait; simpl in H; [destruct H as [H | []]; discriminate H | destruct H].
    + intros (s & [<- | Hin] & Hn & Hs); [left | right; eauto].
      unfold pass_block. rewrite Hn, Hs. unfold stack_deleted.
      rewrite requests_app. apply in_or_app. left. simpl. rewrite Hn. auto.
Qed.

End Inventory.

Lemma delete_all_stacks_on_inventory inventory fuel region wait h :
  emitted (delete_all_stacks (S fuel) region wait) (env_inventory inventory) h =
    (listed (cfn_list_stacks first_pass_status_filter) None
       (mkPage (with_status first_pass_status_filter inventory) None)
     :: flat_map (pass_block region wait first_pass_selects)
          (with_status first_pass_status_filter inventory))
    ++ listed (cfn_list_stacks general_pass_status_filter) None
         (mkPage (with_status general_pass_status_filter inventory) None)
    :: flat_map (pass_block region wait general_pass_selects)
         (with_status general_pass_status_filter inventory).
Proof.
  unfold delete_all_stacks, first_pass, general_pass, emitted.
  rewrite (step_done _ _ _ h _ tt
             (pass_on_inventory inventory region wait first_pass_selects fuel
                first_pass_status_filter (first_pass_stack region wait) h
                (selected_stack_on_inventory inventory region wait first_pass_selects))).
  unfold emitted.
  rewrite (pass_on_inventory inventory region wait general_pass_selects fuel
             general_pass_status_filter (general_pass_stack region wait) _
             (selected_stack_on_inventory inventory region wait general_pass_selects)).
  reflexivity.
Qed.

Lemma same_name_same_stack (inventory : list StackSummary) a b :
  NoDup (map StackName inventory) ->
  In a inventory -> In b inventory -> StackName a = StackName b -> a = b.
Proof.
  induction inventory as [|s inventory IH]; simpl; intros Hnd Ha Hb Hn; [destruct Ha|].
  inversion Hnd as [|? ? Hnotin Hnd']; subst.
  destruct Ha as [<- | Ha], Hb as [<- | Hb]; auto.
  - exfalso. apply Hnotin. rewrite Hn. apply in_map. exact Hb.
  - exfalso. apply Hnotin. rewrite <- Hn. apply in_map. exact Ha.
Qed.

Lemma failed_stack_on_inventory inventory fuel region wait h stack :
  NoDup (map StackName inventory) ->
  In stack inventory ->
  StackStatus stack = "DELETE_FAILED" ->
  In (cfn_delete_stack (StackName stack))
     (requests (emitted (delete_all_stacks (S fuel) region wait)
                  (env_inventory inventory) h)) <->
  first_pass_selects (StackName stack) = true.
Proof.
  intros Hnd Hin Hstatus. rewrite delete_all_stacks_on_inventory.
  rewrite requests_app. cbn [requests listed]. rewrite in_app_iff. cbn [In].
  rewrite (deleted_in_block region wait first_pass_selects).
  rewrite (deleted_in_block region wait general_pass_selects).
  split.
  - intros [[H | (s & Hs & Hn & Hsel)] | [H | (s & Hs & Hn & _)]];
      try discriminate H; try exact Hsel.
    exfalso. apply filter_In in Hs as [Hs Hf].
    rewrite (same_name_same_stack inventory s stack Hnd Hs Hin Hn), Hstatus in Hf.
    discriminate Hf.
  - intros Hsel. left. right. exists stack. repeat split; auto.
    apply filter_In. split; [exact Hin|]. rewrite Hstatus. reflexivity.
Qed.

(** C9. The name-filtered pass opens with a list_stacks request for the
    statuses CREATE_COMPLETE, UPDATE_COMPLETE, ROLLBACK_COMPLETE and
    DELETE_FAILED, the general pass with one for the first three only, and
    every later listing request of a pass carries the filter of that pass.
    When list_stacks answers with stacks whose status is in the filter it
    was given, every delete_stack request is for a stack listed before by
    one of the passes and selected by the name test of that pass; if that
    stack was listed with status DELETE_FAILED, the pass is the
    name-filtered one and the name contains AppPipe or AppIngestion.  And on
    a region given by its inventory, where list_stacks filters by status,
    names are distinct and nothing is protected, a stack in DELETE_FAILED
    gets a delete_stack request exactly when its name contains AppPipe or
    AppIngestion. *)
Theorem delete_failed_stack_is_deleted_by_first_pass_only
  (env : client) (fuel : nat) (region : string) (wait : bool) (h : trace) :
  (exists a rest,
      emitted (first_pass (S fuel) region wait) env h =
        Called (List (cfn_list_stacks
                        ["CREATE_COMPLETE"; "UPDATE_COMPLETE"; "ROLLBACK_COMPLETE";
                         "DELETE_FAILED"]) None) a :: rest) /\
  (exists a rest,
      emitted (general_pass (S fuel) region wait) env h =
        Called (List (cfn_list_stacks
                        ["CREATE_COMPLETE"; "UPDATE_COMPLETE"; "ROLLBACK_COMPLETE"])
                     None) a :: rest) /\
  lists_with ["CREATE_COMPLETE"; "UPDATE_COMPLETE"; "ROLLBACK_COMPLETE"; "DELETE_FAILED"]
    (emitted (first_pass fuel region wait) env h) /\
  lists_with ["CREATE_COMPLETE"; "UPDATE_COMPLETE"; "ROLLBACK_COMPLETE"]
    (emitted (general_pass fuel region wait) env h) /\
  (honours_status_filter env ->
   forall before stack_name a after,
     emitted (delete_all_stacks fuel region wait) env h =
       before ++ Called (cfn_delete_stack stack_name) a :: after ->
     deleted_by_some_pass before (cfn_delete_stack stack_name)) /\
  (forall inventory stack,
      NoDup (map StackName inventory) ->
      In stack inventory ->
      StackStatus stack = "DELETE_FAILED" ->
      In (cfn_delete_stack (StackName stack))
         (requests (emitted (delete_all_stacks (S fuel) region wait)
                      (env_inventory inventory) h)) <->
      contains "AppPipe" (StackName stack) || contains "AppIngestion" (StackName stack)
        = true).
Proof.
  split; [apply pass_begins_listing|].
  split; [apply pass_begins_listing|].
  split; [apply first_pass_lists|].
  split; [apply general_pass_lists|].
  split.
  - intros Hfilter before stack_name a after Hsplit.
    exact (delete_all_stacks_provenance env Hfilter fuel region wait h
             before _ after _ Hsplit eq_refl).
  - intros inventory stack. apply failed_stack_on_inventory.
Qed.

Lemma env_inventory_honours_status_filter inventory :
  honours_status_filter (env_inventory inventory).
Proof.
  intros h f tok pg E. injection E as <-. simpl.
  apply Forall_forall. intros stack Hin.
  apply filter_In in Hin as [_ Hin].
  apply existsb_exists in Hin as (status & Hin & Heq).
  apply String.eqb_eq in Heq. rewrite Heq. exact Hin.
Qed.

Lemma delete_failed_stack_is_deleted_by_first_pass_only_witness :
  (In (cfn_delete_stack "AppPipe-old")
      (requests (emitted (delete_all_stacks 1 "cn-north-1" false)
                   (env_inventory failed_inventory) [])) <->
   contains "AppPipe" "AppPipe-old" || contains "AppIngestion" "AppPipe-old" = true) /\
  (In (cfn_delete_stack "legacy")
      (requests (emitted (delete_all_stacks 1 "cn-north-1" false)
                   (env_inventory failed_inventory) [])) <->
   contains "AppPipe" "legacy" || contains "AppIngestion" "legacy" = true).
Proof.
  assert (Hnd : NoDup (map StackName failed_inventory)).
  { simpl. repeat constructor; simpl; intuition discriminate. }
  pose proof (proj2 (proj2 (proj2 (proj2 (proj2
                (delete_failed_stack_is_deleted_by_first_pass_only
                   env_empty 0 "cn-north-1" false [])))))) as H.
  split.
  - apply (H failed_inventory (mkStackSummary "AppPipe-old" "DELETE_FAILED") Hnd);
      [simpl; auto | reflexivity].
  - apply (H failed_inventory (mkStackSummary "legacy" "DELETE_FAILED") Hnd);
      [simpl; auto | reflexivity].
Defined.

(** ** C5: the general pass and the ingestion stacks *)

(** C5 fails on the code.  A stack named AppIngestion-prod is selected by
    the first pass and, since the general pass only tests for AppPipe, by
    the general pass as well: with termination protection the script
    examines and skips it twice. *)
Theorem general_pass_repeats_ingestion_stack :
  first_pass_selects "AppIngestion-prod" = true /\
  general_pass_selects "AppIngestion-prod" = true /\
  emitted (delete_all_stacks 1 "cn-north-1" false) env_ingestion [] =
    [listed (cfn_list_stacks first_pass_status_filter) None (mkPage [ingestion_stack] None);
     Called (cfn_describe_stacks "AppIngestion-prod") (Ok [mkStack true]);
     Logged (skipping_stack_line "AppIngestion-prod" "cn-north-1");
     listed (cfn_list_stacks general_pass_status_filter) None (mkPage [ingestion_stack] None);
     Called (cfn_describe_stacks "AppIngestion-prod") (Ok [mkStack true]);
     Logged (skipping_stack_line "AppIngestion-prod" "cn-north-1")].
Proof. repeat split. Qed.

(** Without protection, and while list_stacks still reports the stack, the
    general pass requests its deletion a second time. *)
Example general_pass_deletes_ingestion_stack_again :
  requests (emitted (delete_all_stacks 1 "cn-north-1" false)
              (env_inventory [ingestion_stack]) []) =
    [List (cfn_list_stacks first_pass_status_filter) None;
     cfn_describe_stacks "AppIngestion-prod";
     cfn_delete_stack "AppIngestion-prod";
     List (cfn_list_stacks general_pass_status_filter) None;
     cfn_describe_stacks "AppIngestion-prod";
     cfn_delete_stack "AppIngestion-prod"].
Proof. reflexivity. Qed.

(** ** C7: listings read without a paginator *)

(** C7 fails on the code.  list_clusters of EKS is requested once; the
    cluster c2, which the second page of the listing holds, is never asked
    for and receives no delete_cluster request. *)
Theorem eks_second_page_is_never_requested :
  env_eks [] (List eks_list_clusters (Some "page-2")) = Ok (mkPage ["c2"] None) /\
  requests (emitted (delete_all_eks_clusters "cn-north-1" false) env_eks []) =
    [List eks_list_clusters None;
     List (eks_list_nodegroups "c1") None;
     eks_delete_nodegroup "c1" "ng-a";
     eks_wait_nodegroup_deleted "c1" "ng-a";
     eks_delete_nodegroup "c1" "ng-b";
     eks_wait_nodegroup_deleted "c1" "ng-b";
     eks_delete_cluster "c1"] /\
  ~ In (eks_delete_cluster "c2")
       (requests (emitted (delete_all_eks_clusters "cn-north-1" false) env_eks [])).
Proof.
  split; [reflexivity|]. split; [reflexivity|].
  simpl. intros H. repeat (destruct H as [H|H]; [discriminate H|]). exact H.
Qed.

Lemma auto_scaling_group_uniform region :
  uniform (delete_auto_scaling_group region) (auto_scaling_group_deleted region).
Proof.
  intros asg env h Hd. unfold delete_auto_scaling_group, auto_scaling_group_deleted in *.
  run_straight env.
Qed.

(** The procedures that iterate a paginator do request every page: a run
    of the Auto Scaling teardown that returns has followed the tokens to
    the last page and deleted every group of every page. *)
Lemma auto_scaling_groups_all_pages fuel region env h :
  ending (delete_all_auto_scaling_groups fuel region) env h = Done tt ->
  all_pages autoscaling_describe_auto_scaling_groups
    (auto_scaling_group_deleted region) None
    (emitted (delete_all_auto_scaling_groups fuel region) env h).
Proof.
  apply (paginate_all_pages autoscaling_describe_auto_scaling_groups
           (delete_auto_scaling_group region) (auto_scaling_group_deleted region)
           (auto_scaling_group_uniform region)).
Qed.

(** * Further properties of the script *)

(** ** Rules for [ends] *)

Lemma fate_raised {A} (o : outcome A) e : fate o = Raised e -> o = Raised e.
Proof. destruct o; simpl; intros H; try discriminate H. injection H as ->. reflexivity. Qed.

Lemma fate_bind {A B} (m : M A) (f : A -> M B) env h :
  fate (ending (bind m f) env h) =
  match ending m env h with
  | Done a => fate (ending (f a) env (h ++ emitted m env h))
  | Raised e => Raised e
  | OutOfFuel => OutOfFuel
  end.
Proof. rewrite ending_bind. destruct (ending m env h); reflexivity. Qed.

Section Ends.

Variable env : client.
Variable R : trace -> outcome unit -> Prop.
Hypothesis R_nil : R [] (Done tt).
Hypothesis R_seq : forall t1 t2 o, R t1 (Done tt) -> R t2 o -> R (t1 ++ t2) o.

Lemma ends_ret {A} (a : A) : ends env R (ret a).
Proof. intros h. exact R_nil. Qed.

Lemma ends_raise {A} e : R [] (Raised e) -> ends env R (@raise A e).
Proof. intros H h. exact H. Qed.

Lemma ends_out_of_fuel {A} : R [] OutOfFuel -> ends env R (@out_of_fuel A).
Proof. intros H h. exact H. Qed.

Lemma ends_print line : R [Logged line] (Done tt) -> ends env R (print line).
Proof. intros H h. exact H. Qed.

Lemma ends_sleep secs : R [Slept secs] (Done tt) -> ends env R (sleep secs).
Proof. intros H h. exact H. Qed.

Lemma ends_call r :
  (forall a : result (response r),
      R [Called r a] (match a with Ok _ => Done tt | Err e => Raised e end)) ->
  ends env R (call r).
Proof.
  intros H h. unfold emitted, ending, call. cbn.
  specialize (H (env h r)). destruct (env h r); exact H.
Qed.

Lemma ends_try_call r :
  (forall a : result (response r), R [Called r a] (Done tt)) ->
  ends env R (try_except (call r)).
Proof.
  intros H h. unfold emitted, ending, try_except, call. cbn.
  specialize (H (env h r)). destruct (env h r); exact H.
Qed.

Lemma ends_bind {A B} (m : M A) (f : A -> M B) :
  ends env R m -> (forall a, ends env R (f a)) -> ends env R (bind m f).
Proof.
  intros Hm Hf h. rewrite emitted_bind, fate_bind.
  specialize (Hm h). destruct (ending m env h); simpl in Hm; auto.
  apply R_seq; auto. apply Hf.
Qed.

Lemma ends_for_each {A} (xs : list A) (body : A -> M unit) :
  (forall x, In x xs -> ends env R (body x)) -> ends env R (for_each xs body).
Proof.
  induction xs as [|x xs IH]; intros Hb; simpl.
  - apply ends_ret.
  - apply ends_bind; [apply Hb; left; reflexivity|].
    intros _. apply IH. intros y Hy. apply Hb. right. exact Hy.
Qed.

Lemma ends_paginate fuel l (body : page (item l) -> M unit) :
  R [] OutOfFuel ->
  (forall t, R [] (Raised (PaginationError (same_token_message l t)))) ->
  (forall tok, ends env R (call (List l tok))) ->
  (forall pg, ends env R (body pg)) ->
  forall tok, ends env R (paginate fuel l tok body).
Proof.
  intros Ho Hr Hl Hb. induction fuel as [|n IH]; intros tok; simpl.
  - apply ends_out_of_fuel. exact Ho.
  - apply ends_bind; [apply Hl|].
    intros pg. apply ends_bind; [apply Hb|].
    intros _. destruct (after_page tok pg);
      [apply ends_ret | apply ends_raise; apply Hr | apply IH].
Qed.

Lemma ends_get_waiter names waiter_name :
  R [] (Raised (ValueError ("Waiter does not exist: " ++ waiter_name))) ->
  ends env R (get_waiter names waiter_name).
Proof.
  intros H. unfold get_waiter.
  destruct (existsb _ names); [apply ends_ret | apply ends_raise; exact H].
Qed.

Lemma ends_subscript0 {A} (xs : list A) :
  R [] (Raised IndexError) -> ends env R (subscript0 xs).
Proof. intros H. destruct xs; [apply ends_raise; exact H | apply ends_ret]. Qed.

Lemma ends_subscript {A} (v : option A) key :
  R [] (Raised (KeyError key)) -> ends env R (subscript v key).
Proof. intros H. destruct v; [apply ends_ret | apply ends_raise; exact H]. Qed.

End Ends.

(** ** Faults end the run *)

Lemma Called_request r r' (a : result (response r)) (b : result (response r')) :
  Called r a = Called r' b -> r = r'.
Proof. intros H. apply (f_equal request_of) in H. injection H as H. exact H. Qed.

Lemma singleton_split {A} (x e : A) before after :
  [x] = before ++ e :: after -> before = [] /\ x = e /\ after = [].
Proof.
  destruct before as [|y before]; simpl; intros H.
  - injection H as -> <-. auto.
  - injection H as _ H. destruct before; discriminate H.
Qed.

Lemma faults_nil o : fault_is_last [] o.
Proof. intros [|] ? ? ? H; discriminate H. Qed.

Lemma faults_silent e : request_of e = None -> fault_is_last [e] (Done tt).
Proof.
  intros He before r x after H _. apply singleton_split in H as (_ & -> & _).
  discriminate He.
Qed.

Lemma faults_call r (a : result (response r)) :
  fault_is_last [Called r a] (match a with Ok _ => Done tt | Err e => Raised e end).
Proof.
  intros before r' e after H _. apply singleton_split in H as (_ & H & ->).
  pose proof (Called_request _ _ _ _ H) as <-. apply Called_inj in H. subst a.
  auto.
Qed.

Lemma faults_caught_call r (a : result (response r)) :
  caught r = true -> fault_is_last [Called r a] (Done tt).
Proof.
  intros Hr before r' e after H Hc. apply singleton_split in H as (_ & H & _).
  pose proof (Called_request _ _ _ _ H) as <-. congruence.
Qed.

Lemma faults_seq t1 t2 o :
  fault_is_last t1 (Done tt) -> fault_is_last t2 o -> fault_is_last (t1 ++ t2) o.
Proof.
  intros L1 L2 before r e after H Hc.
  apply split_app in H as [(a1 & -> & ->) | (b2 & -> & ->)].
  - destruct (L1 _ _ _ _ eq_refl Hc) as [_ H]. discriminate H.
  - exact (L2 _ _ _ _ eq_refl Hc).
Qed.

Ltac faults_step :=
  lazymatch goal with
  | |- ends _ _ (ret _) => apply ends_ret; apply faults_nil
  | |- ends _ _ (print _) => apply ends_print; apply faults_silent; reflexivity
  | |- ends _ _ (sleep _) => apply ends_sleep; apply faults_silent; reflexivity
  | |- ends _ _ (call _) =>
      apply ends_call; intros; apply faults_call
  | |- ends _ _ (try_except (call _)) =>
      apply ends_try_call; intros; apply faults_caught_call; reflexivity
  | |- ends _ _ (bind _ _) =>
      apply ends_bind; [apply faults_seq | | intros]
  | |- ends _ _ (for_each _ _) =>
      apply ends_for_each; [apply faults_nil | apply faults_seq | intros]
  | |- ends _ _ (paginate _ _ _ _) =>
      apply ends_paginate;
      [ apply faults_nil | apply faults_seq | apply faults_nil
      | intros; apply faults_nil
      | intros; apply ends_call; intros; apply faults_call
      | intros ]
  | |- ends _ _ (subscript0 _) =>
      apply ends_subscript0; [apply faults_nil | apply faults_nil]
  | |- ends _ _ (subscript _ _) =>
      apply ends_subscript; [apply faults_nil | apply faults_nil]
  | |- ends _ _ (get_waiter _ _) =>
      apply ends_get_waiter; [apply faults_nil | apply faults_nil]
  | |- ends _ _ (if ?b then _ else _) => destruct b
  end.

Ltac faults_hold := autounfold with procs; cbv zeta; repeat faults_step.

Lemma poll_function_gone_faults env n region function_name :
  ends env fault_is_last (poll_function_gone n region function_name).
Proof.
  induction n as [|n IH]; simpl.
  - apply ends_out_of_fuel. apply faults_nil.
  - apply ends_bind; [apply faults_seq | faults_hold |].
    intros [[]|e].
    + faults_hold. exact IH.
    + destruct e; faults_hold.
Qed.

Lemma procedure_faults env fuel region wait p :
  ends env fault_is_last (run_procedure fuel region wait p).
Proof.
  destruct p; unfold run_procedure; faults_hold.
  apply poll_function_gone_faults.
Qed.

Lemma main_faults env fuel : ends env fault_is_last (main fuel).
Proof.
  unfold main; cbv zeta.
  apply ends_bind; [apply faults_seq | apply (procedure_faults env fuel _ false AutoScalingGroups) | intros _].
  apply ends_bind; [apply faults_seq | apply (procedure_faults env fuel _ true EcsClusters) | intros _].
  apply ends_bind; [apply faults_seq | apply (procedure_faults env fuel _ false Ec2Instances) | intros _].
  apply ends_bind; [apply faults_seq | apply (procedure_faults env fuel _ false LambdaFunctions) | intros _].
  apply ends_bind; [apply faults_seq | apply (procedure_faults env fuel _ false PeeringConnections) | intros _].
  apply ends_bind; [apply faults_seq | apply (procedure_faults env fuel _ false OpenSearchClusters) | intros _].
  apply ends_bind; [apply faults_seq | apply (procedure_faults env fuel _ false KinesisStreams) | intros _].
  apply ends_bind; [apply faults_seq | apply (procedure_faults env fuel _ false EksClusters) | intros _].
  apply (procedure_faults env fuel _ false Stacks).
Qed.

Lemma entry_point_faults env fuel m :
  entry_point fuel m -> ends env fault_is_last m.
Proof.
  intros [-> | (region & wait & p & ->)].
  - apply main_faults.
  - apply procedure_faults.
Qed.

(** X1. Nothing in the script catches the fault of a request, except the
    poll of the Lambda teardown: in a run of the driver, or of any
    procedure on its own, a request other than get_function that is
    answered with a fault is the last event of the run, and the run ends
    with that exception. *)
Theorem uncaught_fault_ends_the_run
  (env : client) (fuel : nat) (m : M unit) (h : trace)
  (before after : trace) (r : request) (e : exn) :
  entry_point fuel m ->
  emitted m env h = before ++ Called r (Err e) :: after ->
  caught r = false ->
  after = [] /\ ending m env h = Raised e.
Proof.
  intros Hm Hsplit Hc.
  destruct (entry_point_faults env fuel m Hm h _ _ _ _ Hsplit Hc) as [Ha Ho].
  split; [exact Ha | apply fate_raised; exact Ho].
Qed.

Lemma uncaught_fault_ends_the_run_witness :
  emitted (main 1) (env_asg true) [] =
    [listed autoscaling_describe_auto_scaling_groups None
       (mkPage [mkAutoScalingGroup "asg-1"] (Some "page-2"));
     Logged "Deleting Auto Scaling group: asg-1 in region cn-north-1"]
    ++ Called (autoscaling_delete_auto_scaling_group "asg-1" true) (Err access_denied)
    :: [] /\
  ([] = @nil event /\ ending (main 1) (env_asg true) [] = Raised access_denied).
Proof.
  assert (E : emitted (main 1) (env_asg true) [] =
    [listed autoscaling_describe_auto_scaling_groups None
       (mkPage [mkAutoScalingGroup "asg-1"] (Some "page-2"));
     Logged "Deleting Auto Scaling group: asg-1 in region cn-north-1"]
    ++ Called (autoscaling_delete_auto_scaling_group "asg-1" true) (Err access_denied)
    :: []) by reflexivity.
  split; [exact E|].
  exact (uncaught_fault_ends_the_run (env_asg true) 1 (main 1) [] _ []
           (autoscaling_delete_auto_scaling_group "asg-1" true) access_denied
           (or_introl eq_refl) E eq_refl).
Defined.

(** ** Runs that return *)

Lemma call_done {B} r (f : response r -> M B) (env : client) h b :
  ending (bind (call r) f) env h = Done b ->
  exists v, env h r = Ok v /\
            emitted (bind (call r) f) env h =
              Called r (Ok v) :: emitted (f v) env (h ++ [Called r (Ok v)]) /\
            ending (f v) env (h ++ [Called r (Ok v)]) = Done b.
Proof.
  intros Hd. destruct (env h r) as [v|e] eqn:E.
  - exists v. unfold emitted, ending in *. rewrite (step_call r f env h v E) in *.
    auto.
  - unfold ending in Hd. rewrite (step_call_fault r f env h e E) in Hd. discriminate Hd.
Qed.

(** X3. A run of the Auto Scaling teardown that returns has requested
    every page of describe_auto_scaling_groups, each with the token of the
    page before, and has deleted every group of every page, with
    ForceDelete, in the order of the listing. *)
Theorem auto_scaling_teardown_deletes_every_group
  (env : client) (fuel : nat) (region : string) (h : trace) :
  ending (delete_all_auto_scaling_groups fuel region) env h = Done tt ->
  all_pages autoscaling_describe_auto_scaling_groups
    (auto_scaling_group_deleted region) None
    (emitted (delete_all_auto_scaling_groups fuel region) env h).
Proof.
  apply (paginate_all_pages autoscaling_describe_auto_scaling_groups
           (delete_auto_scaling_group region) (auto_scaling_group_deleted region)
           (auto_scaling_group_uniform region)).
Qed.

Lemma auto_scaling_teardown_deletes_every_group_witness :
  ending (delete_all_auto_scaling_groups 2 "cn-north-1") (env_asg false) [] = Done tt /\
  all_pages autoscaling_describe_auto_scaling_groups
    (auto_scaling_group_deleted "cn-north-1") None
    (emitted (delete_all_auto_scaling_groups 2 "cn-north-1") (env_asg false) []).
Proof.
  assert (E : ending (delete_all_auto_scaling_groups 2 "cn-north-1") (env_asg false) []
              = Done tt) by reflexivity.
  split; [exact E|].
  exact (auto_scaling_teardown_deletes_every_group (env_asg false) 2 "cn-north-1" [] E).
Defined.

Lemma instance_uniform region wait :
  uniform (terminate_instance region wait) (instance_terminated region wait).
Proof.
  intros instance env h Hd. unfold terminate_instance, instance_terminated in *.
  destruct wait; run_straight env.
Qed.

Lemma reservation_uniform region wait :
  uniform (fun reservation : Reservation =>
             for_each (Instances reservation) (terminate_instance region wait))
          (reservation_terminated region wait).
Proof.
  intros reservation env h Hd.
  exact (for_each_uniform _ _ (instance_uniform region wait) _ _ _ Hd).
Qed.

(** X4. A run of the EC2 teardown that returns has requested every page
    of describe_instances and has terminated every instance of every
    reservation of every page, one instance id to a request; with wait
    each termination is followed by the instance_terminated wait for that
    instance before the next instance is terminated, without wait no
    waiter is requested. *)
Theorem ec2_teardown_terminates_every_instance
  (env : client) (fuel : nat) (region : string) (wait : bool) (h : trace) :
  ending (terminate_all_ec2_instances fuel region wait) env h = Done tt ->
  all_pages ec2_describe_instances (reservation_terminated region wait) None
    (emitted (terminate_all_ec2_instances fuel region wait) env h).
Proof.
  apply (paginate_all_pages ec2_describe_instances _ _ (reservation_uniform region wait)).
Qed.

Lemma ec2_teardown_terminates_every_instance_witness :
  ending (terminate_all_ec2_instances 1 "cn-north-1" true) env_mixed [] = Done tt /\
  all_pages ec2_describe_instances (reservation_terminated "cn-north-1" true) None
    (emitted (terminate_all_ec2_instances 1 "cn-north-1" true) env_mixed []).
Proof.
  assert (E : ending (terminate_all_ec2_instances 1 "cn-north-1" true) env_mixed []
              = Done tt) by reflexivity.
  split; [exact E|].
  exact (ec2_teardown_terminates_every_instance env_mixed 1 "cn-north-1" true [] E).
Defined.

Lemma domain_uniform region :
  uniform (delete_opensearch_cluster region) (domain_deleted region).
Proof.
  intros cluster env h Hd. unfold delete_opensearch_cluster, domain_deleted in *.
  run_straight env.
Qed.

(** X5. A run of the OpenSearch teardown that returns consists of the one
    list_domain_names request and, for every domain of its answer, in
    order, the delete_domain request between its two lines. *)
Theorem opensearch_teardown_deletes_every_domain
  (env : client) (region : string) (h : trace) :
  ending (delete_all_opensearch_clusters region) env h = Done tt ->
  exists clusters,
    env h opensearch_list_domain_names = Ok clusters /\
    emitted (delete_all_opensearch_clusters region) env h =
      Called opensearch_list_domain_names (Ok clusters)
      :: flat_map (domain_deleted region) clusters.
Proof.
  unfold delete_all_opensearch_clusters. intros Hd.
  apply call_done in Hd as (clusters & E & -> & Hd).
  exists clusters. split; [exact E|]. f_equal.
  exact (for_each_uniform _ _ (domain_uniform region) _ _ _ Hd).
Qed.

Lemma opensearch_teardown_deletes_every_domain_witness :
  ending (delete_all_opensearch_clusters "cn-north-1") env_mixed [] = Done tt /\
  exists clusters,
    env_mixed [] opensearch_list_domain_names = Ok clusters /\
    emitted (delete_all_opensearch_clusters "cn-north-1") env_mixed [] =
      Called opensearch_list_domain_names (Ok clusters)
      :: flat_map (domain_deleted "cn-north-1") clusters.
Proof.
  assert (E : ending (delete_all_opensearch_clusters "cn-north-1") env_mixed [] = Done tt)
    by reflexivity.
  split; [exact E|].
  exact (opensearch_teardown_deletes_every_domain env_mixed "cn-north-1" [] E).
Defined.

Lemma data_stream_uniform region :
  uniform (delete_data_stream region) (data_stream_deleted region).
Proof.
  intros stream_name env h Hd. unfold delete_data_stream, data_stream_deleted in *.
  run_straight env.
Qed.

Lemma firehose_stream_uniform region :
  uniform (delete_firehose_stream region) (firehose_stream_deleted region).
Proof.
  intros stream_name env h Hd. unfold delete_firehose_stream, firehose_stream_deleted in *.
  run_straight env.
Qed.

(** X6. A run of the streaming teardown that returns has deleted every
    data stream of the answer of list_streams, with
    EnforceConsumerDeletion, before it lists the delivery streams, and then
    every delivery stream of the answer of list_delivery_streams. *)
Theorem kinesis_teardown_deletes_data_streams_first
  (env : client) (region : string) (h : trace) :
  ending (delete_all_kinesis_streams region) env h = Done tt ->
  exists data_streams firehose_streams,
    emitted (delete_all_kinesis_streams region) env h =
      listed kinesis_list_streams None data_streams
      :: flat_map (data_stream_deleted region) (items data_streams)
      ++ listed firehose_list_delivery_streams None firehose_streams
      :: flat_map (firehose_stream_deleted region) (items firehose_streams).
Proof.
  unfold delete_all_kinesis_streams. intros Hd.
  apply (call_done (List kinesis_list_streams None)) in Hd as (ds & _ & -> & Hd).
  cbv beta in Hd |- *.
  apply ending_bind_done in Hd as ([] & E1 & Hd & ->).
  apply (call_done (List firehose_list_delivery_streams None)) in Hd as (fs & _ & -> & Hd).
  exists ds, fs. unfold listed. f_equal. apply f_equal2.
  - exact (for_each_uniform _ _ (data_stream_uniform region) _ _ _ E1).
  - f_equal. exact (for_each_uniform _ _ (firehose_stream_uniform region) _ _ _ Hd).
Qed.

Lemma kinesis_teardown_deletes_data_streams_first_witness :
  ending (delete_all_kinesis_streams "cn-north-1") env_mixed [] = Done tt /\
  exists data_streams firehose_streams,
    emitted (delete_all_kinesis_streams "cn-north-1") env_mixed [] =
      listed kinesis_list_streams None data_streams
      :: flat_map (data_stream_deleted "cn-north-1") (items data_streams)
      ++ listed firehose_list_delivery_streams None firehose_streams
      :: flat_map (firehose_stream_deleted "cn-north-1") (items firehose_streams).
Proof.
  assert (E : ending (delete_all_kinesis_streams "cn-north-1") env_mixed [] = Done tt)
    by reflexivity.
  split; [exact E|].
  exact (kinesis_teardown_deletes_data_streams_first env_mixed "cn-north-1" [] E).
Defined.

(** ** What the script never requests *)

Lemma poll_function_gone_all_requests (Q : request -> Prop) env n region function_name :
  Q (lambda_get_function function_name) ->
  holds env (all_requests Q) (poll_function_gone n region function_name).
Proof.
  intros HQ. induction n as [|n IH]; simpl.
  - apply holds_out_of_fuel. apply all_requests_nil.
  - apply holds_bind; [apply all_requests_app | |].
    + apply holds_try_except. apply holds_call. intros h.
      apply all_requests_call. exact HQ.
    + intros [[]|e].
      * apply holds_bind; [apply all_requests_app | | intros _; exact IH].
        apply holds_sleep, all_requests_nil.
      * destruct e; apply holds_print, all_requests_nil.
Qed.

Lemma entry_point_requests (Q : request -> Prop) env fuel m :
  (forall region wait p, holds env (all_requests Q) (run_procedure fuel region wait p)) ->
  entry_point fuel m ->
  holds env (all_requests Q) m.
Proof.
  intros Hp [-> | (region & wait & p & ->)]; [|apply Hp].
  unfold main; cbv zeta.
  apply holds_bind; [apply all_requests_app | apply (Hp _ false AutoScalingGroups) | intros _].
  apply holds_bind; [apply all_requests_app | apply (Hp _ true EcsClusters) | intros _].
  apply holds_bind; [apply all_requests_app | apply (Hp _ false Ec2Instances) | intros _].
  apply holds_bind; [apply all_requests_app | apply (Hp _ false LambdaFunctions) | intros _].
  apply holds_bind; [apply all_requests_app | apply (Hp _ false PeeringConnections) | intros _].
  apply holds_bind; [apply all_requests_app | apply (Hp _ false OpenSearchClusters) | intros _].
  apply holds_bind; [apply all_requests_app | apply (Hp _ false KinesisStreams) | intros _].
  apply holds_bind; [apply all_requests_app | apply (Hp _ false EksClusters) | intros _].
  apply (Hp _ false Stacks).
Qed.

Ltac first_page :=
  idtac;
  let Hr := fresh "Hr" in
  let Hp := fresh "Hp" in
  intros ? ? Hr Hp;
  first [ discriminate Hr
        | injection Hr as <- <-; first [discriminate Hp | reflexivity] ].

(** X7. The procedures that do not iterate a paginator never ask for a
    second page: in a run of the driver, or of any procedure on its own,
    every listing of EKS clusters, EKS node groups, peering connections,
    route tables, Kinesis streams and Firehose delivery streams is
    requested without a continuation token. *)
Theorem unpaginated_listings_never_carry_a_token
  (env : client) (fuel : nat) (m : M unit) (h : trace) :
  entry_point fuel m ->
  all_requests first_page_only (emitted m env h).
Proof.
  intros Hm. apply (entry_point_requests first_page_only env fuel m); [|exact Hm].
  intros region wait p. destruct p; unfold run_procedure;
    requests_hold_with first_page.
  apply poll_function_gone_all_requests. first_page.
Qed.

Lemma unpaginated_listings_never_carry_a_token_witness :
  all_requests first_page_only
    (emitted (delete_all_eks_clusters "cn-north-1" false) env_eks []).
Proof.
  apply (unpaginated_listings_never_carry_a_token env_eks 0
           (delete_all_eks_clusters "cn-north-1" false) []).
  right. exists "cn-north-1", false, EksClusters. reflexivity.
Defined.

Ltac fixed := idtac; simpl; first [reflexivity | exact I].

(** X8. In a run of the driver, or of any procedure on its own, every
    Auto Scaling group is deleted with ForceDelete, every data stream with
    EnforceConsumerDeletion, every ECS service is updated to a desired
    count of 0 and deleted with force, and terminate_instances and the
    waiters of EC2 and ECS are given exactly one resource. *)
Theorem deletions_are_forced
  (env : client) (fuel : nat) (m : M unit) (h : trace) :
  entry_point fuel m ->
  all_requests fixed_arguments (emitted m env h).
Proof.
  intros Hm. apply (entry_point_requests fixed_arguments env fuel m); [|exact Hm].
  intros region wait p. destruct p; unfold run_procedure;
    requests_hold_with fixed.
  apply poll_function_gone_all_requests. fixed.
Qed.

Lemma deletions_are_forced_witness :
  all_requests fixed_arguments (emitted (main 2) (env_asg false) []).
Proof.
  apply (deletions_are_forced (env_asg false) 2 (main 2) []).
  left. reflexivity.
Defined.

(** The name tests of the two passes. *)

Ltac selected :=
  idtac;
  let Hn := fresh "Hn" in
  intros ? Hn; simpl in Hn;
  first [discriminate Hn | injection Hn as <-; assumption].

(** X9. The name-filtered pass describes, deletes and waits for no stack
    whose name contains neither AppPipe nor AppIngestion, and the general
    pass for no stack whose name contains AppPipe. *)
Theorem passes_touch_only_the_stacks_they_select
  (env : client) (fuel : nat) (region : string) (wait : bool) (h : trace) :
  all_requests (targets_only first_pass_selects)
    (emitted (first_pass fuel region wait) env h) /\
  all_requests (targets_only general_pass_selects)
    (emitted (general_pass fuel region wait) env h).
Proof.
  split.
  - unfold first_pass. apply holds_paginate;
      [ apply all_requests_nil | apply all_requests_app
      | intros; apply all_requests_call; selected | intros pg ].
    apply holds_for_each; [apply all_requests_nil | apply all_requests_app | intros stack _].
    unfold first_pass_stack; cbv zeta.
    destruct (first_pass_selects (StackName stack)) eqn:E.
    + requests_hold_with selected.
    + apply holds_ret, all_requests_nil.
  - unfold general_pass. apply holds_paginate;
      [ apply all_requests_nil | apply all_requests_app
      | intros; apply all_requests_call; selected | intros pg ].
    apply holds_for_each; [apply all_requests_nil | apply all_requests_app | intros stack _].
    unfold general_pass_stack; cbv zeta.
    destruct (general_pass_selects (StackName stack)) eqn:E.
    + requests_hold_with selected.
    + apply holds_ret, all_requests_nil.
Qed.

(** ** The polling loop without an end *)

(** X10. The Lambda teardown has no way out of its polling loop but an
    exception: when the first listed function is deleted without fault and
    get_function keeps finding it, the run never ends, whatever bound is
    put on the loop; it polls and sleeps 5 seconds again and again and
    reaches no other function. *)
Theorem lambda_teardown_hangs_while_function_stays
  (env : client) (h : trace) (region : string)
  (functions : page FunctionConfiguration)
  (function : FunctionConfiguration) (others : list FunctionConfiguration) :
  env h (List lambda_list_functions None) = Ok functions ->
  items functions = function :: others ->
  (forall h', env h' (lambda_delete_function (FunctionName function)) = Ok tt) ->
  (forall h', env h' (lambda_get_function (FunctionName function)) = Ok tt) ->
  forall n,
    delete_all_lambda_functions (S n) region env h =
      (listed lambda_list_functions None functions
         :: Logged (deleting_function_line (FunctionName function) region)
         :: Called (lambda_delete_function (FunctionName function)) (Ok tt)
         :: rounds (S n) (FunctionName function),
       OutOfFuel).
Proof.
  intros Hl Hitems Hdel Hget n.
  unfold delete_all_lambda_functions. simpl paginate.
  rewrite (step_call (List lambda_list_functions None) _ env h functions Hl).
  cbv beta iota delta [item]. rewrite Hitems. simpl for_each.
  assert (Hbody : forall h',
             delete_lambda_function (S n) region function env h' =
               (Logged (deleting_function_line (FunctionName function) region)
                  :: Called (lambda_delete_function (FunctionName function)) (Ok tt)
                  :: rounds (S n) (FunctionName function), OutOfFuel)).
  { intros h'. unfold delete_lambda_function. cbv zeta.
    rewrite step_print.
    unfold emitted, ending.
    rewrite (step_call (lambda_delete_function (FunctionName function)) _ env _ tt
               (Hdel _)).
    unfold emitted, ending.
    rewrite (poll_function_gone_never_gives_up env region _ (Hget)).
    reflexivity. }
  unfold emitted, ending, bind. rewrite Hbody. reflexivity.
Qed.

Lemma lambda_teardown_hangs_while_function_stays_witness :
  delete_all_lambda_functions 3 "cn-north-1" env_lambda_stuck [] =
    (listed lambda_list_functions None (mkPage [mkFunction "f1"; mkFunction "f2"] None)
       :: Logged (deleting_function_line "f1" "cn-north-1")
       :: Called (lambda_delete_function "f1") (Ok tt)
       :: rounds 3 "f1",
     OutOfFuel).
Proof.
  exact (lambda_teardown_hangs_while_function_stays env_lambda_stuck [] "cn-north-1"
           (mkPage [mkFunction "f1"; mkFunction "f2"] None)
           (mkFunction "f1") [mkFunction "f2"]
           eq_refl eq_refl (fun _ => eq_refl) (fun _ => eq_refl) 2).
Defined.

(** ** The order of the two passes *)

(** X11. The general pass begins only when the name-filtered pass has
    returned: whatever comes before a listing request with the filter of
    the general pass begins with all the events of the first pass, which
    ended without fault. *)
Theorem general_pass_begins_after_first_pass_returned
  (env : client) (fuel : nat) (region : string) (wait : bool) (h : trace)
  (before after : trace) (tok : option token)
  (a : result (response (List (cfn_list_stacks general_pass_status_filter) tok))) :
  emitted (delete_all_stacks fuel region wait) env h =
    before ++ Called (List (cfn_list_stacks general_pass_status_filter) tok) a :: after ->
  ending (first_pass fuel region wait) env h = Done tt /\
  exists later, before = emitted (first_pass fuel region wait) env h ++ later.
Proof.
  unfold delete_all_stacks. rewrite emitted_bind. intros Hsplit.
  pose proof (first_pass_lists env fuel region wait h) as Hfirst.
  assert (Hnot : forall b x,
             emitted (first_pass fuel region wait) env h <>
               b ++ Called (List (cfn_list_stacks general_pass_status_filter) tok) a :: x).
  { intros b x E. rewrite E in Hfirst.
    pose proof (all_requests_at _ _ _ _ _ Hfirst eq_refl _ _ eq_refl) as Hf.
    discriminate Hf. }
  destruct (ending (first_pass fuel region wait) env h) as [[]| |].
  - split; [reflexivity|].
    apply split_app in Hsplit as [(a1 & E & _) | (b2 & _ & ->)].
    + exfalso. exact (Hnot _ _ E).
    + eauto.
  - exfalso. exact (Hnot _ _ Hsplit).
  - exfalso. exact (Hnot _ _ Hsplit).
Qed.

Lemma general_pass_begins_after_first_pass_returned_witness :
  ending (first_pass 1 "cn-north-1" false) env_three_stacks [] = Done tt /\
  exists later,
    emitted (first_pass 1 "cn-north-1" false) env_three_stacks [] =
      emitted (first_pass 1 "cn-north-1" false) env_three_stacks [] ++ later.
Proof.
  apply (general_pass_begins_after_first_pass_returned env_three_stacks 1 "cn-north-1"
           false [] _
           [Called (cfn_describe_stacks "other-infra") (Ok [mkStack true]);
            Logged (skipping_stack_line "other-infra" "cn-north-1");
            Called (cfn_describe_stacks "other-app") (Ok [mkStack false]);
            Logged (deleting_stack_line "other-app" "cn-north-1");
            Called (cfn_delete_stack "other-app") (Ok tt)]
           None (Ok (mkPage three_stacks None))).
  reflexivity.
Defined.

(** ** The name tests are substring tests *)

Lemma prefix_spec p s :
  String.prefix p s = true <-> exists after, s = (p ++ after)%string.
Proof.
  revert s. induction p as [|a p IH]; intros s.
  - split; [intros _; exists s; reflexivity | intros _; destruct s; reflexivity].
  - destruct s as [|b s]; simpl.
    + split; [discriminate | intros [after H]; discriminate H].
    + destruct (ascii_dec a b) as [->|Hne].
      * rewrite IH. split; intros [after H]; exists after.
        -- rewrite H. reflexivity.
        -- injection H as H. exact H.
      * split; [discriminate|]. intros [after H]. injection H as H _. congruence.
Qed.

Lemma contains_unfold needle hay :
  contains needle hay =
  if String.prefix needle hay then true
  else match hay with
       | EmptyString => false
       | String _ rest => contains needle rest
       end.
Proof. destruct hay; reflexivity. Qed.

Lemma contains_spec needle hay :
  contains needle hay = true <-> substring_of needle hay.
Proof.
  split.
  - induction hay as [|c hay IH]; rewrite contains_unfold;
      destruct (String.prefix needle _) eqn:E.
    + intros _. apply prefix_spec in E as [after E]. exists ""%string, after. exact E.
    + discriminate.
    + intros _. apply prefix_spec in E as [after E]. exists ""%string, after. exact E.
    + intros H. destruct (IH H) as (before & after & ->).
      exists (String c before), after. reflexivity.
  - intros (before & after & ->). induction before as [|c before IH].
    + rewrite contains_unfold.
      replace (String.prefix needle ("" ++ needle ++ after)) with true; [reflexivity|].
      symmetry. apply prefix_spec. exists after. reflexivity.
    + rewrite contains_unfold. destruct (String.prefix needle _); [reflexivity|].
      exact IH.
Qed.

(** X12. The name tests of the two passes are substring tests, sensitive
    to case: the name-filtered pass selects a stack exactly when AppPipe or
    AppIngestion occurs somewhere in its name, the general pass exactly
    when AppPipe occurs nowhere in it. *)
Theorem passes_select_by_substring (stack_name : string) :
  (first_pass_selects stack_name = true <->
   substring_of "AppPipe" stack_name \/ substring_of "AppIngestion" stack_name) /\
  (general_pass_selects stack_name = true <-> ~ substring_of "AppPipe" stack_name).
Proof.
  unfold first_pass_selects, general_pass_selects. split.
  - rewrite orb_true_iff, !contains_spec. reflexivity.
  - rewrite negb_true_iff, <- contains_spec.
    destruct (contains "AppPipe" stack_name); split; congruence.
Qed.

(** ** A stack that describe_stacks does not know *)

Lemma pass_skips_unselected (env : client) h (selects : string -> bool) stacks
    (body : StackSummary -> M unit) :
  (forall stack h', selects (StackName stack) = false ->
                    body stack env h' = ([], Done tt)) ->
  not_selected selects stacks ->
  for_each stacks body env h = ([], Done tt).
Proof.
  intros Hbody H. revert h. induction H as [|stack stacks Hs _ IH]; intros h; simpl.
  - reflexivity.
  - rewrite (step_silent _ _ env h tt (Hbody _ _ Hs)). apply IH.
Qed.

(** X13. When describe_stacks answers with an empty list of stacks for
    the first stack the name-filtered pass selects, [Stacks][0] raises
    IndexError, which nothing catches: the procedure ends with it, having
    requested no deletion, and the general pass never begins. *)
Theorem empty_describe_answer_raises_index_error
  (env : client) (h : trace) (fuel : nat) (region : string) (wait : bool)
  (stacks : page StackSummary) (skipped later : list StackSummary)
  (stack : StackSummary) :
  env h (List (cfn_list_stacks first_pass_status_filter) None) = Ok stacks ->
  items stacks = skipped ++ stack :: later ->
  not_selected first_pass_selects skipped ->
  first_pass_selects (StackName stack) = true ->
  env (h ++ [listed (cfn_list_stacks first_pass_status_filter) None stacks])
      (cfn_describe_stacks (StackName stack)) = Ok [] ->
  delete_all_stacks (S fuel) region wait env h =
    ([listed (cfn_list_stacks first_pass_status_filter) None stacks;
      Called (cfn_describe_stacks (StackName stack)) (Ok [])],
     Raised IndexError).
Proof.
  intros Hl Hitems Hskipped Hsel Hd.
  unfold delete_all_stacks. apply step_raised.
  unfold first_pass. simpl paginate.
  rewrite (step_call (List (cfn_list_stacks first_pass_status_filter) None) _ env h
             stacks Hl).
  cbv beta iota delta [item]. unfold emitted, ending.
  erewrite step_raised; [reflexivity|].
  rewrite Hitems, for_each_app.
  erewrite step_silent.
  2: { apply (pass_skips_unselected env _ first_pass_selects);
         [|exact Hskipped].
       intros s h' Hs. unfold first_pass_stack. cbv zeta. rewrite Hs. reflexivity. }
  simpl for_each. apply step_raised.
  unfold first_pass_stack. cbv zeta. rewrite Hsel.
  unfold delete_unless_protected.
  rewrite (step_call (cfn_describe_stacks (StackName stack)) _ env _ [] Hd).
  reflexivity.
Qed.

Lemma empty_describe_answer_raises_index_error_witness :
  delete_all_stacks 1 "cn-north-1" false env_vanished_stack [] =
    ([listed (cfn_list_stacks first_pass_status_filter) None
        (mkPage [mkStackSummary "AppPipe-gone" "CREATE_COMPLETE"] None);
      Called (cfn_describe_stacks "AppPipe-gone") (Ok [])],
     Raised IndexError).
Proof.
  exact (empty_describe_answer_raises_index_error env_vanished_stack [] 0 "cn-north-1"
           false (mkPage [mkStackSummary "AppPipe-gone" "CREATE_COMPLETE"] None)
           [] [] (mkStackSummary "AppPipe-gone" "CREATE_COMPLETE")
           eq_refl eq_refl (Forall_nil _) eq_refl eq_refl).
Defined.

(** ** A function is polled after its deletion *)

Lemma holds_free env good {A} (m : M A) :
  holds env (all_requests (unconstrained good)) m -> holds env (preceded good) m.
Proof. intros H h. apply preceded_free. apply H. Qed.

Lemma poll_step_found (env : client) n region function_name h :
  env h (lambda_get_function function_name) = Ok tt ->
  poll_function_gone (S n) region function_name env h =
    (still_there function_name
       ++ emitted (poll_function_gone n region function_name) env
            (h ++ still_there function_name),
     ending (poll_function_gone n region function_name) env
            (h ++ still_there function_name)).
Proof.
  intros E. simpl poll_function_gone.
  unfold bind at 1. unfold try_except, call. rewrite E.
  unfold bind at 1. unfold sleep. unfold emitted, ending, still_there.
  rewrite <- !app_assoc. simpl.
  destruct (poll_function_gone n region function_name env _). reflexivity.
Qed.

Lemma poll_step_fault (env : client) n region function_name h e :
  env h (lambda_get_function function_name) = Err e ->
  poll_function_gone (S n) region function_name env h =
    ([Called (lambda_get_function function_name) (Err e);
      Logged (last_poll_line region function_name e)], Done tt).
Proof.
  intros E. simpl poll_function_gone.
  unfold bind at 1. unfold try_except, call. rewrite E.
  destruct e; reflexivity.
Qed.

Lemma poll_splits (env : client) region function_name n :
  forall h before e after r,
    emitted (poll_function_gone n region function_name) env h = before ++ e :: after ->
    request_of e = Some r ->
    r = lambda_get_function function_name /\ exists k, before = rounds k function_name.
Proof.
  induction n as [|n IH]; intros h before e after r Hs Hr.
  - destruct before; discriminate Hs.
  - unfold emitted in Hs.
    destruct (env h (lambda_get_function function_name)) as [[]|x] eqn:E.
    + rewrite (poll_step_found env n region function_name h E) in Hs. cbn [fst] in Hs.
      unfold still_there in Hs. simpl in Hs.
      destruct before as [|b0 [|b1 before]]; simpl in Hs.
      * injection Hs as <- _. injection Hr as <-. split; [reflexivity | exists 0; reflexivity].
      * injection Hs as _ <- _. discriminate Hr.
      * injection Hs as <- <- Hs.
        destruct (IH _ _ _ _ _ Hs Hr) as [-> [k ->]].
        split; [reflexivity | exists (S k); reflexivity].
    + rewrite (poll_step_fault env n region function_name h x E) in Hs. cbn [fst] in Hs.
      destruct before as [|b0 [|b1 before]]; simpl in Hs.
      * injection Hs as <- _. injection Hr as <-. split; [reflexivity | exists 0; reflexivity].
      * injection Hs as _ <- _. discriminate Hr.
      * injection Hs as _ _ Hs. destruct before; discriminate Hs.
Qed.

Lemma polled_after_delete_looks_back : looks_back polled_after_delete.
Proof.
  intros earlier before r H n Hr. destruct (H n Hr) as (earlier0 & k & ->).
  exists (earlier ++ earlier0), k. rewrite <- app_assoc. reflexivity.
Qed.

Lemma delete_lambda_function_polls_after env fuel region function :
  holds env (preceded polled_after_delete) (delete_lambda_function fuel region function).
Proof.
  intros h. unfold delete_lambda_function. cbv zeta.
  unfold emitted. rewrite step_print. cbn [fst]. cbv beta. unfold emitted.
  match goal with
  | |- context [bind (call ?r) ?f env ?h1] =>
      destruct (env h1 r) as [[]|e] eqn:Ed;
      [rewrite (step_call r f env h1 tt Ed) | rewrite (step_call_fault r f env h1 e Ed)]
  end; cbn [fst].
  - intros before e after r Hs Hr n Hn. subst r.
    destruct before as [|b0 [|b1 before]]; simpl in Hs.
    + injection Hs as <- _. discriminate Hr.
    + injection Hs as _ <- _. discriminate Hr.
    + injection Hs as <- <- Hs.
      destruct (poll_splits _ _ _ _ _ _ _ _ _ Hs Hr) as [Hf [k ->]].
      injection Hf as ->.
      exists [Logged (deleting_function_line (FunctionName function) region)], k.
      reflexivity.
  - apply preceded_free.
    apply (all_requests_app _ [_] [_]); [apply all_requests_nil|].
    apply all_requests_call. intros before n Hn. discriminate Hn.
Qed.

(** X14. The Lambda teardown polls a function only after the request to
    delete it was accepted: what comes before any get_function request
    ends with the delete_function request for the same function, answered
    without fault, followed only by earlier polls of that function, each
    with its sleep of 5 seconds. *)
Theorem lambda_function_is_polled_after_its_deletion
  (env : client) (fuel : nat) (region : string) (h : trace)
  (before after : trace) (function_name : string)
  (a : result (response (lambda_get_function function_name))) :
  emitted (delete_all_lambda_functions fuel region) env h =
    before ++ Called (lambda_get_function function_name) a :: after ->
  exists earlier k,
    before = earlier
               ++ Called (lambda_delete_function function_name) (Ok tt)
               :: rounds k function_name.
Proof.
  intros Hsplit.
  assert (H : holds env (preceded polled_after_delete)
                (delete_all_lambda_functions fuel region)).
  { unfold delete_all_lambda_functions. apply holds_paginate.
    - apply preceded_nil.
    - apply preceded_closed, polled_after_delete_looks_back.
    - intros tok h0. apply preceded_free. apply all_requests_call.
      intros b n Hn. discriminate Hn.
    - intros pg. apply holds_for_each.
      + apply preceded_nil.
      + apply preceded_closed, polled_after_delete_looks_back.
      + intros f _. apply delete_lambda_function_polls_after. }
  exact (H h before _ after _ Hsplit eq_refl function_name eq_refl).
Qed.

Lemma lambda_function_is_polled_after_its_deletion_witness :
  exists earlier k,
    [listed lambda_list_functions None (mkPage [mkFunction "f1"; mkFunction "f2"] None);
     Logged (deleting_function_line "f1" "cn-north-1");
     Called (lambda_delete_function "f1") (Ok tt);
     Called (lambda_get_function "f1") (Ok tt);
     Slept 5] =
    earlier ++ Called (lambda_delete_function "f1") (Ok tt) :: rounds k "f1".
Proof.
  apply (lambda_function_is_polled_after_its_deletion env_lambda_stuck 2 "cn-north-1" []
           _ [Slept 5] "f1" (Ok tt)).
  reflexivity.
Defined.

(** ** Routes before their peering connection *)

Lemma all_requests_cons_logged (Q : request -> Prop) line t :
  all_requests Q t -> all_requests Q (Logged line :: t).
Proof. intros H. exact H. Qed.

Lemma all_requests_cons_called (Q : request -> Prop) r a t :
  Q r -> all_requests Q t -> all_requests Q (Called r a :: t).
Proof. intros Hr H. constructor; assumption. Qed.

Lemma for_each_done_forall {A} (body : A -> M unit) (Pr : A -> Prop) :
  (forall x env h, ending (body x) env h = Done tt -> Pr x) ->
  forall xs env h, ending (for_each xs body) env h = Done tt -> Forall Pr xs.
Proof.
  intros Hb. induction xs as [|x xs IH]; intros env h Hd; simpl in *.
  - constructor.
  - apply ending_bind_done in Hd as ([] & E1 & E2 & _).
    constructor; [eapply Hb; eauto | eapply IH; eauto].
Qed.

Lemma route_uniform peering_connection_id route_table :
  uniform (delete_matching_route peering_connection_id route_table)
          (route_deleted peering_connection_id route_table).
Proof.
  intros route env h Hd. unfold delete_matching_route, route_deleted in *.
  destruct (route_matches peering_connection_id route); [|reflexivity].
  destruct (DestinationCidrBlock route) as [cidr|]; [|discriminate Hd].
  unfold subscript in *. run_straight env.
Qed.

Lemma route_done_has_destination peering_connection_id route_table route env h :
  ending (delete_matching_route peering_connection_id route_table route) env h = Done tt ->
  has_destination peering_connection_id route.
Proof.
  unfold delete_matching_route, has_destination. intros Hd Hm. rewrite Hm in Hd.
  destruct (DestinationCidrBlock route); [discriminate | discriminate Hd].
Qed.

Lemma table_uniform peering_connection_id :
  uniform (fun route_table : RouteTable =>
             for_each (Routes route_table)
               (delete_matching_route peering_connection_id route_table))
          (table_cleaned peering_connection_id).
Proof.
  intros route_table env h Hd.
  exact (for_each_uniform _ _ (route_uniform peering_connection_id route_table) _ _ _ Hd).
Qed.

Lemma peering_connection_last_looks_back region :
  looks_back (peering_connection_last region).
Proof.
  intros earlier before r H pcx Hr. destruct (H pcx Hr) as (earlier0 & tables & -> & Hall).
  exists (earlier ++ earlier0), tables. rewrite <- app_assoc. auto.
Qed.

Lemma route_tables_free env region peering_connection_id (tables : list RouteTable) :
  holds env (all_requests (unconstrained (peering_connection_last region)))
    (for_each tables (fun route_table =>
       for_each (Routes route_table)
         (delete_matching_route peering_connection_id route_table))).
Proof. requests_hold_with other_request. Qed.

Lemma delete_peering_connection_last env region peering_connection :
  holds env (preceded (peering_connection_last region))
    (delete_peering_connection region peering_connection).
Proof.
  intros h. unfold delete_peering_connection. cbv zeta.
  set (pcx := VpcPeeringConnectionId peering_connection).
  unfold emitted. rewrite step_print. cbn [fst]. cbv beta. unfold emitted.
  fold (deleting_peering_line pcx region).
  set (h1 := h ++ _).
  destruct (env h1 (List (ec2_describe_route_tables pcx) None)) as [tables|e] eqn:El.
  - rewrite (step_call (List (ec2_describe_route_tables pcx) None) _ env h1 tables El).
    cbn [fst]. cbv beta iota delta [item].
    set (h2 := h1 ++ _).
    rewrite emitted_bind.
    match goal with
    | |- context [match ?x with _ => _ end] => destruct x as [[]| |] eqn:Ef
    end.
    + pose proof (for_each_uniform _ _ (table_uniform pcx) _ _ _ Ef) as Hclean.
      assert (Hdest : Forall (fun route_table =>
                                Forall (has_destination pcx) (Routes route_table))
                             (items tables)).
      { refine (for_each_done_forall _ _ _ _ _ _ Ef).
        intros route_table env' h' Hd.
        refine (for_each_done_forall _ _ _ _ _ _ Hd).
        intros route env'' h'' Hd'. eapply route_done_has_destination. exact Hd'. }
      rewrite Hclean.
      match type of Hclean with
      | _ = ?rhs =>
          assert (Hfree : all_requests (unconstrained (peering_connection_last region)) rhs)
            by (rewrite <- Hclean; apply route_tables_free);
          set (cleaned := rhs) in *
      end.
      assert (Hsplit : forall a tail,
        all_requests (unconstrained (peering_connection_last region)) tail ->
        preceded (peering_connection_last region)
          (Logged (deleting_peering_line pcx region)
             :: Called (List (ec2_describe_route_tables pcx) None) (Ok tables)
             :: cleaned
             ++ Called (ec2_delete_vpc_peering_connection pcx) a :: tail)).
      { intros a tail Htail.
        replace (Logged (deleting_peering_line pcx region)
                   :: Called (List (ec2_describe_route_tables pcx) None) (Ok tables)
                   :: cleaned
                   ++ Called (ec2_delete_vpc_peering_connection pcx) a :: tail)
          with (((Logged (deleting_peering_line pcx region)
                    :: Called (List (ec2_describe_route_tables pcx) None) (Ok tables)
                    :: cleaned)
                   ++ [Called (ec2_delete_vpc_peering_connection pcx) a]) ++ tail)
          by (simpl; rewrite <- !app_assoc; reflexivity).
        apply preceded_app;
          [apply peering_connection_last_looks_back | | apply preceded_free; exact Htail].
        apply preceded_snoc.
        - apply preceded_free.
          apply all_requests_cons_logged, all_requests_cons_called;
            [other_request | exact Hfree].
        - intros r Hr c Hc. simpl in Hr. injection Hr as <-. injection Hc as <-.
          exists [], tables. split; [reflexivity | exact Hdest]. }
      unfold emitted.
      match goal with
      | |- context [bind (call ?r) ?f env ?h3] =>
          destruct (env h3 r) as [[]|e] eqn:Ed;
          [rewrite (step_call r f env h3 tt Ed) | rewrite (step_call_fault r f env h3 e Ed)]
      end; cbn [fst].
      * apply Hsplit. apply all_requests_nil.
      * apply Hsplit. apply all_requests_nil.
    + apply preceded_free.
      apply all_requests_cons_logged, all_requests_cons_called;
        [other_request | apply route_tables_free].
    + apply preceded_free.
      apply all_requests_cons_logged, all_requests_cons_called;
        [other_request | apply route_tables_free].
  - rewrite (step_call_fault (List (ec2_describe_route_tables pcx) None) _ env h1 e El).
    apply preceded_free.
    apply all_requests_cons_logged, all_requests_cons_called;
      [other_request | apply all_requests_nil].
Qed.

(** X15. Whenever delete_vpc_peering_connection is requested, the events
    just before it are the listing of the route tables with a route through
    that connection and, for every route of those tables whose
    VpcPeeringConnectionId is the connection, delete_route with the id of
    its table and its DestinationCidrBlock, answered without fault; routes
    of other connections and routes without a connection are left alone,
    and every route through the connection had a DestinationCidrBlock. *)
Theorem peering_routes_deleted_before_connection
  (env : client) (h : trace) (region : string)
  (before after : trace) (peering_connection_id : string)
  (a : result (response (ec2_delete_vpc_peering_connection peering_connection_id))) :
  emitted (delete_all_peering_connections region) env h =
    before ++ Called (ec2_delete_vpc_peering_connection peering_connection_id) a :: after ->
  routes_cleaned region peering_connection_id before.
Proof.
  intros Hsplit.
  assert (H : holds env (preceded (peering_connection_last region))
                (delete_all_peering_connections region)).
  { unfold delete_all_peering_connections.
    apply holds_bind.
    - apply preceded_closed, peering_connection_last_looks_back.
    - apply holds_call. intros h0. apply preceded_free.
      apply all_requests_call. other_request.
    - intros connections. apply holds_for_each.
      + apply preceded_nil.
      + apply preceded_closed, peering_connection_last_looks_back.
      + intros c _. apply delete_peering_connection_last. }
  exact (H h before _ after _ Hsplit eq_refl peering_connection_id eq_refl).
Qed.

Lemma peering_routes_deleted_before_connection_witness :
  routes_cleaned "cn-north-1" "pcx-1"
    [listed ec2_describe_vpc_peering_connections None
       (mkPage [mkVpcPeeringConnection "pcx-1"] None);
     Logged (deleting_peering_line "pcx-1" "cn-north-1");
     listed (ec2_describe_route_tables "pcx-1") None
       (mkPage [mkRouteTable "rtb-1"
                  [mkRoute (Some "pcx-1") (Some "10.1.0.0/16");
                   mkRoute (Some "pcx-2") (Some "10.2.0.0/16");
                   mkRoute None (Some "10.0.0.0/16")]] None);
     Called (ec2_delete_route "rtb-1" "10.1.0.0/16") (Ok tt);
     Logged "Deleted route: 10.1.0.0/16 in route table: rtb-1"].
Proof.
  apply (peering_routes_deleted_before_connection env_peering [] "cn-north-1" _
           [Logged "Deleted VPC peering connection: pcx-1 in region cn-north-1"]
           "pcx-1" (Ok tt)).
  reflexivity.
Defined.

(** ** Waiting for deletions *)

Lemma waiter_follows_looks_ahead : looks_ahead waiter_follows.
Proof.
  intros e after later H r w Ha Hr Hw.
  destruct (H r w Ha Hr Hw) as (a & l & ->). simpl. eauto.
Qed.

Lemma followed_free t :
  all_requests (fun r => waiter_of r = None) t -> followed waiter_follows t.
Proof.
  intros Hall before e after -> r w _ Hr Hw.
  pose proof (all_requests_at _ _ _ _ _ Hall Hr) as Hn. congruence.
Qed.

Lemma holds_followed_free env {A} (m : M A) :
  holds env (all_requests (fun r => waiter_of r = None)) m ->
  holds env (followed waiter_follows) m.
Proof. intros H h. apply followed_free, H. Qed.

Ltac waiter_next :=
  idtac;
  let Hacc := fresh "Hacc" in
  let Hr := fresh "Hr" in
  let Hw := fresh "Hw" in
  intros ? ? Hacc Hr Hw; simpl in Hacc, Hr, Hw;
  first [ discriminate Hacc
        | discriminate Hr
        | injection Hr as <-; simpl in Hw;
          first [ discriminate Hw
                | injection Hw as <-; eexists _, _; reflexivity ] ].

Ltac enumerate_followed env :=
  unfold emitted, bind, print, call, ret, raise, subscript0, get_waiter; cbn;
  repeat (match goal with
          | |- context [env ?h ?r] => destruct (env h r) as [[]|?]; cbn
          end);
  repeat (apply followed_cons; [waiter_next|]); apply followed_nil.

Lemma awaited_stack env region stack_name :
  holds env (followed waiter_follows) (delete_unless_protected region true stack_name).
Proof.
  intros h. unfold delete_unless_protected.
  destruct (env h (cfn_describe_stacks stack_name)) as [[|s others]|e] eqn:Ed;
    unfold emitted.
  - rewrite (step_call (cfn_describe_stacks stack_name) _ env h [] Ed). cbn.
    apply followed_cons; [waiter_next | apply followed_nil].
  - rewrite (step_call (cfn_describe_stacks stack_name) _ env h (s :: others) Ed).
    cbn [fst]. cbv beta. apply followed_cons; [waiter_next|].
    destruct (EnableTerminationProtection s) eqn:Ep; unfold subscript0;
      rewrite emitted_bind; cbn [ending ret snd emitted fst app]; rewrite Ep.
    + apply followed_cons; [waiter_next | apply followed_nil].
    + enumerate_followed env.
  - rewrite (step_call_fault (cfn_describe_stacks stack_name) _ env h e Ed). cbn.
    apply followed_cons; [waiter_next | apply followed_nil].
Qed.

Lemma awaited_instance env region instance :
  holds env (followed waiter_follows) (terminate_instance region true instance).
Proof. intros h. unfold terminate_instance. enumerate_followed env. Qed.

Lemma awaited_service env region cluster_arn service_arn :
  holds env (followed waiter_follows)
    (delete_ecs_service region true cluster_arn service_arn).
Proof. intros h. unfold delete_ecs_service. enumerate_followed env. Qed.

Lemma awaited_task env region cluster_arn task_arn :
  holds env (followed waiter_follows) (stop_ecs_task region true cluster_arn task_arn).
Proof. intros h. unfold stop_ecs_task. enumerate_followed env. Qed.

Lemma awaited_node_group env cluster_name node_group :
  holds env (followed waiter_follows) (delete_node_group cluster_name node_group).
Proof. intros h. unfold delete_node_group. enumerate_followed env. Qed.

Lemma awaited_ecs_cluster env region cluster_arn :
  holds env (followed waiter_follows)
    (print (deleting_ecs_cluster_line cluster_arn region) ;;
     call (ecs_delete_cluster cluster_arn) ;;
     get_waiter ecs_waiter_names "cluster_deleted" ;;
     call (ecs_wait_cluster_deleted [cluster_arn]) ;;
     print (deleted_ecs_cluster_line cluster_arn region)).
Proof. intros h. enumerate_followed env. Qed.

Lemma awaited_eks_cluster env region cluster_name :
  holds env (followed waiter_follows)
    (print (deleting_eks_cluster_line cluster_name region) ;;
     call (eks_delete_cluster cluster_name) ;;
     call (eks_wait_cluster_deleted cluster_name)).
Proof. intros h. enumerate_followed env. Qed.

Ltac followed_listing :=
  intros; apply followed_free; apply all_requests_call; reflexivity.

Ltac followed_loop :=
  first
    [ apply holds_paginate;
      [ apply followed_nil
      | apply followed_closed, waiter_follows_looks_ahead
      | followed_listing
      | intros ]
    | apply holds_for_each;
      [ apply followed_nil
      | apply followed_closed, waiter_follows_looks_ahead
      | intros ]
    | apply holds_bind;
      [ apply followed_closed, waiter_follows_looks_ahead | | intros ] ].

Lemma awaited_procedure env fuel region p :
  holds env (followed waiter_follows) (run_procedure fuel region true p).
Proof.
  destruct p; unfold run_procedure.
  - apply holds_followed_free. requests_hold_with ltac:(idtac; reflexivity).
  - unfold delete_all_ecs_clusters. do 2 followed_loop.
    unfold delete_ecs_cluster.
    followed_loop; [do 2 followed_loop; apply awaited_service|].
    followed_loop; [do 2 followed_loop; apply awaited_task|].
    apply awaited_ecs_cluster.
  - unfold terminate_all_ec2_instances. do 3 followed_loop. apply awaited_instance.
  - apply holds_followed_free. requests_hold_with ltac:(idtac; reflexivity).
    apply poll_function_gone_all_requests. reflexivity.
  - apply holds_followed_free. requests_hold_with ltac:(idtac; reflexivity).
  - apply holds_followed_free. requests_hold_with ltac:(idtac; reflexivity).
  - apply holds_followed_free. requests_hold_with ltac:(idtac; reflexivity).
  - unfold delete_all_eks_clusters.
    followed_loop; [apply holds_call; followed_listing|].
    followed_loop. unfold delete_eks_cluster.
    followed_loop; [apply holds_call; followed_listing|].
    followed_loop; [followed_loop; apply awaited_node_group|].
    apply awaited_eks_cluster.
  - unfold delete_all_stacks, first_pass, general_pass.
    followed_loop; do 2 followed_loop.
    + unfold first_pass_stack. destruct (first_pass_selects _).
      * apply awaited_stack.
      * apply holds_ret, followed_nil.
    + unfold general_pass_stack. destruct (general_pass_selects _).
      * apply awaited_stack.
      * apply holds_ret, followed_nil.
Qed.

(** X16. Called with wait set, a procedure follows every deletion that
    was accepted with the request of its waiter, before anything else:
    delete_stack with stack_delete_complete, terminate_instances with
    instance_terminated, delete_service with services_inactive, stop_task
    with tasks_stopped, delete_cluster of EKS with cluster_deleted,
    delete_nodegroup with nodegroup_deleted.  The deletion of an ECS
    cluster is not among them: no waiter request follows it. *)
Theorem accepted_deletion_is_awaited
  (env : client) (fuel : nat) (region : string) (p : procedure) (h : trace)
  (before after : trace) (r w : request) (a : response r) :
  emitted (run_procedure fuel region true p) env h = before ++ Called r (Ok a) :: after ->
  waiter_of r = Some w ->
  exists b later, after = Called w b :: later.
Proof.
  intros Hsplit Hw.
  exact (awaited_procedure env fuel region p h _ _ _ Hsplit r w eq_refl eq_refl Hw).
Qed.

Lemma accepted_deletion_is_awaited_witness :
  exists b later,
    [Called (cfn_wait_stack_delete_complete "AppPipe-prod") (Ok tt);
     Logged (deleted_stack_line "AppPipe-prod" "cn-north-1");
     listed (cfn_list_stacks general_pass_status_filter) None (mkPage three_stacks None);
     Called (cfn_describe_stacks "other-infra") (Ok [mkStack true]);
     Logged (skipping_stack_line "other-infra" "cn-north-1");
     Called (cfn_describe_stacks "other-app") (Ok [mkStack false]);
     Logged (deleting_stack_line "other-app" "cn-north-1");
     Called (cfn_delete_stack "other-app") (Ok tt);
     Called (cfn_wait_stack_delete_complete "other-app") (Ok tt);
     Logged (deleted_stack_line "other-app" "cn-north-1")] =
    Called (cfn_wait_stack_delete_complete "AppPipe-prod") b :: later.
Proof.
  apply (accepted_deletion_is_awaited env_three_stacks 1 "cn-north-1" Stacks []
           [listed (cfn_list_stacks first_pass_status_filter) None
              (mkPage three_stacks None);
            Called (cfn_describe_stacks "AppPipe-prod") (Ok [mkStack false]);
            Logged (deleting_stack_line "AppPipe-prod" "cn-north-1")]
           _ (cfn_delete_stack "AppPipe-prod")
           (cfn_wait_stack_delete_complete "AppPipe-prod") tt).
  - reflexivity.
  - reflexivity.
Defined.

Ltac no_optional_waiter := idtac; reflexivity.

(** X17. Called with wait unset, no procedure requests a waiter, except
    the wait for the deletion of an EKS node group, which does not depend
    on the flag. *)
Theorem no_wait_means_no_optional_waiter
  (env : client) (fuel : nat) (region : string) (p : procedure) (h : trace) :
  all_requests (fun r => optional_waiter r = false)
    (emitted (run_procedure fuel region false p) env h).
Proof.
  revert h. change (holds env (all_requests (fun r => optional_waiter r = false))
                      (run_procedure fuel region false p)).
  destruct p; unfold run_procedure; requests_hold_with no_optional_waiter.
  apply poll_function_gone_all_requests. reflexivity.
Qed.

(** ** Scaling a service down before deleting it *)

Lemma preceded_step good e t :
  (forall r, request_of e = Some r -> good [] r) ->
  preceded (fun before r => good (e :: before) r) t ->
  preceded good (e :: t).
Proof.
  intros He Ht before e' after r Hs Hr.
  destruct before as [|x before]; simpl in Hs; injection Hs as -> ->.
  - apply He. exact Hr.
  - exact (Ht _ _ _ _ eq_refl Hr).
Qed.

Lemma scaled_down_first_looks_back region : looks_back (scaled_down_first region).
Proof.
  intros earlier before r H c s f Hr. destruct (H c s f Hr) as (earlier0 & ->).
  exists (earlier ++ earlier0). rewrite <- app_assoc. reflexivity.
Qed.

Ltac scaled_down :=
  idtac;
  let Hr := fresh "Hr" in
  let Heq := fresh "Heq" in
  intros ? Hr;
  first [ discriminate Hr
        | injection Hr as <-; intros ? ? ? Heq;
          first [ discriminate Heq
                | injection Heq as <- <- <-; exists []; reflexivity ] ].

Lemma delete_ecs_service_scales_down env region wait cluster_arn service_arn :
  holds env (preceded (scaled_down_first region))
    (delete_ecs_service region wait cluster_arn service_arn).
Proof.
  intros h. unfold delete_ecs_service.
  unfold emitted, bind, print, call, ret. destruct wait; cbn;
    repeat (match goal with
            | |- context [env ?h' ?r] => destruct (env h' r) as [[]|?]; cbn
            end);
    repeat (apply preceded_step; [scaled_down|]); apply preceded_nil.
Qed.

Ltac not_delete_service :=
  idtac; let H := fresh "H" in intros ? ? ? ? H; discriminate H.

(** X18. The ECS teardown deletes a service only after it has scaled it
    to zero: what comes before any delete_service request ends with the
    update_service request for the same service with a desired count of 0,
    answered without fault. *)
Theorem ecs_service_is_scaled_down_before_deletion
  (env : client) (fuel : nat) (region : string) (wait : bool) (h : trace)
  (before after : trace) (cluster_arn service_arn : string) (force : bool)
  (a : result (response (ecs_delete_service cluster_arn service_arn force))) :
  emitted (delete_all_ecs_clusters fuel region wait) env h =
    before ++ Called (ecs_delete_service cluster_arn service_arn force) a :: after ->
  exists earlier,
    before = earlier
               ++ [Logged (deleting_service_line service_arn cluster_arn region);
                   Called (ecs_update_service cluster_arn service_arn 0) (Ok tt)].
Proof.
  intros Hsplit.
  assert (H : holds env (preceded (scaled_down_first region))
                (delete_all_ecs_clusters fuel region wait)).
  { unfold delete_all_ecs_clusters. apply holds_paginate.
    - apply preceded_nil.
    - apply preceded_closed, scaled_down_first_looks_back.
    - intros tok h0. apply preceded_free. apply all_requests_call. not_delete_service.
    - intros pg. apply holds_for_each.
      + apply preceded_nil.
      + apply preceded_closed, scaled_down_first_looks_back.
      + intros c _. unfold delete_ecs_cluster. apply holds_bind.
        * apply preceded_closed, scaled_down_first_looks_back.
        * apply holds_paginate.
          -- apply preceded_nil.
          -- apply preceded_closed, scaled_down_first_looks_back.
          -- intros tok h0. apply preceded_free. apply all_requests_call.
             not_delete_service.
          -- intros spg. apply holds_for_each.
             ++ apply preceded_nil.
             ++ apply preceded_closed, scaled_down_first_looks_back.
             ++ intros s _. apply delete_ecs_service_scales_down.
        * intros _. apply holds_free. requests_hold_with not_delete_service. }
  exact (H h before _ after _ Hsplit eq_refl cluster_arn service_arn force eq_refl).
Qed.

Lemma ecs_service_is_scaled_down_before_deletion_witness :
  exists earlier,
    [listed ecs_list_clusters None (mkPage ["cluster-1"] None);
     listed (ecs_list_services "cluster-1") None (mkPage ["service-1"] None);
     Logged (deleting_service_line "service-1" "cluster-1" "cn-north-1");
     Called (ecs_update_service "cluster-1" "service-1" 0) (Ok tt)] =
    earlier
      ++ [Logged (deleting_service_line "service-1" "cluster-1" "cn-north-1");
          Called (ecs_update_service "cluster-1" "service-1" 0) (Ok tt)].
Proof.
  apply (ecs_service_is_scaled_down_before_deletion env_ecs 1 "cn-north-1" false []
           _ (listed (ecs_list_tasks "cluster-1") None (mkPage ["task-1"] None)
              :: task_cleared "cn-north-1" false "cluster-1" "task-1"
              ++ [Logged (deleting_ecs_cluster_line "cluster-1" "cn-north-1");
                  Called (ecs_delete_cluster "cluster-1") (Ok tt)])
           "cluster-1" "service-1" true (Ok tt)).
  reflexivity.
Defined.

(** ** C6: what follows the deletion of a Lambda function *)

Lemma moves_on_app region t1 t2 :
  moves_on region t1 -> moves_on region t2 -> moves_on region (t1 ++ t2).
Proof.
  intros [-> | [(f & rest & ->) | (tok & a & rest & ->)]] H2.
  - exact H2.
  - right. left. simpl. eauto.
  - right. right. simpl. eauto.
Qed.

Lemma function_by_function_nil region o : function_by_function region [] o.
Proof.
  split; [left; reflexivity|].
  intros [|] ? ? H; discriminate H.
Qed.

Lemma function_by_function_seq region t1 t2 o :
  function_by_function region t1 (Done tt) ->
  function_by_function region t2 o ->
  function_by_function region (t1 ++ t2) o.
Proof.
  intros [M1 P1] [M2 P2]. split; [apply moves_on_app; assumption|].
  intros before f after H.
  apply split_app in H as [(a1 & -> & ->) | (b2 & -> & ->)].
  - destruct (P1 _ _ _ eq_refl) as [k [[_ H] | (e & later & -> & Hl)]];
      [discriminate H|].
    exists k. right. exists e, (later ++ t2). split.
    + rewrite <- !app_assoc. reflexivity.
    + apply moves_on_app; assumption.
  - exact (P2 _ _ _ eq_refl).
Qed.

Lemma function_by_function_listing region tok
    (a : result (response (List lambda_list_functions tok))) o :
  function_by_function region [Called (List lambda_list_functions tok) a] o.
Proof.
  split; [right; right; eauto|].
  intros before f after H. apply singleton_split in H as (_ & H & _).
  apply Called_request in H. discriminate H.
Qed.

Lemma poll_found (env : client) n region function_name h :
  env h (lambda_get_function function_name) = Ok tt ->
  poll_function_gone (S n) region function_name env h =
    (still_there function_name
       ++ emitted (poll_function_gone n region function_name) env
            (h ++ still_there function_name),
     ending (poll_function_gone n region function_name) env
       (h ++ still_there function_name)).
Proof.
  intros E. simpl poll_function_gone.
  unfold bind at 1. unfold try_except, call. rewrite E.
  unfold bind at 1. unfold sleep, emitted, ending, still_there.
  rewrite <- app_assoc. simpl.
  match goal with
  | |- context [poll_function_gone n region function_name env ?h'] =>
      destruct (poll_function_gone n region function_name env h')
  end.
  reflexivity.
Qed.

Lemma poll_fault (env : client) n region function_name h e :
  env h (lambda_get_function function_name) = Err e ->
  poll_function_gone (S n) region function_name env h =
    ([Called (lambda_get_function function_name) (Err e);
      Logged (last_poll_line region function_name e)], Done tt).
Proof.
  intros E. simpl poll_function_gone.
  unfold bind, try_except, call. rewrite E. destruct e; reflexivity.
Qed.

Lemma poll_function_gone_shape (env : client) region function_name :
  forall n h,
    exists k,
      (emitted (poll_function_gone n region function_name) env h = rounds k function_name /\
       ending (poll_function_gone n region function_name) env h = OutOfFuel) \/
      (exists e,
          emitted (poll_function_gone n region function_name) env h =
            rounds k function_name
              ++ [Called (lambda_get_function function_name) (Err e);
                  Logged (last_poll_line region function_name e)] /\
          ending (poll_function_gone n region function_name) env h = Done tt).
Proof.
  induction n as [|n IH]; intros h.
  - exists 0. left. split; reflexivity.
  - destruct (env h (lambda_get_function function_name)) as [[]|e] eqn:E.
    + destruct (IH (h ++ still_there function_name)) as [k Hk].
      exists (S k). unfold emitted, ending.
      rewrite (poll_found env n region function_name h E). cbn [fst snd rounds].
      destruct Hk as [[-> ->] | (e & -> & ->)].
      * left. split; reflexivity.
      * right. exists e. rewrite <- app_assoc. split; reflexivity.
    + exists 0. right. exists e. unfold emitted, ending.
      rewrite (poll_fault env n region function_name h e E). split; reflexivity.
Qed.

Lemma cons_inv {A} (a b : A) (l l' : list A) : a :: l = b :: l' -> a = b /\ l = l'.
Proof. intros H. injection H as -> ->. auto. Qed.

Lemma delete_lambda_function_polls env n region function :
  ends env (function_by_function region) (delete_lambda_function n region function).
Proof.
  intros h. unfold delete_lambda_function; cbv zeta.
  set (f := FunctionName function).
  unfold emitted, ending. rewrite step_print. cbn [fst snd].
  unfold emitted, ending.
  destruct (env (h ++ [Logged (deleting_function_line f region)])
              (lambda_delete_function f)) as [[]|e] eqn:E.
  - rewrite (step_call (lambda_delete_function f) _ env _ tt E). cbn [fst snd].
    cbv beta. split; [right; left; eauto|].
    intros before fn after H.
    destruct before as [|x [|y before]]; simpl in H.
    + discriminate H.
    + apply cons_inv in H as [_ H]. apply cons_inv in H as [H Hafter].
      pose proof (Called_request _ _ _ _ H) as Hr. injection Hr as <-.
      subst after.
      destruct (poll_function_gone_shape env region f n
                  ((h ++ [Logged (deleting_function_line f region)])
                     ++ [Called (lambda_delete_function f) (Ok tt)]))
        as [k [[Ht Ho] | (e & Ht & Ho)]]; exists k.
      * left. split; [exact Ht | exact (f_equal fate Ho)].
      * right. exists e, []. split; [exact Ht | left; reflexivity].
    + apply cons_inv in H as [_ H]. apply cons_inv in H as [_ H]. exfalso.
      pose proof (poll_function_gone_all_requests
                    (fun r => forall x, r <> lambda_delete_function x)
                    env n region f ltac:(intros ? Hx; discriminate Hx)
                    ((h ++ [Logged (deleting_function_line f region)])
                       ++ [Called (lambda_delete_function f) (Ok tt)])) as Hall.
      rewrite H in Hall.
      exact (all_requests_at _ _ _ _ _ Hall eq_refl fn eq_refl).
  - rewrite (step_call_fault (lambda_delete_function f) _ env _ e E). cbn [fst snd].
    split; [right; left; eauto|].
    intros before fn after H.
    destruct before as [|x [|y before]]; simpl in H.
    + discriminate H.
    + apply cons_inv in H as [_ H]. apply cons_inv in H as [H _].
      pose proof (Called_request _ _ _ _ H) as Hr. injection Hr as <-.
      apply Called_inj in H. discriminate H.
    + apply cons_inv in H as [_ H]. apply cons_inv in H as [_ H].
      destruct before; discriminate H.
Qed.

Lemma lambda_teardown_polls env fuel region :
  ends env (function_by_function region) (delete_all_lambda_functions fuel region).
Proof.
  unfold delete_all_lambda_functions.
  apply ends_paginate.
  - apply function_by_function_nil.
  - apply function_by_function_seq.
  - apply function_by_function_nil.
  - intros t. apply function_by_function_nil.
  - intros tok. apply ends_call. intros a. apply function_by_function_listing.
  - intros pg. apply ends_for_each.
    + apply function_by_function_nil.
    + apply function_by_function_seq.
    + intros function _. apply delete_lambda_function_polls.
Qed.

Lemma first_function_block (env : client) h n region
    (functions : page FunctionConfiguration) function others k e :
  env h (List lambda_list_functions None) = Ok functions ->
  items functions = function :: others ->
  env (h ++ [listed lambda_list_functions None functions]
         ++ [Logged (deleting_function_line (FunctionName function) region)])
      (lambda_delete_function (FunctionName function)) = Ok tt ->
  (forall i, i < k ->
     env (h ++ ([listed lambda_list_functions None functions]
                  ++ [Logged (deleting_function_line (FunctionName function) region)]
                  ++ [Called (lambda_delete_function (FunctionName function)) (Ok tt)])
            ++ rounds i (FunctionName function))
         (lambda_get_function (FunctionName function)) = Ok tt) ->
  env (h ++ ([listed lambda_list_functions None functions]
               ++ [Logged (deleting_function_line (FunctionName function) region)]
               ++ [Called (lambda_delete_function (FunctionName function)) (Ok tt)])
         ++ rounds k (FunctionName function))
      (lambda_get_function (FunctionName function)) = Err e ->
  k < n ->
  delete_lambda_function n region function env
    (h ++ [listed lambda_list_functions None functions]) =
    (function_block region (FunctionName function) k e, Done tt).
Proof.
  intros E Hitems Hdel Hok Herr Hn.
  unfold delete_lambda_function; cbv zeta.
  rewrite step_print. unfold emitted, ending.
  rewrite <- app_assoc.
  rewrite (step_call (lambda_delete_function (FunctionName function)) _ env _ tt Hdel).
  unfold emitted, ending.
  rewrite (poll_function_gone_ends env region (FunctionName function) k _ n e).
  - reflexivity.
  - intros i Hi. specialize (Hok i Hi). rewrite <- !app_assoc in *. exact Hok.
  - rewrite <- !app_assoc in *. exact Herr.
  - exact Hn.
Qed.

(** C6. In every run of the Lambda teardown, what follows a delete_function
    that was accepted is: polls of get_function that find the function, each
    followed by a sleep of 5 seconds, in any number; then the first poll that
    raises, which ends the loop, and the line of its handler, "Deleted" for
    "resource not found" and "Error checking function status" for any other
    exception; then the procedure moves on to another function or to the
    next page, or has nothing more to do.  Only a run cut while it is still
    polling ends otherwise.  For the first function of the first page the
    run is given exactly: whatever the number [k] of polls that find the
    function, the listing is followed by the announcement, the deletion, [k]
    rounds of poll and sleep, the poll that raises and its line, and the
    announcement of the next function of the page comes next; if there is
    none and the page is the last, the procedure returns. *)
Theorem lambda_polling_ends_on_first_fault (env : client) (region : string) :
  (forall fuel h before function_name after,
      emitted (delete_all_lambda_functions fuel region) env h =
        before ++ Called (lambda_delete_function function_name) (Ok tt) :: after ->
      polled region function_name after
        (fate (ending (delete_all_lambda_functions fuel region) env h))) /\
  (forall h n (functions : page FunctionConfiguration) function others k e,
      let function_name := FunctionName function in
      let listing := [listed lambda_list_functions None functions] in
      let deleting := listing ++ [Logged (deleting_function_line function_name region)] in
      let deleted :=
        deleting ++ [Called (lambda_delete_function function_name) (Ok tt)] in
      env h (List lambda_list_functions None) = Ok functions ->
      items functions = function :: others ->
      env (h ++ deleting) (lambda_delete_function function_name) = Ok tt ->
      (forall i, i < k ->
         env (h ++ deleted ++ rounds i function_name)
             (lambda_get_function function_name) = Ok tt) ->
      env (h ++ deleted ++ rounds k function_name)
          (lambda_get_function function_name) = Err e ->
      k < n ->
      exists rest,
        emitted (delete_all_lambda_functions n region) env h =
          listing ++ function_block region function_name k e ++ rest /\
        match others with
        | next :: _ =>
            exists later,
              rest = Logged (deleting_function_line (FunctionName next) region) :: later
        | [] =>
            after_page None functions = Stop ->
            rest = [] /\
            ending (delete_all_lambda_functions n region) env h = Done tt
        end).
Proof.
  split.
  - intros fuel h before function_name after H.
    exact (proj2 (lambda_teardown_polls env fuel region h) _ _ _ H).
  - intros h n functions function others k e function_name listing deleting deleted
           E Hitems Hdel Hok Herr Hn.
    pose proof (first_function_block env h n region functions function others k e
                  E Hitems Hdel Hok Herr Hn) as Hblock.
    fold function_name in Hblock.
    destruct n as [|n]; [lia|].
    unfold delete_all_lambda_functions, emitted, ending. simpl paginate.
    rewrite (step_call (List lambda_list_functions None) _ env h functions E).
    cbn [fst snd]. cbv beta iota delta [item] in *. rewrite Hitems.
    simpl for_each. unfold emitted, ending. rewrite bind_assoc.
    rewrite (step_done _ _ env _ _ tt Hblock). cbn [fst snd].
    eexists. split; [reflexivity|].
    destruct others as [|next others'].
    + intros Hstop. simpl for_each. unfold emitted, ending.
      rewrite ret_bind, Hstop. split; reflexivity.
    + simpl for_each. unfold emitted. rewrite bind_assoc.
      unfold delete_lambda_function at 1; cbv zeta.
      rewrite bind_assoc, step_print. cbn [fst]. eauto.
Qed.

Lemma lambda_polling_ends_on_first_fault_witness :
  exists rest,
    emitted (delete_all_lambda_functions 3 "cn-north-1")
      (env_lambda ["f1"; "f2"] 2 gone) [] =
      [listed lambda_list_functions None (mkPage [mkFunction "f1"; mkFunction "f2"] None)]
        ++ function_block "cn-north-1" "f1" 2 gone ++ rest /\
    exists later, rest = Logged (deleting_function_line "f2" "cn-north-1") :: later.
Proof.
  apply (proj2 (lambda_polling_ends_on_first_fault (env_lambda ["f1"; "f2"] 2 gone)
                  "cn-north-1")
           [] 3 (mkPage [mkFunction "f1"; mkFunction "f2"] None)
           (mkFunction "f1") [mkFunction "f2"] 2 gone).
  - reflexivity.
  - reflexivity.
  - reflexivity.
  - intros i Hi. destruct i as [|[|i]]; [reflexivity | reflexivity | lia].
  - reflexivity.
  - lia.
Defined.

(** ** The waiter of an ECS cluster *)

Lemma waiter_missing_nil o : cluster_waiter_missing [] o.
Proof. intros [|] ? ? H; discriminate H. Qed.

Lemma waiter_missing_seq t1 t2 o :
  cluster_waiter_missing t1 (Done tt) ->
  cluster_waiter_missing t2 o ->
  cluster_waiter_missing (t1 ++ t2) o.
Proof.
  intros H1 H2 before c after H.
  apply split_app in H as [(a1 & -> & ->) | (b2 & -> & ->)].
  - destruct (H1 _ _ _ eq_refl) as [_ H]. discriminate H.
  - exact (H2 _ _ _ eq_refl).
Qed.

Lemma waiter_missing_free t o :
  all_requests no_cluster_deletion t -> cluster_waiter_missing t o.
Proof.
  intros Hall before c after ->. exfalso.
  exact (all_requests_at _ _ _ _ _ Hall eq_refl c eq_refl).
Qed.

Lemma ends_waiter_missing_free env {A} (m : M A) :
  holds env (all_requests no_cluster_deletion) m -> ends env cluster_waiter_missing m.
Proof. intros H h. apply waiter_missing_free, H. Qed.

Ltac no_deletion := idtac; let H := fresh "H" in intros ? H; discriminate H.

Lemma other_procedures_keep_clusters env fuel region wait p :
  p <> EcsClusters ->
  holds env (all_requests no_cluster_deletion) (run_procedure fuel region wait p).
Proof.
  intros Hp. destruct p; try (exfalso; apply Hp; reflexivity);
    unfold run_procedure, no_cluster_deletion; requests_hold_with no_deletion.
  apply poll_function_gone_all_requests. no_deletion.
Qed.

Lemma ecs_cluster_deletion_is_last env region cluster_arn :
  ends env cluster_waiter_missing
    (print (deleting_ecs_cluster_line cluster_arn region) ;;
     call (ecs_delete_cluster cluster_arn) ;;
     get_waiter ecs_waiter_names "cluster_deleted" ;;
     call (ecs_wait_cluster_deleted [cluster_arn]) ;;
     print (deleted_ecs_cluster_line cluster_arn region)).
Proof.
  intros h. unfold emitted, ending. rewrite step_print. cbn [fst snd].
  unfold emitted, ending.
  destruct (env (h ++ [Logged (deleting_ecs_cluster_line cluster_arn region)])
              (ecs_delete_cluster cluster_arn)) as [[]|e] eqn:E.
  - rewrite (step_call (ecs_delete_cluster cluster_arn) _ env _ tt E). cbn.
    intros before c after H.
    destruct before as [|x [|y before]]; simpl in H.
    + discriminate H.
    + apply cons_inv in H as [_ H]. apply cons_inv in H as [_ <-].
      split; reflexivity.
    + apply cons_inv in H as [_ H]. apply cons_inv in H as [_ H].
      destruct before; discriminate H.
  - rewrite (step_call_fault (ecs_delete_cluster cluster_arn) _ env _ e E). cbn.
    intros before c after H.
    destruct before as [|x [|y before]]; simpl in H.
    + discriminate H.
    + apply cons_inv in H as [_ H]. apply cons_inv in H as [H _].
      pose proof (Called_request _ _ _ _ H) as Hr. injection Hr as <-.
      apply Called_inj in H. discriminate H.
    + apply cons_inv in H as [_ H]. apply cons_inv in H as [_ H].
      destruct before; discriminate H.
Qed.

Lemma ecs_teardown_waiter_missing env fuel region :
  ends env cluster_waiter_missing (delete_all_ecs_clusters fuel region true).
Proof.
  unfold delete_all_ecs_clusters.
  apply ends_paginate;
    [apply waiter_missing_nil | apply waiter_missing_seq | apply waiter_missing_nil
    | intros; apply waiter_missing_nil | |].
  - intros tok. apply ends_waiter_missing_free. apply holds_call. intros h.
    apply all_requests_call. no_deletion.
  - intros pg. apply ends_for_each;
      [apply waiter_missing_nil | apply waiter_missing_seq |].
    intros cluster_arn _. unfold delete_ecs_cluster.
    apply ends_bind; [apply waiter_missing_seq | |].
    { apply ends_waiter_missing_free. unfold no_cluster_deletion.
      requests_hold_with no_deletion. }
    intros _. apply ends_bind; [apply waiter_missing_seq | |].
    { apply ends_waiter_missing_free. unfold no_cluster_deletion.
      requests_hold_with no_deletion. }
    intros _. apply ecs_cluster_deletion_is_last.
Qed.

(** X19. Called with wait set, as the driver calls it, the ECS teardown
    ends on the first delete_cluster that is accepted: line 353 asks the ECS
    client for a waiter named cluster_deleted, which it does not have, and
    get_waiter raises ValueError.  Nothing is requested after that
    delete_cluster, neither by the procedure nor by the driver: the clusters
    that follow and the procedures that follow are not reached. *)
Theorem ecs_cluster_waiter_does_not_exist (env : client) (fuel : nat) (h : trace) :
  (forall region,
      cluster_waiter_missing
        (emitted (delete_all_ecs_clusters fuel region true) env h)
        (fate (ending (delete_all_ecs_clusters fuel region true) env h))) /\
  cluster_waiter_missing (emitted (main fuel) env h) (fate (ending (main fuel) env h)).
Proof.
  split; [intros region; apply ecs_teardown_waiter_missing|].
  revert h. change (ends env cluster_waiter_missing (main fuel)).
  unfold main; cbv zeta.
  apply ends_bind; [apply waiter_missing_seq | | intros _].
  { apply ends_waiter_missing_free.
    apply (other_procedures_keep_clusters env fuel _ false AutoScalingGroups).
    discriminate. }
  apply ends_bind; [apply waiter_missing_seq | apply ecs_teardown_waiter_missing | intros _].
  apply ends_bind; [apply waiter_missing_seq | | intros _].
  { apply ends_waiter_missing_free.
    apply (other_procedures_keep_clusters env fuel _ false Ec2Instances). discriminate. }
  apply ends_bind; [apply waiter_missing_seq | | intros _].
  { apply ends_waiter_missing_free.
    apply (other_procedures_keep_clusters env fuel _ false LambdaFunctions). discriminate. }
  apply ends_bind; [apply waiter_missing_seq | | intros _].
  { apply ends_waiter_missing_free.
    apply (other_procedures_keep_clusters env fuel _ false PeeringConnections).
    discriminate. }
  apply ends_bind; [apply waiter_missing_seq | | intros _].
  { apply ends_waiter_missing_free.
    apply (other_procedures_keep_clusters env fuel _ false OpenSearchClusters).
    discriminate. }
  apply ends_bind; [apply waiter_missing_seq | | intros _].
  { apply ends_waiter_missing_free.
    apply (other_procedures_keep_clusters env fuel _ false KinesisStreams). discriminate. }
  apply ends_bind; [apply waiter_missing_seq | | intros _].
  { apply ends_waiter_missing_free.
    apply (other_procedures_keep_clusters env fuel _ false EksClusters). discriminate. }
  apply ends_waiter_missing_free.
  apply (other_procedures_keep_clusters env fuel _ false Stacks). discriminate.
Qed.

Lemma ecs_cluster_waiter_does_not_exist_witness :
  emitted (main 1) env_two_clusters [] =
    [listed autoscaling_describe_auto_scaling_groups None no_page;
     listed ecs_list_clusters None (mkPage ["cluster-1"; "cluster-2"] None);
     listed (ecs_list_services "cluster-1") None no_page;
     listed (ecs_list_tasks "cluster-1") None no_page;
     Logged (deleting_ecs_cluster_line "cluster-1" "cn-north-1")]
    ++ Called (ecs_delete_cluster "cluster-1") (Ok tt) :: [] /\
  ([] = @nil event /\
   fate (ending (main 1) env_two_clusters []) =
     Raised (ValueError "Waiter does not exist: cluster_deleted")).
Proof.
  assert (E : emitted (main 1) env_two_clusters [] =
    [listed autoscaling_describe_auto_scaling_groups None no_page;
     listed ecs_list_clusters None (mkPage ["cluster-1"; "cluster-2"] None);
     listed (ecs_list_services "cluster-1") None no_page;
     listed (ecs_list_tasks "cluster-1") None no_page;
     Logged (deleting_ecs_cluster_line "cluster-1" "cn-north-1")]
    ++ Called (ecs_delete_cluster "cluster-1") (Ok tt) :: []) by reflexivity.
  split; [exact E|].
  exact (proj2 (ecs_cluster_waiter_does_not_exist env_two_clusters 1 []) _ _ _ E).
Defined.

(** ** Continuation tokens *)









(** *** A token that comes back *)















